(** * gimg: validation, path resolution, batch orchestration and the edit pipeline

    A shallow embedding of the orchestration code of the gimg toolkit
    ([src/gimg/utils.py], [resize.py], [compress.py], [editor.py], [cli.py]
    and [src/api/main.py]).  Pixel work is delegated by the program to Pillow
    and numpy; here every library call is an uninterpreted symbol ([Call])
    whose effect on the image size and colour mode follows the library's
    documented contract.  Python floats are IEEE binary64, modelled by the
    kernel's primitive floats, so that truncations such as [int(w * ratio)]
    evaluate exactly as they do in CPython. *)

From Stdlib Require Import ZArith List String Ascii Bool Lia Permutation.
From Stdlib Require Import Floats.
From Stdlib Require Import Strings.Byte.
From stdpp Require Import gmap strings.

Set Warnings "-inexact-float,-register-all".
Set Default Proof Using "Type".

(** ** Strings and byte strings *)

Module Str.

Local Open Scope string_scope.

(** Python [bytes] are lists of bytes; [b "GIF87a"] is the literal [b'GIF87a']. *)
Definition b (s : string) : list byte := list_byte_of_string s.

Fixpoint bytes_eqb (x y : list byte) : bool :=
  match x, y with
  | [], [] => true
  | c :: x', d :: y' => Byte.eqb c d && bytes_eqb x' y'
  | _, _ => false
  end.

(** [data[lo:hi]] for [0 <= lo <= hi]. *)
Definition slice (lo hi : nat) (data : list byte) : list byte :=
  firstn (hi - lo) (skipn lo data).

(** The bytes [bytes.lstrip()] removes: space, tab, LF, CR, VT, FF. *)
Definition is_space_byte (c : byte) : bool :=
  match c with
  | x20 | x09 | x0a | x0d | x0b | x0c => true
  | _ => false
  end.

Fixpoint lstrip (data : list byte) : list byte :=
  match data with
  | c :: rest => if is_space_byte c then lstrip rest else data
  | [] => []
  end.

(** [data] begins with the bytes [sig]. *)
Fixpoint starts_with (sig data : list byte) : bool :=
  match sig, data with
  | [], _ => true
  | c :: sig', d :: data' => Byte.eqb d c && starts_with sig' data'
  | _ :: _, [] => false
  end.

(** [s.rfind(c)]: index of the last occurrence. *)
Fixpoint rfind (c : ascii) (s : string) : option nat :=
  match s with
  | EmptyString => None
  | String a s' =>
      match rfind c s' with
      | Some i => Some (S i)
      | None => if Ascii.eqb a c then Some 0%nat else None
      end
  end.

(** [s.split(sep)] for a one-character separator: never empty. *)
Fixpoint split (sep : ascii) (s : string) : list string :=
  match s with
  | EmptyString => [EmptyString]
  | String c s' =>
      if Ascii.eqb c sep then EmptyString :: split sep s'
      else match split sep s' with
           | w :: ws => String c w :: ws
           | [] => [String c EmptyString]
           end
  end.

Fixpoint contains (c : ascii) (s : string) : bool :=
  match s with
  | EmptyString => false
  | String a s' => Ascii.eqb a c || contains c s'
  end.

Fixpoint forall_chars (p : ascii -> bool) (s : string) : bool :=
  match s with
  | EmptyString => true
  | String a s' => p a && forall_chars p s'
  end.

Fixpoint lstrip_chars (p : ascii -> bool) (s : string) : string :=
  match s with
  | String a s' => if p a then lstrip_chars p s' else s
  | EmptyString => EmptyString
  end.

Definition strip_chars (p : ascii -> bool) (s : string) : string :=
  String.rev (lstrip_chars p (String.rev (lstrip_chars p s))).

(** ASCII white space as [str.strip()] sees it: 9..13, 28..31 and 32. *)
Definition is_space (c : ascii) : bool :=
  let n := nat_of_ascii c in
  ((9 <=? n) && (n <=? 13) || (28 <=? n) && (n <=? 32))%nat.

Definition is_quote (c : ascii) : bool :=
  let n := nat_of_ascii c in ((n =? 39) || (n =? 34))%nat.

(** [s.lower()] on ASCII letters. *)
Definition lower_char (c : ascii) : ascii :=
  let n := nat_of_ascii c in
  if ((65 <=? n) && (n <=? 90))%nat then ascii_of_nat (n + 32) else c.

Fixpoint lower (s : string) : string :=
  match s with
  | EmptyString => EmptyString
  | String a s' => String (lower_char a) (lower s')
  end.

Definition is_hex_digit (c : ascii) : bool :=
  let n := nat_of_ascii c in
  ((48 <=? n) && (n <=? 57) || (97 <=? n) && (n <=? 102)
   || (65 <=? n) && (n <=? 70))%nat.

End Str.

(** ** pathlib.PurePosixPath *)

Module Pathlib.

Local Open Scope string_scope.

(** A path is its root flag and its components, as [PurePosixPath] keeps
    them after normalisation: empty components and ["."] are dropped,
    [".."] is kept. [Path(".")] has no component. *)
Record Path := mkPath { anchored : bool; parts : list string }.

#[global] Instance Path_eq_dec : EqDecision Path.
Proof. solve_decision. Defined.

#[global] Instance Path_countable : Countable Path :=
  inj_countable' (fun p => (anchored p, parts p))
                 (fun x => mkPath (fst x) (snd x))
                 (fun p => match p with mkPath _ _ => eq_refl end).

Definition keep_part (c : string) : bool :=
  negb (String.eqb c "") && negb (String.eqb c ".").

(** [Path(s)]. *)
Definition Path_of (s : string) : Path :=
  mkPath (String.prefix "/" s) (List.filter keep_part (Str.split "/" s)).

(** [p / seg] with a string on the right: an absolute segment replaces [p]. *)
Definition joinpath (p : Path) (seg : string) : Path :=
  let q := Path_of seg in
  if anchored q then q else mkPath (anchored p) (parts p ++ parts q).

(** [p.name]: the last component, [""] when there is none. *)
Definition name (p : Path) : string := List.last (parts p) "".

(** [p.parent]. *)
Definition parent (p : Path) : Path := mkPath (anchored p) (List.removelast (parts p)).

(** [p.suffix] and [p.stem] (CPython up to 3.13): split at the last dot
    unless it is the first or the last character of the name. *)
Definition suffix_of (nm : string) : string :=
  match Str.rfind "." nm with
  | Some i =>
      if ((0 <? i) && (i <? String.length nm - 1))%nat
      then substring i (String.length nm - i) nm else ""
  | None => ""
  end.

Definition stem_of (nm : string) : string :=
  match Str.rfind "." nm with
  | Some i =>
      if ((0 <? i) && (i <? String.length nm - 1))%nat
      then substring 0 i nm else nm
  | None => nm
  end.

Definition suffix (p : Path) : string := suffix_of (name p).
Definition stem (p : Path) : string := stem_of (name p).

(** Paths whose components could have come from parsing a string. *)
Definition wf_part (c : string) : Prop :=
  Str.contains "/" c = false /\ c <> "" /\ c <> ".".

Definition wf (p : Path) : Prop := Forall wf_part (parts p).

End Pathlib.

(** ** Python values, exceptions and numbers *)

Module Py.

Import Pathlib.
Local Open Scope string_scope.
Local Open Scope Z_scope.

(** The values that travel through keyword arguments. *)
Inductive pyval :=
| PNone
| PBool (b : bool)
| PInt (z : Z)
| PFloat (f : float)
| PStr (s : string)
| PPath (p : Path).

(** Truth value testing ([if v:]). *)
Definition truthy (v : pyval) : bool :=
  match v with
  | PNone => false
  | PBool b => b
  | PInt z => negb (z =? 0)
  | PFloat f => negb (PrimFloat.eqb f 0)
  | PStr s => negb (String.eqb s "")
  | PPath _ => true
  end.

Definition is_none (v : pyval) : bool :=
  match v with PNone => true | _ => false end.

(** [bool(s)] for an optional string argument ([None] or [""] are false). *)
Definition given (s : option string) : bool :=
  match s with
  | Some t => negb (String.eqb t "")
  | None => false
  end.

(** The text of an exception, kept structured: one constructor per
    message template of the program. *)
Inductive message :=
| FileNotFound (p : Path)                     (* "File not found: {path}" *)
| NotAFile (p : Path)                         (* "Not a file: {path}" *)
| FileTooLarge (size max_size : Z)            (* "File too large: ..MB (max ..MB)" *)
| UnsupportedFormat (p : Path)                (* "Unsupported or unrecognized image format: {path}" *)
| WouldOverwrite                              (* "Output would overwrite input. ..." *)
| OutOfRange (name : string) (lo hi val : pyval)
                                              (* "{name} must be between {lo} and {hi}, got {val}" *)
| UnknownFilter (name : pyval)
| BadFlip (direction : pyval)
| UnknownFrame (name : pyval)
| InvalidHexColor (s : string)
| ResizeNeedsSize                             (* "Specify -w/--width, ..." *)
| NeedsPillowHeif
| NeedsCairoSvg
| UploadTooLarge (max_mb : Z)                 (* "File too large (max {n}MB)" *)
| UploadUnsupported                           (* "Unsupported image format" *)
| FromLibrary.                                (* raised inside Pillow or the OS *)

Inductive exn_class :=
| FileNotFoundError
| ValueError
| TypeError
| AttributeError
| ImportError
| OSError
| ZeroDivisionError
| OverflowError
| HTTPException (status : Z).

Record exn := Exn { cls : exn_class; str : message }.

Inductive result (A : Type) :=
| Ok (a : A)
| Raise (e : exn).
Arguments Ok {A} a.
Arguments Raise {A} e.

Definition bind {A B} (m : result A) (k : A -> result B) : result B :=
  match m with
  | Ok a => k a
  | Raise e => Raise e
  end.

Definition is_ok {A} (m : result A) : bool :=
  match m with Ok _ => true | Raise _ => false end.

(** Computations that read and change a state [S] and may raise; the state
    survives an exception. *)
Definition stateful (S A : Type) : Type := S -> result A * S.

Definition ret {S A} (a : A) : stateful S A := fun s => (Ok a, s).

Definition raise {S A} (e : exn) : stateful S A := fun s => (Raise e, s).

Definition sbind {S A B} (m : stateful S A) (k : A -> stateful S B) : stateful S B :=
  fun s => match m s with
           | (Ok a, s') => k a s'
           | (Raise e, s') => (Raise e, s')
           end.

(** [try: body except Exception as e: handler(e)]. *)
Definition try_except {S A} (body : stateful S A) (handler : exn -> stateful S A)
  : stateful S A :=
  fun s => match body s with
           | (Ok a, s') => (Ok a, s')
           | (Raise e, s') => handler e s'
           end.

(** [try: body finally: cleanup]: the cleanup runs on both exits; an
    exception of its own replaces the outcome of the body. *)
Definition try_finally {S A} (body : stateful S A) (cleanup : stateful S unit)
  : stateful S A :=
  fun s => match body s with
           | (r, s') =>
               match cleanup s' with
               | (Ok _, s'') => (r, s'')
               | (Raise e, s'') => (Raise e, s'')
               end
           end.

(** *** Numbers *)

(** [float(z)], correctly rounded. *)
Definition float_of_Z (z : Z) : float :=
  SF2Prim (binary_normalize prec emax z 0 false).

(** [int(x)]: truncation towards zero. *)
Definition py_int (x : float) : result Z :=
  match Prim2SF x with
  | S754_zero _ => Ok 0
  | S754_finite s m e =>
      let a := if 0 <=? e then Z.shiftl (Z.pos m) e else Z.shiftr (Z.pos m) (- e) in
      Ok (if s then - a else a)
  | S754_infinity _ => Raise (Exn OverflowError FromLibrary)
  | S754_nan => Raise (Exn ValueError FromLibrary)
  end.

(** [a / b] on integers: true division. *)
Definition truediv (a b : Z) : result float :=
  if b =? 0 then Raise (Exn ZeroDivisionError FromLibrary)
  else Ok (PrimFloat.div (float_of_Z a) (float_of_Z b)).

(** [min(a, b)] on floats: [b] only when [b < a]. *)
Definition fmin (a b : float) : float :=
  if PrimFloat.ltb b a then b else a.

Inductive num := NInt (z : Z) | NFloat (f : float).

Definition as_num (v : pyval) : option num :=
  match v with
  | PInt z => Some (NInt z)
  | PBool b => Some (NInt (if b then 1 else 0))
  | PFloat f => Some (NFloat f)
  | _ => None
  end.

(** [x < y] on numbers; an integer meets a float as its conversion (exact
    below 2^53, which covers every bound the program compares against). *)
Definition num_lt (x y : num) : bool :=
  match x, y with
  | NInt a, NInt c => a <? c
  | NInt a, NFloat g => PrimFloat.ltb (float_of_Z a) g
  | NFloat f, NInt c => PrimFloat.ltb f (float_of_Z c)
  | NFloat f, NFloat g => PrimFloat.ltb f g
  end.

(** [a < b]; comparing a number with [None] or a string is a [TypeError]. *)
Definition py_lt (a c : pyval) : result bool :=
  match as_num a, as_num c with
  | Some x, Some y => Ok (num_lt x y)
  | _, _ => Raise (Exn TypeError FromLibrary)
  end.

(** *** Keyword arguments: a dict in insertion order *)

Definition kwargs := list (string * pyval).

Fixpoint lookup_kw (kw : kwargs) (key : string) : option pyval :=
  match kw with
  | [] => None
  | (k, v) :: rest => if String.eqb k key then Some v else lookup_kw rest key
  end.

(** [kwargs.get(key)] and [kwargs.get(key, default)]. *)
Definition get (kw : kwargs) (key : string) : pyval :=
  match lookup_kw kw key with Some v => v | None => PNone end.

Definition get_default (kw : kwargs) (key : string) (default : pyval) : pyval :=
  match lookup_kw kw key with Some v => v | None => default end.

End Py.

Declare Scope result_scope.
Delimit Scope result_scope with result.
Notation "x <- m ;; k" := (Py.bind m (fun x => k))
  (at level 100, m at next level, right associativity) : result_scope.

Declare Scope stateful_scope.
Delimit Scope stateful_scope with stateful.
Notation "x <- m ;; k" := (Py.sbind m (fun x => k))
  (at level 100, m at next level, right associativity) : stateful_scope.

(** ** The file system *)

Module Fs.

Import Pathlib.
Local Open Scope Z_scope.

(** What a path names: a directory, a regular file with its content (and
    whether this process may read it), or something else that exists
    (a socket, a device). *)
Inductive node :=
| Dir
| File (readable : bool) (data : list byte)
| Other.

(** The current directory and the root always exist. *)
Definition stat (fs : gmap Path node) (p : Path) : option node :=
  match parts p with
  | [] => Some Dir
  | _ => fs !! p
  end.

Definition exists_ (fs : gmap Path node) (p : Path) : bool :=
  match stat fs p with Some _ => true | None => false end.

Definition is_file (fs : gmap Path node) (p : Path) : bool :=
  match stat fs p with Some (File _ _) => true | _ => false end.

Definition is_dir (fs : gmap Path node) (p : Path) : bool :=
  match stat fs p with Some Dir => true | _ => false end.

(** [p.stat().st_size] of a regular file. *)
Definition st_size (fs : gmap Path node) (p : Path) : Z :=
  match stat fs p with
  | Some (File _ data) => Z.of_nat (List.length data)
  | _ => 0
  end.

(** [open(p, 'rb').read(n)]; [None] stands for [OSError]. *)
Definition read (fs : gmap Path node) (p : Path) (n : nat) : option (list byte) :=
  match stat fs p with
  | Some (File true data) => Some (firstn n data)
  | _ => None
  end.

Definition read_all (fs : gmap Path node) (p : Path) : option (list byte) :=
  match stat fs p with
  | Some (File true data) => Some data
  | _ => None
  end.

(** [p.mkdir(parents=True, exist_ok=True)], walking the components from the
    top: a missing one is created, a directory is entered, anything else is
    [FileExistsError] / [NotADirectoryError]. *)
Fixpoint mkdir_from (fs : gmap Path node) (anch : bool) (done todo : list string)
  : Py.result unit * gmap Path node :=
  match todo with
  | [] => (Py.Ok tt, fs)
  | c :: rest =>
      let p := mkPath anch (done ++ [c]) in
      match fs !! p with
      | None => mkdir_from (<[p := Dir]> fs) anch (done ++ [c]) rest
      | Some Dir => mkdir_from fs anch (done ++ [c]) rest
      | Some _ => (Py.Raise (Py.Exn Py.OSError Py.FromLibrary), fs)
      end
  end.

Definition mkdir_parents (fs : gmap Path node) (p : Path)
  : Py.result unit * gmap Path node :=
  mkdir_from fs (anchored p) [] (parts p).

End Fs.

(** ** Pillow, as the program uses it *)

Module Pil.

Import Pathlib Py Fs.
Local Open Scope string_scope.
Local Open Scope list_scope.
Local Open Scope Z_scope.
Local Open Scope result_scope.

(** Pixel data is never inspected by the program: it is the term of library
    calls that produced it, innermost call first applied. *)
Inductive pixels :=
| Call (fn : string) (args : list pyval) (srcs : list pixels).

(** An image handle: [img.size], [img.mode], whether ['transparency'] is in
    [img.info], and its pixels. *)
Record image := mkImage {
  size : Z * Z;
  mode : string;
  transparency : bool;
  px : pixels
}.

Definition width (img : image) : Z := fst (size img).
Definition height (img : image) : Z := snd (size img).

(** What the decoder reports for the content of a file. *)
Record header := mkHeader {
  h_size : Z * Z;
  h_mode : string;
  h_transparency : bool
}.

(** The environment of a processor: the files, Pillow's decoder
    ([None]: not an image), and the optional packages. *)
Record Env := mkEnv {
  fs : gmap Path node;
  decoder : list byte -> option header;
  has_pillow_heif : bool;
  has_cairosvg : bool;
  svg2png : list byte -> option (list byte)
}.

(** The arguments and the destination of [img.save(path, **options)]. *)
Record saved := mkSaved {
  target : Path;
  picture : image;
  options : kwargs
}.

Definition library_error {A} (c : exn_class) : result A := Raise (Exn c FromLibrary).

(** [Image.open(path)]. *)
Definition Image_open (env : Env) (path : Path) : result image :=
  match read_all (fs env) path with
  | None => library_error OSError
  | Some data =>
      match decoder env data with
      | None => library_error OSError
      | Some h => Ok (mkImage (h_size h) (h_mode h) (h_transparency h)
                        (Call "Image.open" [PPath path] []))
      end
  end.

(** [Image.open(io.BytesIO(cairosvg.svg2png(url=str(path))))]. *)
Definition Image_open_svg (env : Env) (path : Path) : result image :=
  match read_all (fs env) path with
  | None => library_error OSError
  | Some data =>
      match svg2png env data with
      | None => library_error ValueError
      | Some png =>
          match decoder env png with
          | None => library_error OSError
          | Some h => Ok (mkImage (h_size h) (h_mode h) (h_transparency h)
                            (Call "Image.open" [] [Call "cairosvg.svg2png" [PPath path] []]))
          end
      end
  end.

(** A library call that keeps the size and sets the mode. *)
Definition lib (fn : string) (args : list pyval) (m : string) (img : image) : image :=
  mkImage (size img) m false (Call fn args [px img]).

Definition convert (m : string) (img : image) : image :=
  lib "convert" [PStr m] m img.

(** [img.resize((w, h), Image.LANCZOS)]: both sides must be positive. *)
Definition resize (w h : Z) (img : image) : result image :=
  if (w <? 1) || (h <? 1) then library_error ValueError
  else Ok (mkImage (w, h) (mode img) false
             (Call "resize" [PInt w; PInt h; PStr "LANCZOS"] [px img])).

(** [img.crop((left, top, right, bottom))]. *)
Definition crop (left top right bottom : Z) (img : image) : result image :=
  if (right <? left) || (bottom <? top) then library_error ValueError
  else Ok (mkImage (right - left, bottom - top) (mode img) false
             (Call "crop" [PInt left; PInt top; PInt right; PInt bottom] [px img])).

(** [Image.new(mode, size, color)]. *)
Definition Image_new (m : string) (w h : Z) (color : pyval) : image :=
  mkImage (w, h) m false (Call "Image.new" [PStr m; PInt w; PInt h; color] []).

(** [canvas.paste(src, (x, y))]: the canvas afterwards. The sources of the
    call are the pasted picture, then the canvas. *)
Definition paste (src : image) (x y : Z) (canvas : image) : image :=
  mkImage (size canvas) (mode canvas) false
    (Call "paste" [PInt x; PInt y] [px src; px canvas]).

(** [canvas.paste(src, mask=mask)]. *)
Definition paste_mask (src mask : image) (canvas : image) : image :=
  mkImage (size canvas) (mode canvas) false
    (Call "paste" [] [px src; px canvas; px mask]).

(** [img.split()[k]] and [Image.merge(mode, bands)]. *)
Definition band (k : Z) (img : image) : image :=
  lib "split" [PInt k] "L" img.

Definition merge (m : string) (bands : list image) : image :=
  match bands with
  | [] => mkImage (0, 0) m false (Call "Image.merge" [PStr m] [])
  | b0 :: _ => mkImage (size b0) m false (Call "Image.merge" [PStr m] (map px bands))
  end.

(** [img.putalpha(mask)]: the image afterwards. *)
Definition putalpha (mask : image) (img : image) : image :=
  mkImage (size img) (mode img) false (Call "putalpha" [] [px img; px mask]).

(** [ImageEnhance.<kind>(img).enhance(factor)]. *)
Definition enhance (kind : string) (factor : pyval) (img : image) : image :=
  lib ("ImageEnhance." +:+ kind +:+ ".enhance") [factor] (mode img) img.

(** [img.filter(ImageFilter.<kernel>)]. *)
Definition filter_with (kernel : string) (args : list pyval) (img : image) : image :=
  lib ("ImageFilter." +:+ kernel) args (mode img) img.

Definition grayscale (img : image) : image := lib "ImageOps.grayscale" [] "L" img.

Definition autocontrast (cutoff : Z) (img : image) : image :=
  lib "ImageOps.autocontrast" [PInt cutoff] (mode img) img.

Definition invert (img : image) : image := lib "ImageOps.invert" [] (mode img) img.

Definition posterize (bits : Z) (img : image) : image :=
  lib "ImageOps.posterize" [PInt bits] (mode img) img.

Definition solarize (threshold : Z) (img : image) : image :=
  lib "ImageOps.solarize" [PInt threshold] (mode img) img.

Definition mirror (img : image) : image := lib "ImageOps.mirror" [] (mode img) img.
Definition flip (img : image) : image := lib "ImageOps.flip" [] (mode img) img.

(** [ImageOps.expand(img, border=b, fill=color)]: [b] pixels of [color] on
    every side, the image pasted at [(b, b)]. *)
Definition expand (b : Z) (color : string) (img : image) : image :=
  mkImage (width img + 2 * b, height img + 2 * b) (mode img) false
    (Call "ImageOps.expand" [PInt b; PStr color] [px img]).

(** [Image.fromarray(f(np.array(img)))] for a per-pixel numpy computation
    [f] that yields an array of the colour mode [m]. *)
Definition numpy (f : string) (args : list pyval) (m : string) (img : image) : image :=
  lib ("numpy:" +:+ f) args m img.

(** [ImageDraw.Draw(mask).rounded_rectangle(...)]: the mask afterwards. *)
Definition rounded_rectangle (w h radius fill : Z) (mask : image) : image :=
  lib "ImageDraw.rounded_rectangle" [PInt 0; PInt 0; PInt w; PInt h; PInt radius; PInt fill]
    (mode mask) mask.

(** [img.save(path, **options)]. *)
Definition save (path : Path) (opts : kwargs) (img : image) : result saved :=
  Ok (mkSaved path img opts).

(** The names of the calls along the first source of each call, oldest
    first: the lineage of an image. *)
Fixpoint lineage (p : pixels) : list string :=
  match p with
  | Call fn _ srcs =>
      match srcs with
      | q :: _ => lineage q ++ [fn]
      | [] => [fn]
      end
  end.

End Pil.
(** ** gimg/utils.py *)

Module Utils.

Import Pathlib Py Fs.
Local Open Scope string_scope.
Local Open Scope Z_scope.
Local Open Scope result_scope.

(** The format names [detect_format] returns; its [None] is the
    specification's [Unknown]. *)
Inductive format := JPEG | PNG | GIF | WEBP | BMP | TIFF | HEIC | SVG.

Definition MAX_FILE_SIZE : Z := 50 * 1024 * 1024.

Definition PNG_SIGNATURE : list byte := [x89; x50; x4e; x47; x0d; x0a; x1a; x0a].
Definition TIFF_LE : list byte := [x49; x49; x2a; x00].
Definition TIFF_BE : list byte := [x4d; x4d; x00; x2a].

Definition HEIC_BRANDS : list (list byte) :=
  [Str.b "heic"; Str.b "heix"; Str.b "hevc"; Str.b "mif1"; Str.b "msf1"; Str.b "avif"].

(** The body of [detect_format] once the first 32 bytes are read. *)
Definition classify_header (header : list byte) : option format :=
  if Str.bytes_eqb (Str.slice 0 3 header) [xff; xd8; xff] then Some JPEG
  else if Str.bytes_eqb (Str.slice 0 8 header) PNG_SIGNATURE then Some PNG
  else if Str.bytes_eqb (Str.slice 0 6 header) (Str.b "GIF87a")
          || Str.bytes_eqb (Str.slice 0 6 header) (Str.b "GIF89a") then Some GIF
  else if Str.bytes_eqb (Str.slice 0 4 header) (Str.b "RIFF")
          && Str.bytes_eqb (Str.slice 8 12 header) (Str.b "WEBP") then Some WEBP
  else if Str.bytes_eqb (Str.slice 0 2 header) (Str.b "BM") then Some BMP
  else if Str.bytes_eqb (Str.slice 0 4 header) TIFF_LE
          || Str.bytes_eqb (Str.slice 0 4 header) TIFF_BE then Some TIFF
  else if (12 <=? List.length header)%nat
          && Str.bytes_eqb (Str.slice 4 8 header) (Str.b "ftyp")
          && existsb (Str.bytes_eqb (Str.slice 8 12 header)) HEIC_BRANDS then Some HEIC
  else
    let stripped := Str.lstrip header in
    if Str.bytes_eqb (Str.slice 0 5 stripped) (Str.b "<?xml")
       || Str.bytes_eqb (Str.slice 0 4 stripped) (Str.b "<svg") then Some SVG
    else None.

(** *** Signatures, as the specification lists them

    A signature is a pattern over the header; a table gives the format of
    the first signature that matches. *)
Inductive signature :=
| Magic (offset : nat) (bytes : list byte)          (* these bytes at this offset *)
| OneOf (offset : nat) (choices : list (list byte)) (* one of these at this offset *)
| AllOf (s1 s2 : signature)
| AnyOf (s1 s2 : signature)
| AfterSpace (s : signature).                       (* once leading white space is skipped *)

Fixpoint matches (s : signature) (header : list byte) : bool :=
  match s with
  | Magic off sig => Str.starts_with sig (skipn off header)
  | OneOf off sigs => existsb (fun sig => Str.starts_with sig (skipn off header)) sigs
  | AllOf s1 s2 => matches s1 header && matches s2 header
  | AnyOf s1 s2 => matches s1 header || matches s2 header
  | AfterSpace s' => matches s' (Str.lstrip header)
  end.

Fixpoint classify (table : list (signature * format)) (header : list byte)
  : option format :=
  match table with
  | [] => None
  | (s, f) :: rest => if matches s header then Some f else classify rest header
  end.

Definition SVG_MARKERS : signature :=
  AnyOf (Magic 0 (Str.b "<?xml")) (Magic 0 (Str.b "<svg")).

(** The signatures every format but SVG is recognised by, in priority order. *)
Definition BINARY_SIGNATURES : list (signature * format) :=
  [(Magic 0 [xff; xd8; xff], JPEG);
   (Magic 0 PNG_SIGNATURE, PNG);
   (OneOf 0 [Str.b "GIF87a"; Str.b "GIF89a"], GIF);
   (AllOf (Magic 0 (Str.b "RIFF")) (Magic 8 (Str.b "WEBP")), WEBP);
   (Magic 0 (Str.b "BM"), BMP);
   (OneOf 0 [TIFF_LE; TIFF_BE], TIFF);
   (AllOf (Magic 4 (Str.b "ftyp")) (OneOf 8 HEIC_BRANDS), HEIC)].

(** The priority list in the specification's words: SVG is a {i leading}
    [<?xml] or [<svg]. *)
Definition SPEC_SIGNATURES : list (signature * format) :=
  BINARY_SIGNATURES ++ [(SVG_MARKERS, SVG)].

(** The priority list the code implements: the SVG markers are looked for
    after leading white space. *)
Definition CODE_SIGNATURES : list (signature * format) :=
  BINARY_SIGNATURES ++ [(AfterSpace SVG_MARKERS, SVG)].

(** [detect_format(path)]: a file that cannot be opened is [None] too. *)
Definition detect_format (fs : gmap Path node) (path : Path) : option format :=
  match read fs path 32 with
  | None => None
  | Some header => classify_header header
  end.

(** [open_image(path)]: HEIC needs pillow_heif, SVG is rendered by cairosvg. *)
Definition open_image (env : Pil.Env) (path : Path) : result Pil.image :=
  match detect_format (Pil.fs env) path with
  | Some HEIC =>
      if Pil.has_pillow_heif env then Pil.Image_open env path
      else Raise (Exn ImportError NeedsPillowHeif)
  | Some SVG =>
      if Pil.has_cairosvg env then Pil.Image_open_svg env path
      else Raise (Exn ImportError NeedsCairoSvg)
  | _ => Pil.Image_open env path
  end.

(** [validate_input(path, max_size)]; the default ceiling is [MAX_FILE_SIZE]. *)
Definition validate_input (fs : gmap Path node) (path : Path) (max_size : Z)
  : result unit :=
  if negb (exists_ fs path) then Raise (Exn FileNotFoundError (FileNotFound path))
  else if negb (is_file fs path) then Raise (Exn ValueError (NotAFile path))
  else
    let size := st_size fs path in
    if size >? max_size then Raise (Exn ValueError (FileTooLarge size max_size))
    else match detect_format fs path with
         | None => Raise (Exn ValueError (UnsupportedFormat path))
         | Some _ => Ok tt
         end.

(** [default_output(input_path, suffix, ext)]: [{stem}_{suffix}{extension}]
    next to the input. *)
Definition default_output (input_path : Path) (suffix : string) (ext : option string)
  : Path :=
  let stem := Pathlib.stem input_path in
  let extension := if given ext then default "" ext else Pathlib.suffix input_path in
  let extension := if String.prefix "." extension then extension else "." +:+ extension in
  joinpath (parent input_path) (stem +:+ "_" +:+ suffix +:+ extension).

(** The file name of the contract, [{input-stem}_{suffix}.{ext}]: the
    extension is the forced one when given, else the input's, and carries
    its dot. *)
Definition dotted (e : string) : string :=
  if String.prefix "." e then e else "." +:+ e.

Definition synthesized_name (input_path : Path) (suffix : string) (ext : option string)
  : string :=
  Pathlib.stem input_path +:+ "_" +:+ suffix
    +:+ dotted (if given ext then default "" ext else Pathlib.suffix input_path).

(** A file-name fragment: text without a path separator. *)
Definition fragment (s : string) : Prop := Str.contains "/" s = false.

(** [resolve_output(input_path, output_arg, tool_suffix, ext, overwrite)]. *)
Definition resolve_output (fs : gmap Path node) (input_path : Path)
    (output_arg : option string) (tool_suffix : string) (ext : option string)
    (overwrite : bool) : result Path :=
  if given output_arg then
    let out := Path_of (default "" output_arg) in
    if is_dir fs out then
      let name := Pathlib.name (default_output input_path tool_suffix ext) in
      Ok (joinpath out name)
    else Ok out
  else
    let out := default_output input_path tool_suffix ext in
    if bool_decide (out = input_path) && negb overwrite
    then Raise (Exn ValueError WouldOverwrite)
    else Ok out.

(** *** Console output and the batch runner *)

Inductive line :=
| ItemOk (i total : Z) (input_name output_name : string)   (* "[i/total] ✓ a → b" *)
| ItemFailed (i total : Z) (input_name : string) (e : message)
                                                           (* stderr: "[i/total] ✗ a: e" *)
| Summary (success total : Z) (failed : option Z)          (* "Done: s/t succeeded[, k failed]" *)
| SingleOk (input_name output_name : string)               (* "✓ a → b" *)
| ErrorLine (e : message).                                 (* stderr: "Error: e" *)

Record World := mkWorld { files : gmap Path node; console : list line }.

(** Computations over the world. *)
Definition W (A : Type) : Type := stateful World A.

Definition lift {A} (f : gmap Path node -> result A) : W A :=
  fun w => (f (files w), w).

Definition print (l : line) : W unit :=
  fun w => (Ok tt, mkWorld (files w) (console w ++ [l])).

(** [Path(p).mkdir(parents=True, exist_ok=True)]. *)
Definition mkdir (p : Path) : W unit :=
  fun w => let '(r, fs') := mkdir_parents (files w) p in (r, mkWorld fs' (console w)).

(** [ensure_parent(path)]. *)
Definition ensure_parent (path : Path) : W unit := mkdir (parent path).

End Utils.


Module Batch.

Import Pathlib Py Fs Utils.
Local Open Scope string_scope.
Local Open Scope list_scope.
Local Open Scope Z_scope.
Local Open Scope stateful_scope.

Section RunBatch.

(** The processor and the arguments shared by every item ([**kwargs] is
    closed over by [process_fn]). *)
Variable process_fn : Path -> Path -> W unit.
Variable output_arg : option string.
Variable tool_suffix : string.
Variable overwrite : bool.
Variable ext : option string.

(** The body of the [try] in [run_batch]'s loop. *)
Definition process_item (i total : Z) (inp : Path) : W unit :=
  _ <- lift (fun fs => validate_input fs inp MAX_FILE_SIZE) ;;
  out <- lift (fun fs => resolve_output fs inp output_arg tool_suffix ext overwrite) ;;
  _ <- ensure_parent out ;;
  _ <- process_fn inp out ;;
  print (ItemOk i total (name inp) (name out)).

(** The loop: [success] and [errors] are the function's local counters. *)
Fixpoint batch_loop (items : list Path) (i total success : Z)
    (errors : list (Path * message)) : W (Z * list (Path * message)) :=
  match items with
  | [] => ret (success, errors)
  | inp :: rest =>
      r <- try_except
             (_ <- process_item i total inp ;; ret (success + 1, errors))
             (fun e => _ <- print (ItemFailed i total (name inp) (str e)) ;;
                       ret (success, errors ++ [(inp, str e)])) ;;
      batch_loop rest (i + 1) total (fst r) (snd r)
  end.

(** The statement before the loop: in batch mode an output argument is a
    directory to create. It is outside the [try]. *)
Definition prepare_output_dir (total : Z) : W unit :=
  if given output_arg && (total >? 1)
  then mkdir (Path_of (default "" output_arg)) else ret tt.

(** [run_batch(inputs, process_fn, output_arg, tool_suffix, overwrite, ext)]. *)
Definition run_batch (inputs : list Path) : W Z :=
  let total := Z.of_nat (List.length inputs) in
  _ <- prepare_output_dir total ;;
  r <- batch_loop inputs 1 total 0 [] ;;
  let '(success, errors) := r in
  match errors with
  | [] => _ <- print (Summary success total None) ;; ret 0
  | _ :: _ =>
      _ <- print (Summary success total (Some (Z.of_nat (List.length errors)))) ;;
      ret 2
  end.

(** The contract of the loop, as an execution: every item is run in turn,
    in the world its predecessors left; an exception is recorded with a
    line on stderr and the next item runs all the same. The outcome of each
    item is listed beside it. *)
Inductive batch_exec (total : Z)
  : Z -> list Path -> World -> list (Path * result unit) -> World -> Prop :=
| exec_done i w : batch_exec total i [] w [] w
| exec_ok i inp rest w w1 outs w2 :
    process_item i total inp w = (Ok tt, w1) ->
    batch_exec total (i + 1) rest w1 outs w2 ->
    batch_exec total i (inp :: rest) w ((inp, Ok tt) :: outs) w2
| exec_caught i inp rest w w1 e outs w2 :
    process_item i total inp w = (Raise e, w1) ->
    batch_exec total (i + 1) rest
      (mkWorld (files w1) (console w1 ++ [ItemFailed i total (name inp) (str e)]))
      outs w2 ->
    batch_exec total i (inp :: rest) w ((inp, Raise e) :: outs) w2.

Definition failed (outs : list (Path * result unit)) : Z :=
  Z.of_nat (List.length (List.filter (fun o => negb (is_ok (snd o))) outs)).

Definition succeeded (outs : list (Path * result unit)) : Z :=
  Z.of_nat (List.length (List.filter (fun o => is_ok (snd o)) outs)).

(** The single-input branch every [cmd_*] of cli.py repeats. *)
Definition run_single (inp : Path) : W Z :=
  _ <- lift (fun fs => validate_input fs inp MAX_FILE_SIZE) ;;
  out <- lift (fun fs => resolve_output fs inp output_arg tool_suffix ext overwrite) ;;
  _ <- ensure_parent out ;;
  _ <- process_fn inp out ;;
  _ <- print (SingleOk (name inp) (name out)) ;;
  ret 0.

(** [cmd_compress], [cmd_resize], ...: one input runs directly, several run
    as a batch. *)
Definition cmd_tool (inputs : list Path) : W Z :=
  match inputs with
  | [inp] => run_single inp
  | _ => run_batch inputs
  end.

(** [main]: the process exit status. *)
Definition main (inputs : list Path) (w : World) : Z * World :=
  match cmd_tool inputs w with
  | (Ok rc, w') => (rc, w')
  | (Raise e, w') => (1, mkWorld (files w') (console w' ++ [ErrorLine (str e)]))
  end.

End RunBatch.

End Batch.

(** ** gimg/resize.py *)

Module Resize.

Import Pathlib Py.
Local Open Scope string_scope.
Local Open Scope list_scope.
Local Open Scope Z_scope.
Local Open Scope result_scope.

(** The keyword-only parameters of [process_single]. *)
Record params := mkParams {
  width : option Z;
  height : option Z;
  percentage : option float;
  max_size : option Z
}.

Definition nonzero (v : option Z) : option Z :=
  match v with
  | Some z => if z =? 0 then None else Some z
  | None => None
  end.

(** [int(orig * percentage / 100)]. *)
Definition scale_percent (orig : Z) (percentage : float) : result Z :=
  py_int (PrimFloat.div (PrimFloat.mul (float_of_Z orig) percentage) (float_of_Z 100)).

(** [int(orig * ratio)]. *)
Definition scale (orig : Z) (ratio : float) : result Z :=
  py_int (PrimFloat.mul (float_of_Z orig) ratio).

(** The branch of [process_single] that computes [(new_w, new_h)] from
    [img.size] and the parameters. *)
Definition new_size (orig_w orig_h : Z) (p : params) : result (Z * Z) :=
  match percentage p with
  | Some pct =>
      new_w <- scale_percent orig_w pct ;;
      new_h <- scale_percent orig_h pct ;;
      Ok (new_w, new_h)
  | None =>
      match max_size p with
      | Some m =>
          rw <- truediv m orig_w ;;
          rh <- truediv m orig_h ;;
          let ratio := fmin rw rh in
          if PrimFloat.leb (float_of_Z 1) ratio then Ok (orig_w, orig_h)
          else
            new_w <- scale orig_w ratio ;;
            new_h <- scale orig_h ratio ;;
            Ok (new_w, new_h)
      | None =>
          match nonzero (width p), nonzero (height p) with
          | Some w, Some h => Ok (w, h)
          | Some w, None =>
              ratio <- truediv w orig_w ;;
              new_h <- scale orig_h ratio ;;
              Ok (w, new_h)
          | None, Some h =>
              ratio <- truediv h orig_h ;;
              new_w <- scale orig_w ratio ;;
              Ok (new_w, h)
          | None, None => Raise (Exn ValueError ResizeNeedsSize)
          end
      end
  end.

Definition jpeg_ext (ext : string) : bool :=
  String.eqb ext ".jpg" || String.eqb ext ".jpeg".

Definition alpha_or_palette (m : string) : bool :=
  String.eqb m "RGBA" || String.eqb m "P" || String.eqb m "LA".

(** [process_single(input_path, output_path, *, width, height, percentage, max_size)]. *)
Definition process_single (env : Pil.Env) (input_path output_path : Path) (p : params)
  : result Pil.saved :=
  img <- Utils.open_image env input_path ;;
  dims <- new_size (Pil.width img) (Pil.height img) p ;;
  resized <- Pil.resize (fst dims) (snd dims) img ;;
  let out_ext := Str.lower (suffix output_path) in
  let resized :=
    if jpeg_ext out_ext && alpha_or_palette (Pil.mode resized)
    then Pil.convert "RGB" resized else resized in
  Pil.save output_path [("optimize", PBool true)] resized.

End Resize.

(** ** gimg/compress.py *)

Module Compress.

Import Pathlib Py.
Local Open Scope string_scope.
Local Open Scope list_scope.
Local Open Scope Z_scope.
Local Open Scope result_scope.

(** [process_single(input_path, output_path, *, quality=80)]: [quality]
    goes to the encoder as it came. *)
Definition process_single (env : Pil.Env) (input_path output_path : Path)
    (quality : pyval) : result Pil.saved :=
  img <- Utils.open_image env input_path ;;
  let save_kwargs := [("optimize", PBool true)] in
  let out_ext := Str.lower (suffix output_path) in
  if Resize.jpeg_ext out_ext then
    let img := if Resize.alpha_or_palette (Pil.mode img)
               then Pil.convert "RGB" img else img in
    Pil.save output_path
      (save_kwargs ++ [("quality", quality); ("progressive", PBool true)]) img
  else if String.eqb out_ext ".png" then
    Pil.save output_path (save_kwargs ++ [("compress_level", PInt 9)]) img
  else if String.eqb out_ext ".webp" then
    Pil.save output_path (save_kwargs ++ [("quality", quality); ("method", PInt 6)]) img
  else
    Pil.save output_path (save_kwargs ++ [("quality", quality)]) img.

End Compress.

(** ** gimg/editor.py *)

Module Editor.

Import Pathlib Py Pil.
Local Open Scope string_scope.
Local Open Scope list_scope.
Local Open Scope Z_scope.
Local Open Scope result_scope.

(** *** Validation *)

(** [_clamp(val, lo, hi, name)]: [val < lo or val > hi] raises. *)
Definition _clamp (val lo hi : pyval) (name : string) : result pyval :=
  below <- py_lt val lo ;;
  if below then Raise (Exn ValueError (OutOfRange name lo hi val))
  else
    above <- py_lt hi val ;;
    if above then Raise (Exn ValueError (OutOfRange name lo hi val))
    else Ok val.

(** [_parse_color(color_str)]. *)
Definition _parse_color (color_str : pyval) : result string :=
  if negb (truthy color_str) then Ok "white"
  else match color_str with
       | PStr c =>
           let s := Str.strip_chars Str.is_quote (Str.strip_chars Str.is_space c) in
           if String.prefix "#" s then
             let clean := substring 1 (String.length s - 1) s in
             let n := String.length clean in
             if negb ((n =? 3) || (n =? 4) || (n =? 6) || (n =? 8))%nat
                || negb (Str.forall_chars Str.is_hex_digit clean)
             then Raise (Exn ValueError (InvalidHexColor s))
             else Ok s
           else Ok s
       | _ => library_error AttributeError
       end.

(** An integer argument where Pillow needs one. *)
Definition as_int (v : pyval) : result Z :=
  match v with
  | PInt z => Ok z
  | PBool b => Ok (if b then 1 else 0)
  | _ => library_error TypeError
  end.

(** *** Adjustments *)

Definition apply_brightness (img : image) (factor : pyval) : result image :=
  _ <- _clamp factor (PFloat 0) (PFloat 10) "brightness" ;;
  Ok (enhance "Brightness" factor img).

Definition apply_contrast (img : image) (factor : pyval) : result image :=
  _ <- _clamp factor (PFloat 0) (PFloat 10) "contrast" ;;
  Ok (enhance "Contrast" factor img).

Definition apply_saturation (img : image) (factor : pyval) : result image :=
  _ <- _clamp factor (PFloat 0) (PFloat 10) "saturation" ;;
  Ok (enhance "Color" factor img).

Definition apply_sharpness (img : image) (factor : pyval) : result image :=
  _ <- _clamp factor (PFloat 0) (PFloat 10) "sharpness" ;;
  Ok (enhance "Sharpness" factor img).

Definition apply_hue (img : image) (degrees : pyval) : result image :=
  _ <- _clamp degrees (PInt (-180)) (PInt 180) "hue" ;;
  let img := if negb (String.eqb (mode img) "RGB") then convert "RGB" img else img in
  Ok (numpy "hue_shift" [degrees] "RGB" img).

(** *** Filters *)

Definition VALID_FILTERS : list string :=
  ["grayscale"; "sepia"; "blur"; "emboss"; "contour"; "sharpen"; "smooth";
   "invert"; "posterize"; "solarize"; "vintage"; "dramatic"; "warm"; "cool"].

Definition _grayscale (img : image) : image := convert "RGB" (grayscale img).

Definition _sepia (img : image) : image :=
  numpy "sepia" [] "RGB" (grayscale img).

Definition _blur (img : image) : image := filter_with "GaussianBlur" [PInt 3] img.
Definition _emboss (img : image) : image := filter_with "EMBOSS" [] img.
Definition _contour (img : image) : image := filter_with "CONTOUR" [] img.
Definition _sharpen (img : image) : image := filter_with "SHARPEN" [] img.
Definition _smooth (img : image) : image := filter_with "SMOOTH_MORE" [] img.

Definition _invert (img : image) : image :=
  if String.eqb (mode img) "RGBA" then
    let rgb := merge "RGB" [band 0 img; band 1 img; band 2 img] in
    let rgb := invert rgb in
    merge "RGBA" [band 0 rgb; band 1 rgb; band 2 rgb; band 3 img]
  else invert (convert "RGB" img).

Definition _posterize (img : image) : image := posterize 3 (convert "RGB" img).
Definition _solarize (img : image) : image := solarize 128 (convert "RGB" img).

Definition _add_vignette (img : image) (strength : float) : image :=
  numpy "vignette" [PFloat strength] "RGB" img.

Definition _vintage (img : image) : image :=
  let img := convert "RGB" img in
  _add_vignette (numpy "sepia_tint_blend_grain" [] "RGB" img) 0.4%float.

Definition _dramatic (img : image) : image :=
  let grey := grayscale img in
  let enhanced := autocontrast 2 grey in
  let enhanced := enhance "Contrast" (PFloat 1.5) enhanced in
  convert "RGB" (numpy "grain" [PInt 8] "L" enhanced).

Definition _warm (img : image) : image := numpy "warm" [] "RGB" (convert "RGB" img).
Definition _cool (img : image) : image := numpy "cool" [] "RGB" (convert "RGB" img).

Definition _FILTER_MAP : list (string * (image -> image)) :=
  [("grayscale", _grayscale); ("sepia", _sepia); ("blur", _blur);
   ("emboss", _emboss); ("contour", _contour); ("sharpen", _sharpen);
   ("smooth", _smooth); ("invert", _invert); ("posterize", _posterize);
   ("solarize", _solarize); ("vintage", _vintage); ("dramatic", _dramatic);
   ("warm", _warm); ("cool", _cool)].

Fixpoint lookup_fn {A} (table : list (string * A)) (key : string) : option A :=
  match table with
  | [] => None
  | (k, f) :: rest => if String.eqb k key then Some f else lookup_fn rest key
  end.

Definition apply_filter (img : image) (name : pyval) : result image :=
  match name with
  | PStr n =>
      if existsb (String.eqb n) VALID_FILTERS then
        match lookup_fn _FILTER_MAP n with
        | Some fn => Ok (fn img)
        | None => library_error ValueError
        end
      else Raise (Exn ValueError (UnknownFilter name))
  | _ => Raise (Exn ValueError (UnknownFilter name))
  end.

(** *** Flip and auto-enhance *)

Definition apply_flip (img : image) (direction : pyval) : result image :=
  match direction with
  | PStr d =>
      if String.eqb d "horizontal" then Ok (mirror img)
      else if String.eqb d "vertical" then Ok (flip img)
      else Raise (Exn ValueError (BadFlip direction))
  | _ => Raise (Exn ValueError (BadFlip direction))
  end.

Definition apply_auto_enhance (img : image) : image :=
  if String.eqb (mode img) "RGBA" then
    let rgb := merge "RGB" [band 0 img; band 1 img; band 2 img] in
    let rgb := autocontrast 1 rgb in
    merge "RGBA" [band 0 rgb; band 1 rgb; band 2 rgb; band 3 img]
  else autocontrast 1 (convert "RGB" img).

(** *** Borders and frames *)

Definition apply_border (img : image) (width : pyval) (color : pyval) : result image :=
  _ <- _clamp width (PInt 1) (PInt 500) "border" ;;
  color <- _parse_color color ;;
  w <- as_int width ;;
  Ok (expand w color img).

(** [max(int(min(w, h) * factor), least)]. *)
Definition margin (w h : Z) (factor : float) (least : Z) : result Z :=
  m <- py_int (PrimFloat.mul (float_of_Z (Z.min w h)) factor) ;;
  Ok (Z.max m least).

Definition apply_frame_polaroid (img : image) : result image :=
  let img := convert "RGB" img in
  let '(w, h) := size img in
  border_side <- margin w h 0.04%float 10 ;;
  let border_bottom := border_side * 3 in
  let cw := w + border_side * 2 + 6 in
  let ch := h + border_side + border_bottom + 6 in
  let canvas := Image_new "RGB" cw ch (PStr "#f0f0f0") in
  let shadow := Image_new "RGB" (w + border_side * 2) (h + border_side + border_bottom)
                  (PStr "#cccccc") in
  let canvas := paste shadow 6 6 canvas in
  let frame := Image_new "RGB" (w + border_side * 2) (h + border_side + border_bottom)
                 (PStr "#fafafa") in
  let canvas := paste frame 0 0 canvas in
  Ok (paste img border_side border_side canvas).

Definition apply_frame_rounded (img : image) : result image :=
  let img := convert "RGBA" img in
  let '(w, h) := size img in
  radius <- margin w h 0.05%float 8 ;;
  let mask := Image_new "L" w h (PInt 0) in
  let mask := rounded_rectangle w h radius 255 mask in
  let img := putalpha mask img in
  let bg := Image_new "RGB" w h (PStr "white") in
  Ok (paste_mask img (band 3 img) bg).

Definition apply_frame_shadow (img : image) : result image :=
  let img := convert "RGB" img in
  let '(w, h) := size img in
  offset <- margin w h 0.02%float 5 ;;
  let padding := offset * 3 in
  let cw := w + padding * 2 in
  let ch := h + padding * 2 in
  let canvas := Image_new "RGB" cw ch (PStr "#f5f5f5") in
  let shadow := Image_new "RGB" w h (PStr "#888888") in
  let canvas := paste shadow (padding + offset) (padding + offset) canvas in
  let canvas := filter_with "GaussianBlur" [PInt offset] canvas in
  Ok (paste img padding padding canvas).

Definition FRAME_MAP : list (string * (image -> result image)) :=
  [("polaroid", apply_frame_polaroid); ("rounded", apply_frame_rounded);
   ("shadow", apply_frame_shadow)].

Definition apply_frame (img : image) (name : pyval) : result image :=
  match name with
  | PStr n =>
      match lookup_fn FRAME_MAP n with
      | Some fn => fn img
      | None => Raise (Exn ValueError (UnknownFrame name))
      end
  | _ => Raise (Exn ValueError (UnknownFrame name))
  end.

(** *** Thumbnail *)

(** The centred square [apply_thumbnail] crops: [(left, top, right, bottom)]. *)
Definition center_square (w h : Z) : Z * Z * Z * Z :=
  let short := Z.min w h in
  let left := (w - short) / 2 in
  let top := (h - short) / 2 in
  (left, top, left + short, top + short).

Definition apply_thumbnail (img : image) (size : pyval) : result image :=
  _ <- _clamp size (PInt 16) (PInt 4096) "thumbnail size" ;;
  let img := convert "RGB" img in
  let '(x0, y0, x1, y1) := center_square (width img) (height img) in
  img <- crop x0 y0 x1 y1 img ;;
  n <- as_int size ;;
  resize n n img.

(** *** Main processor *)

(** [if cond: img = step(img)]. *)
Definition when (cond : bool) (step : image -> result image) (img : image)
  : result image :=
  if cond then step img else Ok img.

Definition supplied (kw : kwargs) (key : string) : bool := negb (is_none (get kw key)).

(** [process_single(input_path, output_path, **kwargs)]: up to the save. *)
Definition edit (kw : kwargs) (img : image) : result image :=
  let img :=
    if String.eqb (mode img) "P"
    then convert (if transparency img then "RGBA" else "RGB") img else img in
  (* 1. Auto-enhance *)
  img <- when (truthy (get kw "auto_enhance")) (fun i => Ok (apply_auto_enhance i)) img ;;
  (* 2. Adjustments *)
  img <- when (supplied kw "brightness") (fun i => apply_brightness i (get kw "brightness")) img ;;
  img <- when (supplied kw "contrast") (fun i => apply_contrast i (get kw "contrast")) img ;;
  img <- when (supplied kw "saturation") (fun i => apply_saturation i (get kw "saturation")) img ;;
  img <- when (supplied kw "sharpness") (fun i => apply_sharpness i (get kw "sharpness")) img ;;
  img <- when (supplied kw "hue") (fun i => apply_hue i (get kw "hue")) img ;;
  (* 3. Filter *)
  img <- when (truthy (get kw "filter_name")) (fun i => apply_filter i (get kw "filter_name")) img ;;
  (* 4. Flip *)
  img <- when (truthy (get kw "flip")) (fun i => apply_flip i (get kw "flip")) img ;;
  (* 5. Border *)
  img <- when (truthy (get kw "border"))
           (fun i => apply_border i (get kw "border")
                       (get_default kw "border_color" (PStr "white"))) img ;;
  (* 6. Frame *)
  img <- when (truthy (get kw "frame")) (fun i => apply_frame i (get kw "frame")) img ;;
  (* 7. Thumbnail (last) *)
  when (truthy (get kw "thumbnail")) (fun i => apply_thumbnail i (get kw "thumbnail")) img.

(** *** The ordering contract, in the specification's words

    The edit pipeline as an ordered list of optional steps, applied by a
    fold: each step has the test that tells whether it was asked for and the
    transform it applies. *)
Definition PIPELINE : list (string * (kwargs -> bool) * (kwargs -> image -> result image)) :=
  [("auto-enhance", fun kw => truthy (get kw "auto_enhance"),
      fun kw i => Ok (apply_auto_enhance i));
   ("brightness", fun kw => supplied kw "brightness",
      fun kw i => apply_brightness i (get kw "brightness"));
   ("contrast", fun kw => supplied kw "contrast",
      fun kw i => apply_contrast i (get kw "contrast"));
   ("saturation", fun kw => supplied kw "saturation",
      fun kw i => apply_saturation i (get kw "saturation"));
   ("sharpness", fun kw => supplied kw "sharpness",
      fun kw i => apply_sharpness i (get kw "sharpness"));
   ("hue", fun kw => supplied kw "hue",
      fun kw i => apply_hue i (get kw "hue"));
   ("filter", fun kw => truthy (get kw "filter_name"),
      fun kw i => apply_filter i (get kw "filter_name"));
   ("flip", fun kw => truthy (get kw "flip"),
      fun kw i => apply_flip i (get kw "flip"));
   ("border", fun kw => truthy (get kw "border"),
      fun kw i => apply_border i (get kw "border")
                    (get_default kw "border_color" (PStr "white")));
   ("frame", fun kw => truthy (get kw "frame"),
      fun kw i => apply_frame i (get kw "frame"));
   ("thumbnail", fun kw => truthy (get kw "thumbnail"),
      fun kw i => apply_thumbnail i (get kw "thumbnail"))].

Fixpoint run_pipeline
    (steps : list (string * (kwargs -> bool) * (kwargs -> image -> result image)))
    (kw : kwargs) (img : image) : result image :=
  match steps with
  | [] => Ok img
  | (_, asked, step) :: rest =>
      img' <- when (asked kw) (step kw) img ;;
      run_pipeline rest kw img'
  end.

(** The palette normalisation that precedes the pipeline. *)
Definition unpalette (img : image) : image :=
  if String.eqb (mode img) "P"
  then convert (if transparency img then "RGBA" else "RGB") img else img.

(** Inside [expand b _ img] the picture [img] of [w] by [h] occupies this
    box; everything outside it is border. *)
Definition original_region (b w h : Z) : Z * Z * Z * Z := (b, b, b + w, b + h).

(** [box] lies within [region]: a crop to [box] shows nothing outside it. *)
Definition box_within (box region : Z * Z * Z * Z) : bool :=
  let '(x0, y0, x1, y1) := box in
  let '(rx0, ry0, rx1, ry1) := region in
  (rx0 <=? x0) && (ry0 <=? y0) && (x1 <=? rx1) && (y1 <=? ry1).

(** [val < lo or val > hi], where the comparison is defined. *)
Definition outside (val lo hi : pyval) : bool :=
  match py_lt val lo with
  | Ok true => true
  | Ok false => match py_lt hi val with Ok true => true | _ => false end
  | Raise _ => false
  end.

Definition process_single (env : Env) (input_path output_path : Path) (kw : kwargs)
  : result saved :=
  img <- Utils.open_image env input_path ;;
  img <- edit kw img ;;
  let img :=
    if String.eqb (mode img) "RGBA"
       && Resize.jpeg_ext (Str.lower (suffix output_path))
    then
      let bg := Image_new "RGB" (width img) (height img) (PStr "white") in
      paste_mask img (band 3 img) bg
    else img in
  save output_path [("quality", PInt 95)] img.

End Editor.

(** ** api/main.py *)

Module Api.

Import Pathlib Py.
Local Open Scope string_scope.
Local Open Scope list_scope.
Local Open Scope Z_scope.
Local Open Scope stateful_scope.

Definition MAX_UPLOAD : Z := 20 * 1024 * 1024.

Definition ALLOWED_MAGIC : list (list byte * string) :=
  [([xff; xd8; xff], "jpg");
   ([x89; x50; x4e; x47], "png");
   (Str.b "GIF8", "gif");
   (Str.b "RIFF", "webp");
   (Str.b "BM", "bmp");
   (Str.b "II", "tiff");
   (Str.b "MM", "tiff")].

(** [data[:len(magic)] == magic]. *)
Definition has_magic (data : list byte) (entry : list byte * string) : bool :=
  Str.bytes_eqb (Str.slice 0 (List.length (fst entry)) data) (fst entry).

(** The leading bytes of [data] are one of the allowed prefixes. *)
Definition allowed_prefix (data : list byte) : bool :=
  existsb (fun entry => Str.starts_with (fst entry) data) ALLOWED_MAGIC.

(** [_validate_upload(data)]. *)
Definition _validate_upload (data : list byte) : result unit :=
  if Z.of_nat (List.length data) >? MAX_UPLOAD
  then Raise (Exn (HTTPException 413) (UploadTooLarge (MAX_UPLOAD / 1024 / 1024)))
  else if existsb (has_magic data) ALLOWED_MAGIC then Ok tt
  else Raise (Exn (HTTPException 415) UploadUnsupported).

(** [_guess_ext(filename)]. *)
Definition _guess_ext (filename : option string) : string :=
  if given filename then
    let ext := Str.lower (suffix (Path_of (default "" filename))) in
    if negb (String.eqb ext "") then ext else ".jpg"
  else ".jpg".

(** A file made by [tempfile.mkstemp(suffix=ext)]: the random part of its
    name is the identifier. *)
Record tmpfile := mkTmp { tmp_id : positive; tmp_ext : string }.

(** [Path(path).suffix] of such a file: its name is [tmp], eight characters
    without a dot, and the suffix it was made with. *)
Definition tmp_suffix (f : tmpfile) : string :=
  suffix_of ("tmpXXXXXXXX" +:+ tmp_ext f).

(** The temporary directory: the content of every file that exists in it. *)
Definition mkstemp (suffix : string) : stateful (gmap positive (list byte)) tmpfile :=
  fun td => let id := fresh (dom td) in (Ok (mkTmp id suffix), <[id := []]> td).

Definition write (f : tmpfile) (data : list byte) : stateful (gmap positive (list byte)) unit :=
  fun td => (Ok tt, <[tmp_id f := data]> td).

(** [path.unlink(missing_ok=True)]. *)
Definition unlink (f : tmpfile) : stateful (gmap positive (list byte)) unit :=
  fun td => (Ok tt, delete (tmp_id f) td).

(** [_save_upload(data, suffix)]. *)
Definition _save_upload (data : list byte) (suffix : string)
  : stateful (gmap positive (list byte)) tmpfile :=
  f <- mkstemp suffix ;;
  _ <- write f data ;;
  ret f.

(** [_output_path(input_path, new_ext)]. *)
Definition _output_path (input_path : tmpfile) (new_ext : option string)
  : stateful (gmap positive (list byte)) tmpfile :=
  let ext :=
    if given new_ext then default "" new_ext
    else if negb (String.eqb (tmp_suffix input_path) "") then tmp_suffix input_path
    else ".png" in
  mkstemp ext.

(** What a handler returns. [background] is the task the framework runs
    once the body is sent; the program passes [None]. *)
Inductive response :=
| FileResponse (path : tmpfile) (filename : string)
    (background : option (stateful (gmap positive (list byte)) unit))
| JSONResponse.

(** [_file_response(path, filename)]. *)
Definition _file_response (path : tmpfile) (filename : string) : response :=
  FileResponse path (filename +:+ tmp_suffix path) None.

(** A processor as the handler sees it: from the staged input to the bytes
    it leaves in the staged output, or an exception. *)
Definition run_processor (process : list byte -> result (list byte))
    (inp out : tmpfile) : stateful (gmap positive (list byte)) unit :=
  fun td =>
    match process (default [] (td !! tmp_id inp)) with
    | Ok bytes => (Ok tt, <[tmp_id out := bytes]> td)
    | Raise e => (Raise e, td)
    end.

(** The body shared by the image endpoints ([api_compress], [api_resize],
    [api_crop], ...): they differ in the processor, the forced extension
    and the download name. *)
Definition image_endpoint (process : list byte -> result (list byte))
    (new_ext : option string) (label : string)
    (filename : option string) (data : list byte)
  : stateful (gmap positive (list byte)) response :=
  _ <- (fun td => (_validate_upload data, td)) ;;
  let ext := _guess_ext filename in
  inp <- _save_upload data ext ;;
  out <- _output_path inp new_ext ;;
  try_finally
    (try_except
       (_ <- run_processor process inp out ;;
        ret (_file_response out label))
       (fun e => _ <- unlink out ;;
                 raise (Exn (HTTPException 500) (str e))))
    (unlink inp).

(** [api_compress(request, file, quality)]. *)
Definition api_compress (compress : list byte -> result (list byte))
    (filename : option string) (data : list byte)
  : stateful (gmap positive (list byte)) response :=
  image_endpoint compress None "compressed" filename data.


(** The framework completes a request: it sends the response (a file
    response streams the file, which must still exist) and then runs the
    response's background task. *)
Definition send (r : response) : stateful (gmap positive (list byte)) unit :=
  match r with
  | FileResponse path _ background =>
      fun td =>
        match td !! tmp_id path with
        | None => (Raise (Exn OSError FromLibrary), td)
        | Some _ =>
            match background with
            | Some task => task td
            | None => (Ok tt, td)
            end
        end
  | JSONResponse => ret tt
  end.

Definition complete_request (handler : stateful (gmap positive (list byte)) response)
  : stateful (gmap positive (list byte)) unit :=
  r <- handler ;; send r.

End Api.

(** * The other tools

    The rest of the toolkit: input resolution, the remaining processors and
    the pure helpers of the text tools. *)

(** ** More of Python's strings and paths *)

Module Text.

Import Pathlib.
Local Open Scope string_scope.
Local Open Scope list_scope.

(** [s.upper()] on ASCII letters. *)
Definition upper_char (c : ascii) : ascii :=
  let n := nat_of_ascii c in
  if ((97 <=? n) && (n <=? 122))%nat then ascii_of_nat (n - 32) else c.

Fixpoint upper (s : string) : string :=
  match s with
  | EmptyString => EmptyString
  | String a s' => String (upper_char a) (upper s')
  end.

(** [s.endswith(t)]. *)
Definition ends_with (t s : string) : bool :=
  (String.length t <=? String.length s)%nat
  && String.eqb (substring (String.length s - String.length t) (String.length t) s) t.

(** The pieces between white-space characters, empty ones included. *)
Fixpoint fields (s : string) : list string :=
  match s with
  | EmptyString => [EmptyString]
  | String c s' =>
      if Str.is_space c then EmptyString :: fields s'
      else match fields s' with
           | w :: ws => String c w :: ws
           | [] => [String c EmptyString]
           end
  end.

(** [s.split()]: the words of [s], runs of white space being one separator. *)
Definition words (s : string) : list string :=
  List.filter (fun w => negb (String.eqb w "")) (fields s).

(** [s.strip()]. *)
Definition strip (s : string) : string := Str.strip_chars Str.is_space s.

(** A text that is not empty and has no white space at either end. *)
Definition trimmed (s : string) : bool :=
  match s, String.rev s with
  | String a _, String b _ => negb (Str.is_space a) && negb (Str.is_space b)
  | _, _ => false
  end.

(** A text without any white space. *)
Definition solid (s : string) : bool :=
  Str.forall_chars (fun c => negb (Str.is_space c)) s.

(** [sep.join(pieces)]. *)
Definition join (sep : string) (pieces : list string) : string :=
  String.concat sep pieces.

(** The value of a hexadecimal digit, and [int(s, 16)] for a string of such
    digits. *)
Definition hex_digit (c : ascii) : Z :=
  let n := Z.of_nat (nat_of_ascii c) in
  if ((48 <=? n) && (n <=? 57))%Z then (n - 48)%Z
  else if ((97 <=? n) && (n <=? 102))%Z then (n - 87)%Z
  else (n - 55)%Z.

Fixpoint int16_from (acc : Z) (s : string) : Z :=
  match s with
  | EmptyString => acc
  | String c s' => int16_from (16 * acc + hex_digit c)%Z s'
  end.

Definition int16 (s : string) : Z := int16_from 0 s.

(** [str(p)]. *)
Definition Path_str (p : Path) : string :=
  match anchored p, parts p with
  | false, [] => "."
  | false, cs => join "/" cs
  | true, cs => "/" +:+ join "/" cs
  end.

(** [p.with_suffix(suffix)]: the last component becomes its stem followed
    by [suffix]; a suffix that is not a dot and a name, and a path without a
    name, are refused. *)
Definition with_suffix (p : Path) (suffix : string) : Py.result Path :=
  if Str.contains "/" suffix then Py.Raise (Py.Exn Py.ValueError Py.FromLibrary)
  else if negb (String.eqb suffix "") && negb (String.prefix "." suffix)
          || String.eqb suffix "."
  then Py.Raise (Py.Exn Py.ValueError Py.FromLibrary)
  else if String.eqb (name p) "" then Py.Raise (Py.Exn Py.ValueError Py.FromLibrary)
  else Py.Ok (mkPath (anchored p) (List.removelast (parts p) ++ [stem p +:+ suffix])).

(** The order of paths, [p < q]: their components are compared in turn, as
    texts, the root counting as a first component ["/"]. *)
Definition sort_key (p : Path) : list string :=
  (if anchored p then ["/"] else []) ++ parts p.

Fixpoint key_leb (k1 k2 : list string) : bool :=
  match k1, k2 with
  | [], _ => true
  | _ :: _, [] => false
  | c1 :: k1', c2 :: k2' =>
      match String.compare c1 c2 with
      | Lt => true
      | Gt => false
      | Eq => key_leb k1' k2'
      end
  end.

Definition path_leb (p q : Path) : bool := key_leb (sort_key p) (sort_key q).

(** [sorted(paths)]. *)
Fixpoint insert_sorted (p : Path) (sorted : list Path) : list Path :=
  match sorted with
  | [] => [p]
  | q :: rest => if path_leb p q then p :: sorted else q :: insert_sorted p rest
  end.

Fixpoint sorted (paths : list Path) : list Path :=
  match paths with
  | [] => []
  | p :: rest => insert_sorted p (sorted rest)
  end.

(** A list of paths in ascending order. *)
Fixpoint ascending (paths : list Path) : bool :=
  match paths with
  | p :: rest =>
      match rest with
      | q :: _ => path_leb p q && ascending rest
      | [] => true
      end
  | [] => true
  end.

(** [round(x)]: to the nearest integer, a tie to the even one. *)
Definition py_round (x : float) : Py.result Z :=
  match Prim2SF x with
  | S754_zero _ => Py.Ok 0%Z
  | S754_finite s m e =>
      let a :=
        if (0 <=? e)%Z then Z.shiftl (Z.pos m) e
        else
          let q := Z.shiftr (Z.pos m) (- e) in
          let r := (Z.pos m - Z.shiftl q (- e))%Z in
          let half := Z.shiftl 1 (- e - 1) in
          if (half <? r)%Z || (half =? r)%Z && Z.odd q then (q + 1)%Z else q in
      Py.Ok (if s then (- a)%Z else a)
  | S754_infinity _ => Py.Raise (Py.Exn Py.OverflowError Py.FromLibrary)
  | S754_nan => Py.Raise (Py.Exn Py.ValueError Py.FromLibrary)
  end.

(** [a / b] on floats. *)
Definition fdiv (a b : float) : Py.result float :=
  if PrimFloat.eqb b 0 then Py.Raise (Py.Exn Py.ZeroDivisionError Py.FromLibrary)
  else Py.Ok (PrimFloat.div a b).

End Text.

(** ** Exceptions with their text *)

Module Tool.

Import Py.

(** What the remaining tools raise: an exception that comes up from
    [open_image], Pillow or the interpreter, or one of their own, given with
    its class and the text of its message. *)
Inductive raised :=
| Inner (e : exn)
| Own (cls : exn_class) (text : string).

Inductive outcome (A : Type) :=
| Done (a : A)
| Failed (r : raised).
Arguments Done {A} a.
Arguments Failed {A} r.

Definition bind {A B} (m : outcome A) (k : A -> outcome B) : outcome B :=
  match m with
  | Done a => k a
  | Failed r => Failed r
  end.

Definition lift {A} (m : result A) : outcome A :=
  match m with
  | Ok a => Done a
  | Raise e => Failed (Inner e)
  end.

End Tool.

Declare Scope outcome_scope.
Delimit Scope outcome_scope with outcome.
Notation "x <- m ;; k" := (Tool.bind m (fun x => k))
  (at level 100, m at next level, right associativity) : outcome_scope.

(** ** gimg/utils.py: the inputs of a command *)

Module Inputs.

Import Pathlib Py Fs Tool.
Local Open Scope string_scope.
Local Open Scope list_scope.

Definition SUPPORTED_READ : list string :=
  [".jpg"; ".jpeg"; ".png"; ".gif"; ".webp"; ".bmp"; ".tiff"; ".tif";
   ".heic"; ".heif"; ".svg"].

(** The entries of the directory [p]: whatever the file system holds
    directly below it, files and directories alike. *)
Definition is_entry (p q : Path) : bool :=
  bool_decide (anchored q = anchored p)
  && negb (bool_decide (parts q = []))
  && bool_decide (List.removelast (parts q) = parts p).

Definition scandir (fs : gmap Path node) (p : Path) : list Path :=
  List.filter (is_entry p) (map fst (map_to_list fs)).

(** [p.glob('*' + ext)]: the entries whose name ends with [ext]; a name that
    begins with a dot is matched like any other, and letter case counts. *)
Definition glob_ext (fs : gmap Path node) (p : Path) (ext : string) : list Path :=
  List.filter (fun q => Text.ends_with ext (name q)) (scandir fs p).

(** [set(files)], as a list without repetition. *)
Definition distinct (paths : list Path) : list Path := remove_dups paths.

(** [resolve_inputs(input_arg)]; [glob_glob] is [glob.glob] on the file
    system at hand. *)
Definition resolve_inputs (glob_glob : string -> list string)
    (fs : gmap Path node) (input_arg : string) : outcome (list Path) :=
  let p := Path_of input_arg in
  if is_file fs p then Done [p]
  else if is_dir fs p then
    let files :=
      flat_map (fun ext => glob_ext fs p ext ++ glob_ext fs p (Text.upper ext))
        SUPPORTED_READ in
    Done (Text.sorted (distinct files))
  else
    match glob_glob input_arg with
    | (_ :: _) as found =>
        Done (Text.sorted
                (List.filter (is_file fs) (map Path_of found)))
    | [] => Failed (Own FileNotFoundError ("No files found matching: " +:+ input_arg))
    end.

End Inputs.

(** ** gimg/crop.py *)

Module Crop.

Import Pathlib Py Tool.
Local Open Scope string_scope.
Local Open Scope list_scope.
Local Open Scope Z_scope.

(** The keyword-only parameters of [process_single]. *)
Record params := mkParams {
  x : Z;
  y : Z;
  width : option Z;
  height : option Z;
  ratio : option string
}.

(** The box of the coordinate branch, clamped to the image bounds. *)
Definition clamped_box (img_w img_h x y width height : Z) : Z * Z * Z * Z :=
  (Z.max 0 x, Z.max 0 y, Z.min img_w (x + width), Z.min img_h (y + height)).

(** The box of the ratio branch, centred, for the two numbers of ["W:H"]. *)
Definition ratio_box (img_w img_h : Z) (rw rh : float) : result (Z * Z * Z * Z) :=
  (target_ratio <- Text.fdiv rw rh ;;
   current_ratio <- truediv img_w img_h ;;
   dims <- (if PrimFloat.ltb target_ratio current_ratio then
              new_w <- py_int (PrimFloat.mul (float_of_Z img_h) target_ratio) ;;
              Ok (new_w, img_h)
            else
              q <- Text.fdiv (float_of_Z img_w) target_ratio ;;
              new_h <- py_int q ;;
              Ok (img_w, new_h)) ;;
   let '(new_w, new_h) := dims in
   let cx := (img_w - new_w) / 2 in
   let cy := (img_h - new_h) / 2 in
   Ok (cx, cy, cx + new_w, cy + new_h))%result.

(** [process_single(input_path, output_path, *, x, y, width, height, ratio)];
    [py_float] is the builtin [float] on text. *)
Definition process_single (py_float : string -> result float) (env : Pil.Env)
    (input_path output_path : Path) (p : params) : outcome Pil.saved :=
  (img <- lift (Utils.open_image env input_path) ;;
   let img_w := Pil.width img in
   let img_h := Pil.height img in
   box <- (if given (ratio p) then
             let r := default "" (ratio p) in
             let pieces := Str.split ":" r in
             if negb (List.length pieces =? 2)%nat then
               Failed (Own ValueError
                 ("Invalid ratio format: " +:+ r +:+ " (expected W:H, e.g. 16:9)"))
             else
               lift (rw <- py_float (nth 0 pieces "") ;;
                     rh <- py_float (nth 1 pieces "") ;;
                     ratio_box img_w img_h rw rh)%result
           else
             match width p, height p with
             | Some w, Some h => Done (clamped_box img_w img_h (x p) (y p) w h)
             | _, _ => Failed (Own ValueError "Specify --width and --height, or --ratio")
             end) ;;
   let '(x0, y0, x1, y1) := box in
   cropped <- lift (Pil.crop x0 y0 x1 y1 img) ;;
   let out_ext := Str.lower (suffix output_path) in
   let cropped :=
     if Resize.jpeg_ext out_ext && Resize.alpha_or_palette (Pil.mode cropped)
     then Pil.convert "RGB" cropped else cropped in
   lift (Pil.save output_path [("optimize", PBool true)] cropped))%outcome.

End Crop.

(** ** gimg/upscale.py *)

Module Upscale.

Import Pathlib Py.
Local Open Scope string_scope.
Local Open Scope list_scope.
Local Open Scope Z_scope.
Local Open Scope result_scope.

(** [if v:] on an optional integer. *)
Definition asked (v : option Z) : bool :=
  match v with
  | Some z => negb (z =? 0)
  | None => false
  end.

(** [round(orig * ratio)]. *)
Definition scale (orig : Z) (ratio : float) : result Z :=
  Text.py_round (PrimFloat.mul (float_of_Z orig) ratio).

(** The size [process_single] resizes to. *)
Definition new_size (orig_w orig_h scale_by : Z) (width height : option Z)
  : result (Z * Z) :=
  if asked width || asked height then
    if asked width && asked height then Ok (default 0 width, default 0 height)
    else if asked width then
      ratio <- truediv (default 0 width) orig_w ;;
      new_h <- scale orig_h ratio ;;
      Ok (default 0 width, new_h)
    else
      ratio <- truediv (default 0 height) orig_h ;;
      new_w <- scale orig_w ratio ;;
      Ok (new_w, default 0 height)
  else Ok (orig_w * scale_by, orig_h * scale_by).

(** [process_single(input_path, output_path, *, scale=2, width, height, sharpen=True)]. *)
Definition process_single (env : Pil.Env) (input_path output_path : Path)
    (scale_by : Z) (width height : option Z) (sharpen : bool) : result Pil.saved :=
  img <- Utils.open_image env input_path ;;
  dims <- new_size (Pil.width img) (Pil.height img) scale_by width height ;;
  img <- Pil.resize (fst dims) (snd dims) img ;;
  let img :=
    if sharpen
    then Pil.filter_with "UnsharpMask" [PFloat 1.5; PInt 50; PInt 3] img
    else img in
  Pil.save output_path [] img.

End Upscale.

(** ** gimg/convert.py *)

Module Convert.

Import Pathlib Py Tool.
Local Open Scope string_scope.
Local Open Scope list_scope.
Local Open Scope Z_scope.

Definition FORMAT_MAP : list (string * string) :=
  [("jpg", ".jpg"); ("jpeg", ".jpeg"); ("png", ".png"); ("gif", ".gif");
   ("webp", ".webp"); ("bmp", ".bmp"); ("tiff", ".tiff"); ("tif", ".tif")].

(** [process_single(input_path, output_path, *, to_format)]: the encoder
    follows the suffix of the output path. *)
Definition process_single (env : Pil.Env) (input_path output_path : Path)
    (to_format : option string) : outcome Pil.saved :=
  (img <- lift (Utils.open_image env input_path) ;;
   let out_ext := Str.lower (suffix output_path) in
   if Resize.jpeg_ext out_ext then
     let img := if Resize.alpha_or_palette (Pil.mode img)
                then Pil.convert "RGB" img else img in
     lift (Pil.save output_path
             [("format", PStr "JPEG"); ("quality", PInt 95); ("optimize", PBool true)] img)
   else if String.eqb out_ext ".png" then
     lift (Pil.save output_path [("format", PStr "PNG"); ("optimize", PBool true)] img)
   else if String.eqb out_ext ".webp" then
     lift (Pil.save output_path
             [("format", PStr "WEBP"); ("quality", PInt 90); ("method", PInt 4)] img)
   else if String.eqb out_ext ".gif" then
     lift (Pil.save output_path [("format", PStr "GIF")] img)
   else if String.eqb out_ext ".bmp" then
     let img := if String.eqb (Pil.mode img) "RGBA"
                then Pil.convert "RGB" img else img in
     lift (Pil.save output_path [("format", PStr "BMP")] img)
   else if String.eqb out_ext ".tiff" || String.eqb out_ext ".tif" then
     lift (Pil.save output_path [("format", PStr "TIFF")] img)
   else Failed (Own ValueError ("Unsupported output format: " +:+ out_ext)))%outcome.

End Convert.

(** ** gimg/remove_bg.py *)

Module RemoveBg.

Import Pathlib Py Tool.
Local Open Scope string_scope.
Local Open Scope list_scope.
Local Open Scope Z_scope.

(** [kwargs[key] = v]: an existing key keeps its place. *)
Fixpoint set_item (kw : kwargs) (key : string) (v : pyval) : kwargs :=
  match kw with
  | [] => [(key, v)]
  | (k, old) :: rest =>
      if String.eqb k key then (k, v) :: rest else (k, old) :: set_item rest key v
  end.

(** [process_single(input_path, output_path, *, model, alpha_matting)].
    [has_rembg] tells whether the package can be imported and
    [new_session] whether a session for the model can be made (the session
    is written as the name of its model). *)
Definition process_single (has_rembg : bool) (new_session : string -> bool)
    (env : Pil.Env) (input_path output_path : Path)
    (model : string) (alpha_matting : bool) : outcome Pil.saved :=
  (if negb has_rembg
   then Failed (Own ImportError "rembg is required: pip install rembg")
   else
     img <- lift (Utils.open_image env input_path) ;;
     let kwargs := [("session", PNone)] in
     let kwargs :=
       if alpha_matting
       then set_item
              (set_item
                 (set_item kwargs "alpha_matting" (PBool true))
                 "alpha_matting_foreground_threshold" (PInt 240))
              "alpha_matting_background_threshold" (PInt 10)
       else kwargs in
     let kwargs :=
       if new_session model then set_item kwargs "session" (PStr model) else kwargs in
     let result :=
       Pil.lib "rembg.remove" (flat_map (fun kv => [PStr (fst kv); snd kv]) kwargs)
         "RGBA" img in
     let out := Path_of (Text.Path_str output_path) in
     out <- (if negb (String.eqb (Str.lower (suffix out)) ".png")
             then lift (Text.with_suffix out ".png") else Done out) ;;
     lift (Pil.save out [] result))%outcome.

End RemoveBg.

(** ** gimg/watermark.py: the helpers *)

Module Watermark.

Import Py Tool.
Local Open Scope string_scope.
Local Open Scope list_scope.
Local Open Scope Z_scope.

Definition MAX_TEXT_LEN : nat := 500.

Definition COLOR_MAP : list (string * (Z * Z * Z)) :=
  [("white", (255, 255, 255)); ("black", (0, 0, 0)); ("red", (255, 0, 0));
   ("green", (0, 128, 0)); ("blue", (0, 0, 255)); ("yellow", (255, 255, 0));
   ("gray", (128, 128, 128)); ("grey", (128, 128, 128))].

(** A text is the list of its code points. The class
    [[\x00-\x1f\x7f-\x9f]] of the pattern: *)
Definition is_control (c : N) : bool :=
  ((c <=? 31) || (127 <=? c) && (c <=? 159))%N.

(** [_sanitize_text(text)]: the control characters are removed, then the
    text is cut to [MAX_TEXT_LEN]. *)
Definition _sanitize_text (text : list N) : list N :=
  firstn MAX_TEXT_LEN (List.filter (fun c => negb (is_control c)) text).

(** [_parse_color(color_str)]. *)
Definition _parse_color (color_str : string) : outcome (Z * Z * Z) :=
  let c := Str.lower (Text.strip color_str) in
  match Editor.lookup_fn COLOR_MAP c with
  | Some rgb => Done rgb
  | None =>
      let c := Str.lstrip_chars (Ascii.eqb "#") (Text.strip color_str) in
      if (String.length c =? 6)%nat && Str.forall_chars Str.is_hex_digit c
      then Done (Text.int16 (substring 0 2 c), Text.int16 (substring 2 2 c),
                 Text.int16 (substring 4 2 c))
      else Failed (Own ValueError
             ("Unknown color: " +:+ color_str
              +:+ ". Use a name (white, red, ...) or hex (#FF0000)"))
  end.

(** [_calc_position(pos, img_w, img_h, wm_w, wm_h, margin=10)]: an unknown
    position is the bottom right one. *)
Definition positions (img_w img_h wm_w wm_h margin : Z) : list (string * (Z * Z)) :=
  [("center", ((img_w - wm_w) / 2, (img_h - wm_h) / 2));
   ("top-left", (margin, margin));
   ("top-right", (img_w - wm_w - margin, margin));
   ("bottom-left", (margin, img_h - wm_h - margin));
   ("bottom-right", (img_w - wm_w - margin, img_h - wm_h - margin))].

Definition _calc_position (pos : string) (img_w img_h wm_w wm_h margin : Z) : Z * Z :=
  let table := positions img_w img_h wm_w wm_h margin in
  match Editor.lookup_fn table pos with
  | Some xy => xy
  | None => default (0, 0) (Editor.lookup_fn table "bottom-right")
  end.

End Watermark.

(** ** gimg/meme.py: the helpers *)

Module Meme.

Local Open Scope string_scope.
Local Open Scope list_scope.
Local Open Scope Z_scope.

Definition MAX_TEXT_LEN : nat := 200.

(** [_sanitize_text(text)]. *)
Definition _sanitize_text (text : list N) : list N :=
  firstn MAX_TEXT_LEN (List.filter (fun c => negb (Watermark.is_control c)) text).

(** The loop of [_wrap_text]: [lines] are the finished lines, [current] is
    the line being filled. [measure] is the width of a text in the font,
    [bbox[2] - bbox[0]] of [draw.textbbox]. *)
Fixpoint wrap_loop (measure : string -> Z) (max_width : Z) (todo : list string)
    (lines : list string) (current : string) : list string * string :=
  match todo with
  | [] => (lines, current)
  | word :: rest =>
      let test := Text.strip (current +:+ " " +:+ word) in
      if measure test <=? max_width
      then wrap_loop measure max_width rest lines test
      else
        let lines := if negb (String.eqb current "") then lines ++ [current] else lines in
        wrap_loop measure max_width rest lines word
  end.

(** [_wrap_text(text, font, max_width, draw)]. *)
Definition _wrap_text (measure : string -> Z) (max_width : Z) (text : string)
  : list string :=
  let '(lines, current) := wrap_loop measure max_width (Text.words text) [] "" in
  let lines := if negb (String.eqb current "") then lines ++ [current] else lines in
  match lines with
  | [] => [text]
  | _ :: _ => lines
  end.

End Meme.

(** ** gimg/blur_face.py: the kernel size *)

Module BlurFace.

Local Open Scope Z_scope.

(** [_ensure_odd(n)]. *)
Definition _ensure_odd (n : Z) : Z :=
  if n mod 2 =? 1 then n else n + 1.

(** [ksize] in [process_single]. *)
Definition ksize (strength : Z) : Z := _ensure_odd (Z.max 3 strength).

End BlurFace.

(** ** gimg/cli.py and api/main.py: what the adapters pass on *)

Module Adapters.

Import Pathlib Py.
Local Open Scope string_scope.
Local Open Scope list_scope.
Local Open Scope Z_scope.

(** The arguments of [gimg edit] as the parser leaves them: an option that
    was not given is [None], [auto_enhance] is a boolean and
    [border_color] has the default ['white']. *)
Record edit_args := mkEditArgs {
  brightness : pyval;
  contrast : pyval;
  saturation : pyval;
  sharpness : pyval;
  hue : pyval;
  filter : pyval;
  flip : pyval;
  auto_enhance : pyval;
  border : pyval;
  border_color : pyval;
  frame : pyval;
  thumbnail : pyval
}.

(** [has_edit] in [cmd_edit]: without it the command stops with status 1. *)
Definition has_edit (args : edit_args) : bool :=
  existsb (fun b : bool => b)
    [negb (is_none (brightness args)); negb (is_none (contrast args));
     negb (is_none (saturation args)); negb (is_none (sharpness args));
     negb (is_none (hue args)); truthy (filter args); truthy (flip args);
     truthy (auto_enhance args); truthy (border args); truthy (frame args);
     truthy (thumbnail args)].

(** [kwargs] in [cmd_edit]. *)
Definition cmd_edit_kwargs (args : edit_args) : kwargs :=
  [("brightness", brightness args); ("contrast", contrast args);
   ("saturation", saturation args); ("sharpness", sharpness args);
   ("hue", hue args); ("filter_name", filter args); ("flip", flip args);
   ("auto_enhance", auto_enhance args); ("border", border args);
   ("border_color", border_color args); ("frame", frame args);
   ("thumbnail", thumbnail args)].

(** [if v is not None: kwargs[key] = v]. *)
Definition unless_none (key : string) (v : pyval) : kwargs :=
  if is_none v then [] else [(key, v)].

(** [kwargs] in [api_edit]: the form has no hue field, and only the fields
    that were sent are passed on. *)
Definition api_edit_kwargs (brightness contrast saturation sharpness filter border
    border_color frame flip : pyval) (auto_enhance : bool) (thumbnail : pyval) : kwargs :=
  unless_none "brightness" brightness ++ unless_none "contrast" contrast
  ++ unless_none "saturation" saturation ++ unless_none "sharpness" sharpness
  ++ unless_none "filter_name" filter ++ unless_none "border" border
  ++ unless_none "border_color" border_color ++ unless_none "frame" frame
  ++ unless_none "flip" flip
  ++ (if auto_enhance then [("auto_enhance", PBool true)] else [])
  ++ unless_none "thumbnail" thumbnail.

(** [to_fmt] and [ext] in [cmd_convert]: [None] is the exit with status 1
    on an unsupported format. *)
Definition cmd_convert_ext (to : string) : option string :=
  Editor.lookup_fn Convert.FORMAT_MAP (Str.lower to).

End Adapters.

(** * Properties *)

(** ** Byte strings *)

Section Bytes.

Import Str.

Lemma bytes_eqb_firstn (sig data : list byte) :
  bytes_eqb (firstn (List.length sig) data) sig = starts_with sig data.
Proof.
  revert data; induction sig as [|c sig IH]; intros [|d data]; simpl; try reflexivity.
  now rewrite IH.
Qed.

(** [data[off:off+len(sig)] == sig] says that [sig] stands at offset [off]. *)
Lemma slice_magic (off n : nat) (sig data : list byte) :
  n = (off + List.length sig)%nat ->
  bytes_eqb (slice off n data) sig = starts_with sig (skipn off data).
Proof.
  intros ->. unfold slice.
  replace (off + List.length sig - off)%nat with (List.length sig) by lia.
  apply bytes_eqb_firstn.
Qed.

Lemma starts_with_length (sig data : list byte) :
  starts_with sig data = true -> (List.length sig <= List.length data)%nat.
Proof.
  revert data; induction sig as [|c sig IH]; intros [|d data]; simpl; try lia; try discriminate.
  intros H. apply andb_true_iff in H as [_ H]. apply IH in H. lia.
Qed.

Lemma bytes_eqb_eq (x y : list byte) : bytes_eqb x y = true <-> x = y.
Proof.
  revert y; induction x as [|c x IH]; intros [|d y]; simpl; split; try easy.
  - intros H. apply andb_true_iff in H as [Hc Hx].
    apply Byte.byte_dec_bl in Hc. apply IH in Hx. now subst.
  - intros [= -> ->]. apply andb_true_iff. split.
    + now apply Byte.byte_dec_lb.
    + now apply IH.
Qed.

Lemma lstrip_no_space (c : byte) (data : list byte) :
  is_space_byte c = false -> lstrip (c :: data) = c :: data.
Proof. intros H. simpl. now rewrite H. Qed.

End Bytes.

(** ** The format sniffer *)

Section Sniffer.

Import Pathlib Py Fs Utils.

(** The ftyp test's length guard is implied by a brand standing at offset 8. *)
Lemma brand_needs_12 (header : list byte) :
  existsb (fun sig => Str.starts_with sig (skipn 8 header)) HEIC_BRANDS = true ->
  (12 <=? List.length header)%nat = true.
Proof.
  intros H. apply existsb_exists in H as (sig & Hin & Hs).
  apply starts_with_length in Hs. rewrite length_skipn in Hs.
  assert (List.length sig = 4%nat) as Hl.
  { unfold HEIC_BRANDS in Hin. simpl in Hin.
    repeat (destruct Hin as [<- | Hin]; [reflexivity|]). destruct Hin. }
  apply Nat.leb_le. lia.
Qed.

(** The if-chain of [detect_format] is the first match in [CODE_SIGNATURES]. *)
Lemma classify_header_table (header : list byte) :
  classify_header header = classify CODE_SIGNATURES header.
Proof.
  unfold classify_header, CODE_SIGNATURES, BINARY_SIGNATURES, SVG_MARKERS.
  pose proof (brand_needs_12 header) as Hlen.
  unfold HEIC_BRANDS in *.
  cbn [app classify matches existsb] in *.
  rewrite (slice_magic 0 3), (slice_magic 0 8 PNG_SIGNATURE), !(slice_magic 0 6),
    !(slice_magic 0 4), !(slice_magic 8 12), (slice_magic 0 2), (slice_magic 4 8),
    (slice_magic 0 5) by reflexivity.
  rewrite !orb_false_r in *.
  match type of Hlen with
  | ?brand = true -> _ =>
      destruct brand; [rewrite Hlen by reflexivity | rewrite !andb_false_r]; reflexivity
  end.
Qed.

(** What a table answers: nothing when no signature matches, else the
    format of the first one that does. *)
Lemma classify_none (table : list (signature * format)) (header : list byte) :
  classify table header = None <->
  Forall (fun entry => matches (fst entry) header = false) table.
Proof.
  induction table as [|[s f] table IH]; simpl.
  - split; [constructor | reflexivity].
  - destruct (matches s header) eqn:Hs.
    + split; [discriminate | intros H; inversion H; subst; simpl in *; congruence].
    + rewrite IH. split; [now constructor | intros H; now inversion H].
Qed.

Lemma classify_some (table : list (signature * format)) (header : list byte)
    (f : format) :
  classify table header = Some f <->
  exists before s after,
    table = before ++ (s, f) :: after
    /\ Forall (fun entry => matches (fst entry) header = false) before
    /\ matches s header = true.
Proof.
  induction table as [|[s0 f0] table IH]; simpl.
  - split; [discriminate | intros (before & s & after & H & _); now destruct before].
  - destruct (matches s0 header) eqn:Hs0.
    + split.
      * intros [= ->]. exists [], s0, table. repeat split; [constructor | exact Hs0].
      * intros (before & s & after & Ht & Hb & Hs).
        destruct before as [|e before]; simpl in Ht; injection Ht as ? ?; subst.
        -- reflexivity.
        -- inversion Hb; subst; simpl in *; congruence.
    + rewrite IH. split.
      * intros (before & s & after & -> & Hb & Hs).
        exists ((s0, f0) :: before), s, after. repeat split; [now constructor | exact Hs].
      * intros (before & s & after & Ht & Hb & Hs).
        destruct before as [|e before]; simpl in Ht; injection Ht as ? ?; subst.
        -- congruence.
        -- inversion Hb; subst. eauto 6.
Qed.

(** Where the header does not begin with white space, the code's table and
    the specification's agree. *)
Lemma classify_tables_agree (header : list byte) :
  Str.lstrip header = header ->
  classify CODE_SIGNATURES header = classify SPEC_SIGNATURES header.
Proof.
  intros H. unfold CODE_SIGNATURES, SPEC_SIGNATURES.
  induction BINARY_SIGNATURES as [|[s f] table IH]; cbn [app classify matches].
  - now rewrite H.
  - now rewrite IH.
Qed.

(** C3, as stated, fails: a header that begins with a blank and then [<svg]
    has none of the listed signatures at its start (the specification's
    table gives no format), yet [detect_format] answers SVG. *)
Lemma detect_format_svg_after_blank :
  classify SPEC_SIGNATURES (Str.b " <svg xmlns") = None
  /\ detect_format {[ Path_of "drawing.svg" := File true (Str.b " <svg xmlns") ]}
       (Path_of "drawing.svg") = Some SVG.
Proof. split; vm_compute; reflexivity. Qed.

(** C3 (amended): [detect_format] never raises (it is a total function into
    [option format], an unreadable file giving [None]); on the first 32
    bytes of a readable file it answers the format of the first signature
    that matches, in the order JPEG marker, PNG signature, GIF87a/GIF89a,
    RIFF with WEBP at offset 8, BM, the two TIFF byte orders, an ftyp box
    with a HEIC/AVIF brand, then [<?xml] or [<svg] standing after any
    leading ASCII white space; no match is [None] (Unknown). *)
Theorem detect_format_priority (fs : gmap Path node) (path : Path) :
  detect_format fs path =
    match read fs path 32 with
    | Some header => classify CODE_SIGNATURES header
    | None => None
    end
  /\ (forall header, read fs path 32 = Some header ->
      (detect_format fs path = None <->
         Forall (fun entry => matches (fst entry) header = false) CODE_SIGNATURES)
      /\ (forall f, detect_format fs path = Some f <->
           exists before s after,
             CODE_SIGNATURES = before ++ (s, f) :: after
             /\ Forall (fun entry => matches (fst entry) header = false) before
             /\ matches s header = true)).
Proof.
  assert (detect_format fs path =
          match read fs path 32 with
          | Some header => classify CODE_SIGNATURES header
          | None => None
          end) as Heq.
  { unfold detect_format.
    destruct (read fs path 32) as [header|]; [|reflexivity].
    apply classify_header_table. }
  split; [exact Heq|].
  intros header Hread. rewrite Heq, Hread. split.
  - apply classify_none.
  - intros f. apply classify_some.
Qed.

(** A PNG header is PNG because the PNG signature is the first to match. *)
Lemma detect_format_priority_witness :
  let fs : gmap Path node := {[ Path_of "p.png" := File true PNG_SIGNATURE ]} in
  detect_format fs (Path_of "p.png") = Some PNG.
Proof.
  intros fs.
  destruct (detect_format_priority fs (Path_of "p.png")) as [_ H].
  destruct (H PNG_SIGNATURE eq_refl) as [_ Hsome].
  apply Hsome.
  exists [(Magic 0 [xff; xd8; xff], JPEG)], (Magic 0 PNG_SIGNATURE),
    (skipn 2 CODE_SIGNATURES).
  repeat split. repeat constructor.
Defined.

End Sniffer.

(** ** Strings and paths *)

Section StringFacts.

Import Str.
Local Open Scope string_scope.
Local Arguments String.append !_ _ / : simpl nomatch.

Lemma append_empty_r (s : string) : s +:+ "" = s.
Proof. induction s as [|c s IH]; simpl; [reflexivity | now rewrite IH]. Qed.

Lemma append_cancel_l (a x y : string) : a +:+ x = a +:+ y -> x = y.
Proof. induction a as [|c a IH]; simpl; [easy | intros [= H]; auto]. Qed.

Lemma contains_append (c : ascii) (x y : string) :
  contains c (x +:+ y) = contains c x || contains c y.
Proof.
  induction x as [|a x IH]; simpl; [reflexivity|].
  now rewrite IH, orb_assoc.
Qed.

Lemma contains_substring (c : ascii) (s : string) (i n : nat) :
  contains c s = false -> contains c (substring i n s) = false.
Proof.
  revert i n; induction s as [|a s IH]; intros i n H.
  - destruct i, n; reflexivity.
  - simpl in H. apply orb_false_iff in H as [Ha Hs].
    destruct i as [|i]; destruct n as [|n]; simpl; auto.
    rewrite Ha. simpl. apply IH, Hs.
Qed.

Lemma split_no_sep (sep : ascii) (s : string) :
  contains sep s = false -> split sep s = [s].
Proof.
  induction s as [|a s IH]; simpl; [reflexivity|].
  intros H. apply orb_false_iff in H as [Ha Hs].
  rewrite Ha, (IH Hs). reflexivity.
Qed.

(** No piece of a split contains the separator. *)
Lemma split_pieces (sep : ascii) (s : string) :
  Forall (fun piece => contains sep piece = false) (split sep s).
Proof.
  induction s as [|a s IH]; simpl.
  - repeat constructor.
  - destruct (Ascii.eqb a sep) eqn:Ea.
    + constructor; [reflexivity | exact IH].
    + destruct (split sep s) as [|w ws]; [repeat constructor; simpl; now rewrite Ea|].
      inversion IH as [|? ? Hw Hws]; subst.
      constructor; [simpl; now rewrite Ea, Hw | exact Hws].
Qed.

Lemma prefix_no_sep (c : ascii) (s : string) :
  contains c s = false -> String.prefix (String c "") s = false.
Proof.
  destruct s as [|a s]; simpl; [reflexivity|].
  intros H. apply orb_false_iff in H as [Ha _].
  destruct (ascii_dec c a) as [->|Hne]; [|reflexivity].
  now rewrite Ascii.eqb_refl in Ha.
Qed.

Lemma substring_split (s : string) (i : nat) :
  (i <= String.length s)%nat ->
  substring 0 i s +:+ substring i (String.length s - i) s = s.
Proof.
  revert i; induction s as [|a s IH]; intros i Hi.
  - destruct i; simpl in *; [reflexivity | lia].
  - destruct i as [|i]; simpl.
    + f_equal. clear. induction s as [|b s IH]; simpl; [reflexivity | now f_equal].
    + f_equal. apply IH. simpl in Hi. lia.
Qed.

Lemma rfind_bound (c : ascii) (s : string) (i : nat) :
  rfind c s = Some i -> (i < String.length s)%nat.
Proof.
  revert i; induction s as [|a s IH]; simpl; intros i; [discriminate|].
  destruct (rfind c s) as [j|].
  - intros [= <-]. specialize (IH j eq_refl). lia.
  - destruct (Ascii.eqb a c); [intros [= <-]; lia | discriminate].
Qed.

(** The text from the position [rfind] returns begins with the character. *)
Lemma rfind_substring (c : ascii) (s : string) (i n : nat) :
  rfind c s = Some i -> exists t, substring i (S n) s = String c t.
Proof.
  revert i; induction s as [|a s IH]; simpl; intros i; [discriminate|].
  destruct (rfind c s) as [j|] eqn:E.
  - intros [= <-]. simpl. apply (IH j eq_refl).
  - destruct (Ascii.eqb a c) eqn:Ea; [|discriminate].
    intros [= <-]. apply Ascii.eqb_eq in Ea as ->. simpl. eauto.
Qed.

End StringFacts.

Section PathFacts.

Import Str Pathlib.
Local Open Scope string_scope.

Lemma stem_suffix (nm : string) : stem_of nm +:+ suffix_of nm = nm.
Proof.
  unfold stem_of, suffix_of.
  destruct (rfind "." nm) as [i|] eqn:E; [|apply append_empty_r].
  destruct ((0 <? i)%nat && (i <? String.length nm - 1)%nat); [|apply append_empty_r].
  apply substring_split. apply rfind_bound in E. lia.
Qed.

(** A suffix is empty or begins with the dot. *)
Lemma suffix_dot (nm : string) :
  suffix_of nm = "" \/ exists t, suffix_of nm = String "." t.
Proof.
  unfold suffix_of.
  destruct (rfind "." nm) as [i|] eqn:E; [|now left].
  destruct ((0 <? i)%nat && (i <? String.length nm - 1)%nat); [|now left].
  right. pose proof (rfind_bound _ _ _ E) as Hi.
  replace (String.length nm - i)%nat with (S (String.length nm - i - 1)) by lia.
  eapply rfind_substring, E.
Qed.

Lemma stem_no_sep (nm : string) :
  contains "/" nm = false -> contains "/" (stem_of nm) = false.
Proof.
  intros H. unfold stem_of.
  destruct (rfind "." nm) as [i|]; [|exact H].
  destruct ((0 <? i)%nat && (i <? String.length nm - 1)%nat); [|exact H].
  now apply contains_substring.
Qed.

Lemma suffix_no_sep (nm : string) :
  contains "/" nm = false -> contains "/" (suffix_of nm) = false.
Proof.
  intros H. unfold suffix_of.
  destruct (rfind "." nm) as [i|]; [|reflexivity].
  destruct ((0 <? i)%nat && (i <? String.length nm - 1)%nat); [|reflexivity].
  now apply contains_substring.
Qed.

(** The last component of a well-formed path has no separator. *)
Lemma name_no_sep (p : Path) : wf p -> contains "/" (name p) = false.
Proof.
  unfold wf, name. intros H.
  induction (parts p) as [|c cs IH]; [reflexivity|].
  inversion H as [|? ? Hc Hcs]; subst.
  destruct cs as [|d cs]; [apply Hc | apply IH, Hcs].
Qed.

(** Every path parsed from text is well formed, and so are its parents. *)
Lemma Path_of_wf (s : string) : wf (Path_of s).
Proof.
  unfold wf, Path_of. cbn [parts].
  pose proof (split_pieces "/" s) as H.
  induction H as [|piece pieces Hp _ IH]; [constructor|].
  cbn [List.filter]. destruct (keep_part piece) eqn:Hk; [|exact IH].
  constructor; [|exact IH].
  unfold keep_part in Hk. apply andb_true_iff in Hk as [He Hd].
  repeat split; [exact Hp | |].
  - intros ->. discriminate.
  - intros ->. discriminate.
Qed.

Lemma parent_wf (p : Path) : wf p -> wf (parent p).
Proof.
  unfold wf, parent. cbn [parts]. intros H.
  induction H as [|c cs Hc Hcs IH]; [constructor|].
  destruct cs as [|d cs]; [constructor|].
  cbn [List.removelast] in *. constructor; [exact Hc | exact IH].
Qed.

(** A file name without separator is one component. *)
Lemma Path_of_fragment (s : string) :
  contains "/" s = false -> s <> "" -> s <> "." ->
  Path_of s = mkPath false [s].
Proof.
  intros Hs He Hd. unfold Path_of.
  rewrite (prefix_no_sep "/" s Hs), (split_no_sep "/" s Hs). simpl.
  unfold keep_part.
  destruct (String.eqb_spec s ""); [contradiction|].
  destruct (String.eqb_spec s "."); [contradiction|].
  reflexivity.
Qed.

Lemma joinpath_fragment (p : Path) (s : string) :
  contains "/" s = false -> s <> "" -> s <> "." ->
  joinpath p s = mkPath (anchored p) (parts p ++ [s]).
Proof.
  intros Hs He Hd. unfold joinpath. now rewrite Path_of_fragment.
Qed.

Lemma name_joinpath_fragment (p : Path) (s : string) :
  contains "/" s = false -> s <> "" -> s <> "." ->
  name (joinpath p s) = s.
Proof.
  intros Hs He Hd. rewrite joinpath_fragment by assumption.
  unfold name. simpl. apply last_last.
Qed.

End PathFacts.

(** ** The output path resolver *)

Section Resolver.

Import Str Pathlib Py Fs Utils.
Local Open Scope string_scope.
Local Open Scope list_scope.
Local Arguments String.append !_ _ / : simpl nomatch.

Lemma default_output_synthesized (inp : Path) (suf : string) (ext : option string) :
  default_output inp suf ext = joinpath (parent inp) (synthesized_name inp suf ext).
Proof. reflexivity. Qed.

Lemma dotted_fragment (e : string) : fragment e -> fragment (dotted e).
Proof.
  unfold fragment, dotted. intros H.
  destruct (String.prefix "." e); [exact H|].
  now rewrite contains_append, H.
Qed.

(** The synthesized name is one path component. *)
Lemma synthesized_name_component (inp : Path) (suf : string) (ext : option string) :
  wf inp -> fragment suf -> fragment (default "" ext) ->
  contains "/" (synthesized_name inp suf ext) = false
  /\ synthesized_name inp suf ext <> ""
  /\ synthesized_name inp suf ext <> ".".
Proof.
  intros Hwf Hsuf Hext. unfold synthesized_name.
  assert (contains "_" (stem inp +:+ "_" +:+ suf
            +:+ dotted (if given ext then default "" ext else suffix inp)) = true) as Hu.
  { rewrite !contains_append. simpl. apply orb_true_r. }
  split; [|split].
  - rewrite !contains_append.
    unfold stem. rewrite (stem_no_sep _ (name_no_sep _ Hwf)), Hsuf. simpl.
    apply dotted_fragment. unfold fragment.
    destruct (given ext); [exact Hext|].
    apply suffix_no_sep, name_no_sep, Hwf.
  - intros E. rewrite E in Hu. discriminate.
  - intros E. rewrite E in Hu. discriminate.
Qed.

(** No input is named as its own synthesized output. *)
Lemma name_not_synthesized (inp : Path) (suf : string) (ext : option string) :
  name inp <> synthesized_name inp suf ext.
Proof.
  unfold synthesized_name, stem. intros E.
  rewrite <- (stem_suffix (name inp)) in E at 1.
  apply append_cancel_l in E. simpl in E.
  destruct (suffix_dot (name inp)) as [H | [t H]]; rewrite H in E; discriminate.
Qed.

Lemma last_component (p : Path) (cs : list string) (c : string) :
  parts p = cs ++ [c] -> name p = c.
Proof. unfold name. intros ->. apply last_last. Qed.

(** C8, as stated, fails: an explicit output file is returned as given, so
    naming the input itself resolves to the input although no overwrite
    permission was granted. *)
Lemma resolve_output_explicit_input :
  resolve_output {[ Path_of "photo.jpg" := File true [xff; xd8; xff; xe0] ]}
    (Path_of "photo.jpg") (Some "photo.jpg") "compressed" None false
  = Ok (Path_of "photo.jpg").
Proof. vm_compute. reflexivity. Qed.

(** C8 (amended): when the output argument is absent or names an existing
    directory (suffix and extension being file-name fragments, the input a
    parsed path), the resolved output path is never the input path, with or
    without overwrite permission. An explicit output file path is returned
    verbatim and is outside this guarantee. *)
Theorem resolve_output_never_input (fs : gmap Path node) (inp : Path)
    (oarg : option string) (suf : string) (ext : option string) (ow : bool) (out : Path) :
  wf inp -> fragment suf -> fragment (default "" ext) ->
  given oarg = false \/ is_dir fs (Path_of (default "" oarg)) = true ->
  resolve_output fs inp oarg suf ext ow = Ok out ->
  out <> inp.
Proof.
  intros Hwf Hsuf Hext Hcase Hres Heq. subst out.
  destruct (synthesized_name_component inp suf ext Hwf Hsuf Hext) as (Hc & He & Hd).
  apply (name_not_synthesized inp suf ext).
  unfold resolve_output in Hres. rewrite default_output_synthesized in Hres.
  destruct (given oarg).
  - destruct Hcase as [Hcase | Hcase]; [discriminate|]. rewrite Hcase in Hres.
    rewrite name_joinpath_fragment in Hres by assumption.
    rewrite joinpath_fragment in Hres by assumption.
    injection Hres as Hres. apply (f_equal parts) in Hres. simpl in Hres.
    eapply last_component. symmetry. exact Hres.
  - destruct (bool_decide _ && negb ow); [discriminate|].
    rewrite joinpath_fragment in Hres by assumption.
    injection Hres as Hres. apply (f_equal parts) in Hres. simpl in Hres.
    eapply last_component. symmetry. exact Hres.
Qed.

Lemma resolve_output_never_input_witness :
  resolve_output {[ Path_of "out" := Dir ]} (Path_of "a/photo.jpg") (Some "out")
    "resized" None false = Ok (Path_of "out/photo_resized.jpg")
  /\ Path_of "out/photo_resized.jpg" <> Path_of "a/photo.jpg".
Proof.
  split; [vm_compute; reflexivity|].
  apply (resolve_output_never_input {[ Path_of "out" := Dir ]} (Path_of "a/photo.jpg")
           (Some "out") "resized" None false).
  - repeat constructor; discriminate.
  - reflexivity.
  - reflexivity.
  - right. vm_compute. reflexivity.
  - vm_compute. reflexivity.
Defined.

(** The overwrite guard is the only way resolution fails. *)
Lemma resolve_output_absent (fs : gmap Path node) (inp : Path) (oarg : option string)
    (suf : string) (ext : option string) (ow : bool) :
  given oarg = false ->
  resolve_output fs inp oarg suf ext ow =
    if bool_decide (default_output inp suf ext = inp) && negb ow
    then Raise (Exn ValueError WouldOverwrite)
    else Ok (default_output inp suf ext).
Proof. intros Hg. unfold resolve_output. now rewrite Hg. Qed.

(** C2: an output argument naming an existing directory resolves to that
    directory joined with [{input-stem}_{suffix}.{ext}] (for an input path
    parsed from text and a suffix and extension that are file-name
    fragments, as every caller passes); one naming anything else is returned
    verbatim; an absent (or empty) one resolves to the same file name beside
    the input, and resolution fails with the overwrite error exactly when
    that default path is the input path and overwrite was not granted. *)
Theorem resolve_output_contract (fs : gmap Path node) (inp : Path)
    (suf : string) (ext : option string) (ow : bool) :
  (forall s, wf inp -> fragment suf -> fragment (default "" ext) ->
     s <> "" -> is_dir fs (Path_of s) = true ->
     resolve_output fs inp (Some s) suf ext ow
     = Ok (joinpath (Path_of s) (synthesized_name inp suf ext)))
  /\ (forall s, s <> "" -> is_dir fs (Path_of s) = false ->
     resolve_output fs inp (Some s) suf ext ow = Ok (Path_of s))
  /\ (forall oarg, oarg = None \/ oarg = Some "" ->
     (resolve_output fs inp oarg suf ext ow = Raise (Exn ValueError WouldOverwrite)
        <-> joinpath (parent inp) (synthesized_name inp suf ext) = inp /\ ow = false)
     /\ (resolve_output fs inp oarg suf ext ow
          = Ok (joinpath (parent inp) (synthesized_name inp suf ext))
        <-> ~ (joinpath (parent inp) (synthesized_name inp suf ext) = inp /\ ow = false))).
Proof.
  assert (forall s, s <> "" -> given (Some s) = true) as Hgiven.
  { intros s Hs. simpl. now destruct (String.eqb_spec s ""). }
  split; [|split].
  - intros s Hwf Hsuf Hext Hs Hdir.
    destruct (synthesized_name_component inp suf ext Hwf Hsuf Hext) as (Hc & He & Hd).
    unfold resolve_output.
    rewrite (Hgiven s Hs). simpl default. rewrite Hdir.
    rewrite default_output_synthesized, name_joinpath_fragment by assumption.
    reflexivity.
  - intros s Hs Hdir. unfold resolve_output.
    rewrite (Hgiven s Hs). simpl default. now rewrite Hdir.
  - intros oarg Habsent.
    rewrite resolve_output_absent by (destruct Habsent as [-> | ->]; reflexivity).
    rewrite default_output_synthesized.
    destruct (bool_decide_reflect (joinpath (parent inp) (synthesized_name inp suf ext) = inp))
      as [Heq | Hne]; destruct ow; simpl;
      intuition (discriminate || congruence).
Qed.

Lemma resolve_output_contract_witness :
  resolve_output {[ Path_of "out" := Dir ]} (Path_of "a/photo.jpg") (Some "out")
    "resized" None false = Ok (Path_of "out/photo_resized.jpg")
  /\ resolve_output {[ Path_of "out" := Dir ]} (Path_of "a/photo.jpg") (Some "b/x.png")
    "resized" None false = Ok (Path_of "b/x.png")
  /\ resolve_output {[ Path_of "out" := Dir ]} (Path_of "a/photo.jpg") None
    "resized" None false = Ok (Path_of "a/photo_resized.jpg").
Proof.
  assert (wf (Path_of "a/photo.jpg")) as Hwf by (repeat constructor; discriminate).
  destruct (resolve_output_contract {[ Path_of "out" := Dir ]} (Path_of "a/photo.jpg")
              "resized" None false) as (Hdir & Hfile & Hnone).
  split; [|split].
  - apply (Hdir "out" Hwf eq_refl eq_refl); [discriminate | vm_compute; reflexivity].
  - apply (Hfile "b/x.png"); [discriminate | vm_compute; reflexivity].
  - apply (Hnone None); [now left|]. intros [H _]. vm_compute in H. discriminate.
Defined.

End Resolver.

(** ** Validation and the batch runner *)

Section Validation.

Import Str Pathlib Py Fs Utils.
Local Open Scope Z_scope.

Lemma is_file_exists (fs : gmap Path node) (p : Path) :
  is_file fs p = true -> exists_ fs p = true.
Proof.
  unfold is_file, exists_. destruct (stat fs p) as [[]|]; easy.
Qed.




Lemma validate_input_sniffed (fs : gmap Path node) (p : Path) (max_size : Z) :
  is_file fs p = true -> st_size fs p <= max_size ->
  validate_input fs p max_size =
    match detect_format fs p with
    | None => Raise (Exn ValueError (UnsupportedFormat p))
    | Some _ => Ok tt
    end.
Proof.
  intros Hf Hs. unfold validate_input.
  rewrite (is_file_exists _ _ Hf), Hf. simpl.
  destruct (Z.gtb_spec (st_size fs p) max_size); [lia | reflexivity].
Qed.


End Validation.

Section BatchFacts.

Import Str Pathlib Py Fs Utils Batch.
Local Open Scope Z_scope.

Variable process_fn : Path -> Path -> W unit.
Variable output_arg : option string.
Variable tool_suffix : string.
Variable overwrite : bool.
Variable ext : option string.

Let item := process_item process_fn output_arg tool_suffix overwrite ext.
Let loop := batch_loop process_fn output_arg tool_suffix overwrite ext.
Let exec := batch_exec process_fn output_arg tool_suffix overwrite ext.



(** An item is validated, then its output is resolved, then (the parent
    directory made) it is processed; the first failure ends it. *)
Lemma process_item_steps (i total : Z) (inp : Path) (w : World) :
  item i total inp w =
    match validate_input (files w) inp MAX_FILE_SIZE with
    | Raise e => (Raise e, w)
    | Ok _ =>
        match resolve_output (files w) inp output_arg tool_suffix ext overwrite with
        | Raise e => (Raise e, w)
        | Ok out =>
            sbind (ensure_parent out)
              (fun _ => sbind (process_fn inp out)
                 (fun _ => print (ItemOk i total (name inp) (name out)))) w
        end
    end.
Proof.
  unfold item, process_item, lift. unfold sbind at 1.
  destruct (validate_input (files w) inp MAX_FILE_SIZE) as [[]|e]; [|reflexivity].
  unfold sbind at 1.
  now destruct (resolve_output (files w) inp output_arg tool_suffix ext overwrite).
Qed.

Lemma failed_cons_ok (inp : Path) (outs : list (Path * result unit)) :
  failed ((inp, Ok tt) :: outs) = failed outs
  /\ succeeded ((inp, Ok tt) :: outs) = succeeded outs + 1.
Proof. unfold failed, succeeded. simpl. lia. Qed.

Lemma failed_cons_raise (inp : Path) (e : exn) (outs : list (Path * result unit)) :
  failed ((inp, Raise e) :: outs) = failed outs + 1
  /\ succeeded ((inp, Raise e) :: outs) = succeeded outs.
Proof. unfold failed, succeeded. simpl. lia. Qed.

Lemma succeeded_failed (outs : list (Path * result unit)) :
  succeeded outs + failed outs = Z.of_nat (List.length outs).
Proof.
  induction outs as [|[inp [[]|e]] outs IH].
  - reflexivity.
  - destruct (failed_cons_ok inp outs) as [-> ->]. simpl List.length. lia.
  - destruct (failed_cons_raise inp e outs) as [-> ->]. simpl List.length. lia.
Qed.

(** The loop realises the contract: it runs every item once, in order, and
    its counters are the tallies of the outcomes. *)
Lemma batch_loop_exec (items : list Path) :
  forall (i total success : Z) (errors : list (Path * message)) (w : World),
  exists outs w' errors',
    exec total i items w outs w'
    /\ map fst outs = items
    /\ Z.of_nat (List.length errors') = Z.of_nat (List.length errors) + failed outs
    /\ loop items i total success errors w = (Ok (success + succeeded outs, errors'), w').
Proof.
  induction items as [|inp rest IH]; intros i total success errors w.
  - exists [], w, errors. repeat split; [constructor | | ].
    + unfold failed. simpl. lia.
    + unfold succeeded. simpl. now rewrite Z.add_0_r.
  - unfold loop. simpl. unfold sbind at 1, try_except, sbind at 1.
    fold (item i total inp).
    destruct (item i total inp w) as [[[]|e] w1] eqn:Hitem.
    + destruct (IH (i + 1) total (success + 1) errors w1)
        as (outs & w' & errors' & Hexec & Hmap & Hlen & Hloop).
      exists ((inp, Ok tt) :: outs), w', errors'.
      destruct (failed_cons_ok inp outs) as [-> ->].
      repeat split.
      * eapply exec_ok; eassumption.
      * simpl. now rewrite Hmap.
      * exact Hlen.
      * unfold ret. simpl. fold loop. rewrite Hloop. do 3 f_equal. lia.
    + set (w1' := mkWorld (files w1) (console w1 ++ [ItemFailed i total (name inp) (str e)])).
      destruct (IH (i + 1) total success (errors ++ [(inp, str e)]) w1')
        as (outs & w' & errors' & Hexec & Hmap & Hlen & Hloop).
      exists ((inp, Raise e) :: outs), w', errors'.
      destruct (failed_cons_raise inp e outs) as [-> ->].
      repeat split.
      * eapply exec_caught; eassumption.
      * simpl. now rewrite Hmap.
      * rewrite Hlen, length_app. simpl. lia.
      * unfold sbind, print, ret. simpl. fold loop. fold w1'. exact Hloop.
Qed.

(** C6: once the output directory is prepared, [run_batch] processes every
    one of the N inputs in order, each as validate, resolve output, process
    (the execution [batch_exec] runs [process_item] on each); an exception on
    one item is caught and recorded and the remaining items are processed;
    with M failed items the summary reports N - M successes and M failures,
    and the returned status is 0 when M = 0 and 2 otherwise. *)
Theorem run_batch_partial_failure (inputs : list Path) (w w0 : World) :
  prepare_output_dir output_arg (Z.of_nat (List.length inputs)) w = (Ok tt, w0) ->
  exists outs w1,
    exec (Z.of_nat (List.length inputs)) 1 inputs w0 outs w1
    /\ (forall i total inp w',
        item i total inp w' =
          match validate_input (files w') inp MAX_FILE_SIZE with
          | Raise e => (Raise e, w')
          | Ok _ =>
              match resolve_output (files w') inp output_arg tool_suffix ext overwrite with
              | Raise e => (Raise e, w')
              | Ok out =>
                  sbind (ensure_parent out)
                    (fun _ => sbind (process_fn inp out)
                       (fun _ => print (ItemOk i total (name inp) (name out)))) w'
              end
          end)
    /\ map fst outs = inputs
    /\ succeeded outs = Z.of_nat (List.length inputs) - failed outs
    /\ run_batch process_fn output_arg tool_suffix overwrite ext inputs w =
         (Ok (if failed outs =? 0 then 0 else 2),
          mkWorld (files w1)
            (console w1 ++
             [Summary (Z.of_nat (List.length inputs) - failed outs)
                (Z.of_nat (List.length inputs))
                (if failed outs =? 0 then None else Some (failed outs))])).
Proof.
  intros Hprep.
  destruct (batch_loop_exec inputs 1 (Z.of_nat (List.length inputs)) 0 [] w0)
    as (outs & w1 & errors & Hexec & Hmap & Hlen & Hloop).
  exists outs, w1.
  assert (succeeded outs = Z.of_nat (List.length inputs) - failed outs) as Hsucc.
  { pose proof (succeeded_failed outs) as H.
    rewrite <- Hmap, length_map. lia. }
  split; [exact Hexec|]. split; [apply process_item_steps|].
  split; [exact Hmap|]. split; [exact Hsucc|].
  unfold run_batch, sbind at 1. rewrite Hprep.
  unfold sbind at 1. fold loop. rewrite Hloop. simpl in Hlen.
  rewrite Z.add_0_l, Hsucc.
  destruct errors as [|err errors].
  - assert (failed outs = 0) as -> by (simpl in Hlen; lia). reflexivity.
  - assert (failed outs = Z.of_nat (List.length (err :: errors))) as Hf by lia.
    rewrite <- Hf.
    destruct (Z.eqb_spec (failed outs) 0) as [E|_]; [simpl in Hf; lia | reflexivity].
Qed.

End BatchFacts.

Section BatchExamples.

Import Str Pathlib Py Fs Utils Batch.
Local Open Scope string_scope.
Local Open Scope Z_scope.

(** Two inputs, the second missing: one success, one failure, status 2. *)
Lemma run_batch_partial_failure_witness :
  let good := Path_of "a.jpg" in
  let missing := Path_of "b.jpg" in
  let w := mkWorld {[ good := File true [xff; xd8; xff; xe0] ]} [] in
  exists outs w1,
    batch_exec (fun _ _ => ret tt) None "compressed" false None 2 1 [good; missing] w outs w1
    /\ (forall i total inp w',
        process_item (fun _ _ => ret tt) None "compressed" false None i total inp w' =
          match validate_input (files w') inp MAX_FILE_SIZE with
          | Raise e => (Raise e, w')
          | Ok _ =>
              match resolve_output (files w') inp None "compressed" None false with
              | Raise e => (Raise e, w')
              | Ok out =>
                  sbind (ensure_parent out)
                    (fun _ => sbind (ret tt)
                       (fun _ => print (ItemOk i total (name inp) (name out)))) w'
              end
          end)
    /\ map fst outs = [good; missing]
    /\ succeeded outs = 2 - failed outs
    /\ run_batch (fun _ _ => ret tt) None "compressed" false None [good; missing] w =
         (Ok (if failed outs =? 0 then 0 else 2),
          mkWorld (files w1)
            (console w1 ++
             [Summary (2 - failed outs) 2
                (if failed outs =? 0 then None else Some (failed outs))])).
Proof.
  intros good missing w.
  apply (run_batch_partial_failure (fun _ _ => ret tt) None "compressed" false None
           [good; missing] w w).
  reflexivity.
Defined.

Example run_batch_two_inputs :
  let good := Path_of "a.jpg" in
  let missing := Path_of "b.jpg" in
  let w := mkWorld {[ good := File true [xff; xd8; xff; xe0] ]} [] in
  let r := run_batch (fun _ _ => ret tt) None "compressed" false None [good; missing] w in
  fst r = Ok 2
  /\ console (snd r) =
      [ItemOk 1 2 "a.jpg" "a_compressed.jpg";
       ItemFailed 2 2 "b.jpg" (FileNotFound missing);
       Summary 1 2 (Some 1)].
Proof. vm_compute. split; reflexivity. Qed.

End BatchExamples.

Section ValidationContract.

Import Str Pathlib Py Fs Utils.
Local Open Scope string_scope.
Local Open Scope Z_scope.




End ValidationContract.

(** ** The edit pipeline *)

Section EditorFacts.

Import Str Pathlib Py Pil Editor.
Local Open Scope string_scope.
Local Open Scope list_scope.
Local Open Scope Z_scope.

(** *** Keyword arguments do not depend on their order *)

Lemma lookup_kw_not_in (kw : kwargs) (k : string) :
  ~ In k (map fst kw) -> lookup_kw kw k = None.
Proof.
  induction kw as [|[k' v] kw IH]; simpl; [reflexivity|].
  intros H. destruct (String.eqb_spec k' k) as [->|_]; [tauto|].
  apply IH. tauto.
Qed.

Lemma lookup_kw_permutation (kw1 kw2 : kwargs) (k : string) :
  List.NoDup (map fst kw1) -> Permutation kw1 kw2 ->
  lookup_kw kw1 k = lookup_kw kw2 k.
Proof.
  intros Hnd Hp. induction Hp as [| [k' v] l l' Hp IH | [k1 v1] [k2 v2] l | l l' l'' Hp1 IH1 Hp2 IH2].
  - reflexivity.
  - simpl. inversion Hnd; subst. now rewrite IH.
  - simpl. inversion Hnd as [|? ? Hnot _]; subst.
    destruct (String.eqb_spec k2 k) as [->|]; destruct (String.eqb_spec k1 k) as [->|];
      try reflexivity.
    exfalso. apply Hnot. now left.
  - rewrite IH1 by assumption. apply IH2.
    eapply Permutation_NoDup; [|exact Hnd]. now apply Permutation_map.
Qed.

Lemma edit_ext (kw1 kw2 : kwargs) (img : image) :
  (forall k, lookup_kw kw1 k = lookup_kw kw2 k) ->
  edit kw1 img = edit kw2 img.
Proof.
  intros H. unfold edit, supplied, get, get_default. now rewrite !H.
Qed.

(** *** The if-chain is the ordered fold *)

Lemma edit_pipeline (kw : kwargs) (img : image) :
  edit kw img = run_pipeline PIPELINE kw (unpalette img).
Proof.
  unfold edit, PIPELINE. cbn [run_pipeline]. fold (unpalette img).
  repeat match goal with
         | |- bind ?m _ = bind ?m _ => destruct m as [?|?]; cbn [bind]; [|reflexivity]
         end.
  now destruct (when _ _ _).
Qed.

Lemma run_pipeline_app steps1 steps2 (kw : kwargs) (img : image) :
  run_pipeline (steps1 ++ steps2) kw img =
  bind (run_pipeline steps1 kw img) (run_pipeline steps2 kw).
Proof.
  revert img; induction steps1 as [|[[nm asked] step] rest IH]; intros img.
  - reflexivity.
  - cbn [app run_pipeline]. destruct (when (asked kw) (step kw) img); [apply IH | reflexivity].
Qed.

Lemma bind_ok {A B} (m : result A) (k : A -> result B) (r : B) :
  bind m k = Ok r -> exists a, m = Ok a /\ k a = Ok r.
Proof. destruct m as [a|e]; simpl; [eauto | discriminate]. Qed.

(** *** What a step that passed its range check did *)

Lemma clamp_ok (val lo hi : pyval) (name : string) (r : pyval) :
  _clamp val lo hi name = Ok r -> r = val /\ outside val lo hi = false.
Proof.
  unfold _clamp, outside.
  destruct (py_lt val lo) as [[]|]; simpl; try discriminate.
  destruct (py_lt hi val) as [[]|]; simpl; try discriminate.
  now intros [= <-].
Qed.

Lemma clamp_outside (val lo hi : pyval) (name : string) :
  outside val lo hi = true ->
  _clamp val lo hi name = Raise (Exn ValueError (OutOfRange name lo hi val)).
Proof.
  unfold _clamp, outside.
  destruct (py_lt val lo) as [[]|]; simpl; try discriminate; [reflexivity|].
  destruct (py_lt hi val) as [[]|]; simpl; try discriminate. reflexivity.
Qed.

Lemma apply_border_ok (img r : image) (v color : pyval) :
  apply_border img v color = Ok r ->
  exists b c, as_int v = Ok b /\ outside v (PInt 1) (PInt 500) = false
              /\ r = expand b c img.
Proof.
  unfold apply_border. intros H.
  apply bind_ok in H as (v' & Hc & H). apply clamp_ok in Hc as [_ Hc].
  apply bind_ok in H as (c & _ & H).
  apply bind_ok in H as (b & Hb & H).
  injection H as <-. eauto.
Qed.

Lemma apply_thumbnail_ok (img r : image) (v : pyval) :
  apply_thumbnail img v = Ok r ->
  exists n x0 y0 x1 y1,
    as_int v = Ok n /\ outside v (PInt 16) (PInt 4096) = false
    /\ center_square (width img) (height img) = (x0, y0, x1, y1)
    /\ size r = (n, n) /\ mode r = "RGB"
    /\ px r = Call "resize" [PInt n; PInt n; PStr "LANCZOS"]
               [Call "crop" [PInt x0; PInt y0; PInt x1; PInt y1]
                  [Call "convert" [PStr "RGB"] [px img]]].
Proof.
  unfold apply_thumbnail. intros H.
  apply bind_ok in H as (v' & Hc & H). apply clamp_ok in Hc as [_ Hc].
  change (width (convert "RGB" img)) with (width img) in H.
  change (height (convert "RGB" img)) with (height img) in H.
  destruct (center_square (width img) (height img)) as [[[x0 y0] x1] y1] eqn:Hsq.
  apply bind_ok in H as (cropped & Hcrop & H).
  apply bind_ok in H as (n & Hn & H).
  exists n, x0, y0, x1, y1.
  unfold crop in Hcrop. destruct ((x1 <? x0) || (y1 <? y0)); [discriminate|].
  injection Hcrop as <-.
  unfold resize in H. destruct ((n <? 1) || (n <? 1)); [discriminate|].
  injection H as <-. simpl. auto 10.
Qed.

(** The centred square of a picture touches its left or its top edge. *)
Lemma center_square_touches_edge (w h : Z) :
  fst (fst (fst (center_square w h))) = 0 \/ snd (fst (fst (center_square w h))) = 0.
Proof.
  unfold center_square. simpl.
  destruct (Z.min_spec w h) as [[_ ->] | [_ ->]].
  - left. now rewrite Z.sub_diag.
  - right. now rewrite Z.sub_diag.
Qed.

(** Hence the thumbnail crop of a bordered picture always shows border. *)
Lemma bordered_crop_shows_border (b w h : Z) :
  1 <= b ->
  box_within (center_square (w + 2 * b) (h + 2 * b)) (original_region b w h) = false.
Proof.
  intros Hb.
  pose proof (center_square_touches_edge (w + 2 * b) (h + 2 * b)) as Hedge.
  destruct (center_square (w + 2 * b) (h + 2 * b)) as [[[x0 y0] x1] y1].
  simpl in Hedge. unfold box_within, original_region.
  destruct Hedge as [-> | ->].
  - destruct (Z.leb_spec b 0); [lia | reflexivity].
  - destruct (Z.leb_spec b 0); [lia | now rewrite andb_false_r].
Qed.

Lemma run_pipeline_split (n : nat) (kw : kwargs) (img : image) :
  run_pipeline PIPELINE kw img =
  bind (run_pipeline (firstn n PIPELINE) kw img) (run_pipeline (skipn n PIPELINE) kw).
Proof. now rewrite <- run_pipeline_app, firstn_skipn. Qed.

Lemma when_asked (step : image -> result image) (img : image) :
  when true step img = step img.
Proof. reflexivity. Qed.

(** What [process_single] saved is what [edit] returned, flattened onto
    white when it has alpha and goes to a JPEG. *)
Lemma process_single_ok (env : Env) (inp out : Path) (kw : kwargs) (s : saved) :
  process_single env inp out kw = Ok s ->
  exists img0 r,
    Utils.open_image env inp = Ok img0 /\ edit kw img0 = Ok r
    /\ size (picture s) = size r
    /\ (mode r = "RGB" -> picture s = r).
Proof.
  unfold process_single. intros H.
  apply bind_ok in H as (img0 & Hopen & H).
  apply bind_ok in H as (r & Hedit & H).
  exists img0, r. injection H as <-. simpl. repeat split; try assumption.
  - destruct (_ && _); [|reflexivity]. simpl. unfold width, height. now destruct (size r).
  - intros ->. reflexivity.
Qed.

(** The thumbnail is the last step. *)
Lemma edit_thumbnail_last (kw : kwargs) (img r : image) :
  edit kw img = Ok r -> truthy (get kw "thumbnail") = true ->
  exists X, run_pipeline (firstn 10 PIPELINE) kw (unpalette img) = Ok X
            /\ apply_thumbnail X (get kw "thumbnail") = Ok r.
Proof.
  intros H Ht. rewrite edit_pipeline, (run_pipeline_split 10) in H.
  apply bind_ok in H as (X & HX & H). exists X. split; [exact HX|].
  cbv [skipn PIPELINE run_pipeline] in H. rewrite Ht, when_asked in H.
  now destruct (apply_thumbnail X (get kw "thumbnail")).
Qed.

(** Border, no frame, thumbnail: the last three steps. *)
Lemma edit_border_thumbnail (kw : kwargs) (img r : image) :
  edit kw img = Ok r ->
  truthy (get kw "border") = true -> truthy (get kw "frame") = false ->
  truthy (get kw "thumbnail") = true ->
  exists X B, run_pipeline (firstn 8 PIPELINE) kw (unpalette img) = Ok X
              /\ apply_border X (get kw "border")
                   (get_default kw "border_color" (PStr "white")) = Ok B
              /\ apply_thumbnail B (get kw "thumbnail") = Ok r.
Proof.
  intros H Hb Hf Ht. rewrite edit_pipeline, (run_pipeline_split 8) in H.
  apply bind_ok in H as (X & HX & H). exists X.
  cbv [skipn PIPELINE run_pipeline] in H. rewrite Hb, Hf, Ht, !when_asked in H.
  apply bind_ok in H as (B & HB & H). exists B.
  cbn [when bind] in H.
  split; [exact HX|]. split; [exact HB|].
  now destruct (apply_thumbnail B (get kw "thumbnail")).
Qed.

(** C1, as stated, fails in its last part: a border of 10 around an 80 by 80
    picture gives 100 by 100; the thumbnail step crops the centred square
    (0, 0, 100, 100), the whole bordered picture, and resizes it to 100 by
    100: the border ring is all there. With a 400 by 200 picture the crop is
    (100, 0, 320, 220): the border stays along the top and the bottom. *)
Lemma edit_border_thumbnail_keeps_border :
  let photo := Path_of "photo.jpg" in
  let env w h := mkEnv {[ photo := Fs.File true [xff; xd8; xff; xe0] ]}
                   (fun _ => Some (mkHeader (w, h) "RGB" false)) false false
                   (fun _ => None) in
  let kw := [("thumbnail", PInt 100); ("border", PInt 10)] in
  process_single (env 80 80) photo (Path_of "thumb.jpg") kw =
    Ok (mkSaved (Path_of "thumb.jpg")
          (mkImage (100, 100) "RGB" false
             (Call "resize" [PInt 100; PInt 100; PStr "LANCZOS"]
                [Call "crop" [PInt 0; PInt 0; PInt 100; PInt 100]
                   [Call "convert" [PStr "RGB"]
                      [Call "ImageOps.expand" [PInt 10; PStr "white"]
                         [Call "Image.open" [PPath photo] []]]]]))
          [("quality", PInt 95)])
  /\ box_within (0, 0, 100, 100) (original_region 10 80 80) = false
  /\ (exists s, process_single (env 400 200) photo (Path_of "thumb.jpg") kw = Ok s
       /\ px (picture s) =
          Call "resize" [PInt 100; PInt 100; PStr "LANCZOS"]
            [Call "crop" [PInt 100; PInt 0; PInt 320; PInt 220]
               [Call "convert" [PStr "RGB"]
                  [Call "ImageOps.expand" [PInt 10; PStr "white"]
                     [Call "Image.open" [PPath photo] []]]]])
  /\ box_within (100, 0, 320, 220) (original_region 10 400 200) = false.
Proof.
  repeat apply conj; try (vm_compute; reflexivity).
  eexists. split; vm_compute; reflexivity.
Qed.

(** C1 (amended): whatever the order of the keyword arguments, the edit
    processor applies auto-enhance, the brightness, contrast, saturation,
    sharpness and hue adjustments, the named filter, flip, border, frame and
    thumbnail in this order; a thumbnail of n is last, so the saved picture is
    n by n; in particular with border 10 and thumbnail 100 it is 100 by 100.
    The border is not removed: with a border b and no frame the thumbnail
    crops the centred square of the bordered picture, which always reaches
    into the border, and resizes that. *)
Theorem edit_fixed_order (env : Env) (inp out : Path) (kw : kwargs) :
  (forall kw', List.NoDup (map fst kw) -> Permutation kw kw' ->
     process_single env inp out kw' = process_single env inp out kw)
  /\ (forall img, edit kw img = run_pipeline PIPELINE kw (unpalette img))
  /\ map (fun step => fst (fst step)) PIPELINE =
       ["auto-enhance"; "brightness"; "contrast"; "saturation"; "sharpness"; "hue";
        "filter"; "flip"; "border"; "frame"; "thumbnail"]
  /\ (forall s, process_single env inp out kw = Ok s ->
       truthy (get kw "thumbnail") = true ->
       exists n, as_int (get kw "thumbnail") = Ok n /\ size (picture s) = (n, n))
  /\ (forall s, process_single env inp out kw = Ok s ->
       truthy (get kw "border") = true -> truthy (get kw "frame") = false ->
       truthy (get kw "thumbnail") = true ->
       exists X b color n x0 y0 x1 y1,
         as_int (get kw "border") = Ok b /\ as_int (get kw "thumbnail") = Ok n
         /\ center_square (width X + 2 * b) (height X + 2 * b) = (x0, y0, x1, y1)
         /\ box_within (x0, y0, x1, y1) (original_region b (width X) (height X)) = false
         /\ size (picture s) = (n, n)
         /\ px (picture s) =
            Call "resize" [PInt n; PInt n; PStr "LANCZOS"]
              [Call "crop" [PInt x0; PInt y0; PInt x1; PInt y1]
                 [Call "convert" [PStr "RGB"]
                    [Call "ImageOps.expand" [PInt b; PStr color] [px X]]]]).
Proof.
  repeat apply conj.
  - intros kw' Hnd Hp. unfold process_single.
    destruct (Utils.open_image env inp) as [img|e]; [|reflexivity]. simpl.
    rewrite (edit_ext kw' kw img); [reflexivity|].
    intros k. symmetry. now apply lookup_kw_permutation.
  - apply edit_pipeline.
  - reflexivity.
  - intros s Hs Ht.
    apply process_single_ok in Hs as (img0 & r & _ & Hedit & Hsize & _).
    apply edit_thumbnail_last in Hedit as (X & _ & Hthumb); [|exact Ht].
    apply apply_thumbnail_ok in Hthumb as (n & x0 & y0 & x1 & y1 & Hn & _ & _ & Hr & _).
    exists n. split; [exact Hn | congruence].
  - intros s Hs Hb Hf Ht.
    apply process_single_ok in Hs as (img0 & r & _ & Hedit & Hsize & Hpic).
    apply edit_border_thumbnail in Hedit as (X & B & _ & HB & Hthumb); try assumption.
    apply apply_border_ok in HB as (b & color & Hbi & Hrange & ->).
    apply apply_thumbnail_ok in Hthumb
      as (n & x0 & y0 & x1 & y1 & Hn & _ & Hsq & Hr & Hmode & Hpx).
    exists X, b, color, n, x0, y0, x1, y1.
    change (width (expand b color X)) with (width X + 2 * b) in Hsq.
    change (height (expand b color X)) with (height X + 2 * b) in Hsq.
    rewrite (Hpic Hmode). repeat split; try assumption.
    rewrite <- Hsq. apply bordered_crop_shows_border.
    (* the range check let the border through, so it is at least 1 *)
    unfold outside in Hrange.
    destruct (get kw "border") as [| [] | z | f | |]; try discriminate;
      simpl in Hbi; injection Hbi as <-; simpl in Hrange; try lia.
    destruct (Z.ltb_spec z 1); [discriminate | lia].
Qed.

(** A 400 by 200 picture, thumbnail and border given in this order: the
    border is applied first, the result is 100 by 100 and the crop reaches
    into the border. *)
Lemma edit_fixed_order_witness :
  let photo := Path_of "photo.jpg" in
  let env := mkEnv {[ photo := Fs.File true [xff; xd8; xff; xe0] ]}
               (fun _ => Some (mkHeader (400, 200) "RGB" false)) false false
               (fun _ => None) in
  let kw := [("thumbnail", PInt 100); ("border", PInt 10)] in
  exists s, process_single env photo (Path_of "thumb.jpg") kw = Ok s
  /\ exists X b color n x0 y0 x1 y1,
    as_int (get kw "border") = Ok b /\ as_int (get kw "thumbnail") = Ok n
    /\ center_square (width X + 2 * b) (height X + 2 * b) = (x0, y0, x1, y1)
    /\ box_within (x0, y0, x1, y1) (original_region b (width X) (height X)) = false
    /\ size (picture s) = (n, n)
    /\ px (picture s) =
       Call "resize" [PInt n; PInt n; PStr "LANCZOS"]
         [Call "crop" [PInt x0; PInt y0; PInt x1; PInt y1]
            [Call "convert" [PStr "RGB"]
               [Call "ImageOps.expand" [PInt b; PStr color] [px X]]]].
Proof.
  intros photo env kw.
  destruct (edit_fixed_order env photo (Path_of "thumb.jpg") kw) as (_ & _ & _ & _ & H).
  eexists. split; [vm_compute; reflexivity|].
  apply H; reflexivity.
Defined.

End EditorFacts.

(** ** The network adapter *)

Section UploadFacts.

Import Str Pathlib Py Utils Api.
Local Open Scope string_scope.
Local Open Scope list_scope.
Local Open Scope Z_scope.

Lemma has_magic_prefix (data : list byte) (entry : list byte * string) :
  has_magic data entry = starts_with (fst entry) data.
Proof. unfold has_magic. now rewrite (slice_magic 0 _ (fst entry) data). Qed.

Lemma magic_scan (data : list byte) :
  existsb (has_magic data) ALLOWED_MAGIC = allowed_prefix data.
Proof.
  unfold allowed_prefix.
  induction ALLOWED_MAGIC as [|entry table IH]; [reflexivity|].
  simpl. now rewrite has_magic_prefix, IH.
Qed.

Lemma length_cons_repeat (c : byte) (n : Z) :
  0 <= n -> Z.of_nat (List.length (c :: repeat c (Z.to_nat n))) = n + 1.
Proof.
  intros Hn. cbn [List.length]. rewrite repeat_length, Nat2Z.inj_succ, Z2Nat.id; lia.
Qed.

(** The three outcomes of the validator. *)
Lemma validate_upload_cases (data : list byte) :
  _validate_upload data =
    if Z.of_nat (List.length data) >? MAX_UPLOAD
    then Raise (Exn (HTTPException 413) (UploadTooLarge 20))
    else if allowed_prefix data then Ok tt
    else Raise (Exn (HTTPException 415) UploadUnsupported).
Proof. unfold _validate_upload. now rewrite magic_scan. Qed.

(** A header the sniffer calls SVG begins with white space or with [<]. *)
Lemma svg_first_byte (header : list byte) :
  classify_header header = Some SVG ->
  exists c rest, header = c :: rest /\ (is_space_byte c = true \/ c = x3c).
Proof.
  unfold classify_header.
  repeat match goal with
         | |- context [if ?t then Some ?f else _] =>
             destruct t; [discriminate|]
         end.
  destruct header as [|c rest]; [discriminate|].
  intros H. exists c, rest. split; [reflexivity|].
  destruct (is_space_byte c) eqn:Hc; [now left | right].
  rewrite lstrip_no_space in H by exact Hc.
  destruct (Byte.eqb c x3c) eqn:E; [now apply Byte.byte_dec_bl in E|].
  unfold slice in H. simpl in H. rewrite E in H. simpl in H. discriminate.
Qed.

(** No allowed prefix begins with white space, with [<] or with a zero byte. *)
Lemma no_prefix_for_text (c : byte) (rest : list byte) :
  is_space_byte c = true \/ c = x3c \/ c = x00 ->
  allowed_prefix (c :: rest) = false.
Proof.
  intros [H | [-> | ->]]; [|reflexivity..].
  destruct c; try discriminate H; reflexivity.
Qed.

Ltac upload_cases data :=
  rewrite (validate_upload_cases data); unfold MAX_UPLOAD;
  destruct (Z.gtb_spec (Z.of_nat (List.length data)) (20 * 1024 * 1024));
  destruct (allowed_prefix data);
  intuition (discriminate || lia).

Lemma upload_accepts (data : list byte) :
  Z.of_nat (List.length data) <= 20 * 2 ^ 20 /\ allowed_prefix data = true ->
  _validate_upload data = Ok tt.
Proof. upload_cases data. Qed.

Lemma upload_rejects_unknown (data : list byte) :
  allowed_prefix data = false -> is_ok (_validate_upload data) = false.
Proof. upload_cases data. Qed.


(** C10, as stated, fails twice. An upload of 20 MiB + 1 zero bytes matches no
    allowed prefix, yet it is answered 413, not 415: the size check comes
    first. And the header [II 00 00 ftypheic], which the sniffer classifies as
    HEIC, begins with the allowed prefix [II] and is accepted. *)
Lemma validate_upload_size_first_and_heic_accepted :
  (allowed_prefix (x00 :: repeat x00 (Z.to_nat 20971520)) = false
   /\ _validate_upload (x00 :: repeat x00 (Z.to_nat 20971520))
      = Raise (Exn (HTTPException 413) (UploadTooLarge 20)))
  /\ (classify_header (firstn 32 (b "II" ++ [x00; x00] ++ b "ftypheic")) = Some HEIC
      /\ _validate_upload (b "II" ++ [x00; x00] ++ b "ftypheic") = Ok tt).
Proof.
  split; split.
  - reflexivity.
  - rewrite validate_upload_cases, (length_cons_repeat x00 20971520) by lia.
    destruct (Z.gtb_spec (20971520 + 1) MAX_UPLOAD) as [_ | Hle]; [reflexivity|].
    unfold MAX_UPLOAD in Hle. lia.
  - vm_compute. reflexivity.
  - vm_compute. reflexivity.
Qed.

(** C10 (amended): the validator answers 413 exactly when the length
    strictly exceeds 20 MiB (20 MiB itself passes the size check); it answers
    415 exactly when the length is within the ceiling and the leading bytes are
    none of FF D8 FF, 89 "PNG", "GIF8", "RIFF", "BM", "II", "MM"; it accepts
    exactly when the length is within the ceiling and one of them leads, so a
    RIFF upload passes without a WEBP marker; every upload the sniffer
    classifies as SVG is rejected, and so is every upload that begins with a
    zero byte, as the ftyp box of a HEIC file does. *)
Theorem validate_upload_contract (data : list byte) :
  (_validate_upload data = Raise (Exn (HTTPException 413) (UploadTooLarge 20))
     <-> Z.of_nat (List.length data) > 20 * 2 ^ 20)
  /\ (_validate_upload data = Raise (Exn (HTTPException 415) UploadUnsupported)
     <-> Z.of_nat (List.length data) <= 20 * 2 ^ 20 /\ allowed_prefix data = false)
  /\ (_validate_upload data = Ok tt
     <-> Z.of_nat (List.length data) <= 20 * 2 ^ 20 /\ allowed_prefix data = true)
  /\ (Z.of_nat (List.length data) <= 20 * 2 ^ 20 ->
      starts_with (b "RIFF") data = true -> _validate_upload data = Ok tt)
  /\ (classify_header (firstn 32 data) = Some SVG -> is_ok (_validate_upload data) = false)
  /\ (forall rest, data = x00 :: rest -> is_ok (_validate_upload data) = false).
Proof.
  split; [|split; [|split; [|split; [|split]]]].
  - upload_cases data.
  - upload_cases data.
  - upload_cases data.
  - intros Hle Hriff. apply upload_accepts. split; [exact Hle|].
    unfold allowed_prefix, ALLOWED_MAGIC. cbn [existsb fst]. rewrite Hriff.
    now rewrite !orb_true_r.
  - intros Hsvg. apply svg_first_byte in Hsvg as (c & rest & Hh & Hc).
    destruct data as [|d data']; [discriminate|]. simpl in Hh. injection Hh as -> _.
    apply upload_rejects_unknown, no_prefix_for_text. tauto.
  - intros rest ->. apply upload_rejects_unknown, no_prefix_for_text. tauto.
Qed.

Lemma validate_upload_contract_witness :
  _validate_upload (b "RIFFxxxxAVI ") = Ok tt
  /\ is_ok (_validate_upload (b " <svg xmlns")) = false
  /\ is_ok (_validate_upload ([x00; x00; x00; x18] ++ b "ftypheic")) = false.
Proof.
  split; [|split].
  - apply (validate_upload_contract (b "RIFFxxxxAVI ")); [vm_compute; discriminate | reflexivity].
  - apply (validate_upload_contract (b " <svg xmlns")). reflexivity.
  - destruct (validate_upload_contract ([x00; x00; x00; x18] ++ b "ftypheic"))
      as (_ & _ & _ & _ & _ & Hzero).
    now apply (Hzero ([x00; x00; x18] ++ b "ftypheic")).
Defined.

End UploadFacts.

Section TempFiles.

Import Str Pathlib Py Utils Api.
Local Open Scope string_scope.
Local Open Scope list_scope.
Local Open Scope Z_scope.

Variable process : list byte -> result (list byte).
Variable new_ext : option string.
Variable label : string.
Variable filename : option string.
Variable data : list byte.
Variable td : gmap positive (list byte).

(** The two files a request stages: the upload, then the output. *)
Let inp : tmpfile := mkTmp (fresh (dom td)) (_guess_ext filename).
Let staged : gmap positive (list byte) := <[tmp_id inp := data]> td.
Let out : tmpfile :=
  mkTmp (fresh (dom staged))
    (if given new_ext then default "" new_ext
     else if negb (String.eqb (tmp_suffix inp) "") then tmp_suffix inp else ".png").

Lemma inp_fresh : td !! tmp_id inp = None.
Proof. apply not_elem_of_dom, is_fresh. Qed.

Lemma out_fresh : staged !! tmp_id out = None.
Proof. apply not_elem_of_dom, is_fresh. Qed.

Lemma out_not_inp : tmp_id out <> tmp_id inp.
Proof.
  intros E. pose proof out_fresh as H. rewrite E in H.
  unfold staged in H. rewrite lookup_insert_eq in H. discriminate.
Qed.

Lemma out_unused : td !! tmp_id out = None.
Proof.
  pose proof out_fresh as H. unfold staged in H.
  rewrite lookup_insert_ne in H; [exact H|]. intros E. now apply out_not_inp.
Qed.

(** The handler up to the [try]: the upload is staged, then the output. *)
Lemma save_upload_staged :
  _save_upload data (_guess_ext filename) td = (Ok inp, staged).
Proof.
  unfold _save_upload, sbind, mkstemp, write, ret. cbn [tmp_id].
  now rewrite insert_insert_eq.
Qed.

Lemma output_path_staged :
  _output_path inp new_ext staged = (Ok out, <[tmp_id out := []]> staged).
Proof. reflexivity. Qed.

Lemma image_endpoint_staged :
  _validate_upload data = Ok tt ->
  image_endpoint process new_ext label filename data td =
  try_finally
    (try_except
       (sbind (run_processor process inp out) (fun _ => ret (_file_response out label)))
       (fun e => sbind (unlink out)
                   (fun _ => raise (Exn (HTTPException 500) (str e)))))
    (unlink inp) (<[tmp_id out := []]> staged).
Proof.
  intros Hv. unfold image_endpoint.
  unfold sbind at 1. rewrite Hv.
  unfold sbind at 1. rewrite save_upload_staged.
  unfold sbind at 1. rewrite output_path_staged.
  reflexivity.
Qed.

(** The processor reads the staged upload. *)
Lemma staged_input : <[tmp_id out := []]> staged !! tmp_id inp = Some data.
Proof.
  rewrite lookup_insert_ne by apply out_not_inp.
  unfold staged. apply lookup_insert_eq.
Qed.

(** On the success path the handler removes the staged upload and leaves
    the staged output behind, for the response to stream. *)
Lemma image_endpoint_success (bytes : list byte) :
  _validate_upload data = Ok tt -> process data = Ok bytes ->
  image_endpoint process new_ext label filename data td
  = (Ok (_file_response out label), <[tmp_id out := bytes]> td).
Proof.
  intros Hv Hp. rewrite (image_endpoint_staged Hv).
  unfold try_finally, try_except, sbind, run_processor, unlink, ret.
  rewrite staged_input. change (default [] (Some data)) with data. rewrite Hp.
  f_equal. rewrite insert_insert_eq.
  rewrite delete_insert_ne by (intros E; now apply out_not_inp).
  unfold staged. now rewrite delete_insert_id by apply inp_fresh.
Qed.


(** C9 fails on the success path: when the processor succeeds, the request
    completes (the response is sent, and its background task is [None]) with
    the staged output still in the temporary directory, one file more than
    before the request; only the staged upload was deleted. *)
Theorem image_endpoint_leaks_output (bytes : list byte) :
  _validate_upload data = Ok tt -> process data = Ok bytes ->
  exists leaked : tmpfile,
    td !! tmp_id leaked = None
    /\ complete_request (image_endpoint process new_ext label filename data) td
       = (Ok tt, <[tmp_id leaked := bytes]> td)
    /\ size (<[tmp_id leaked := bytes]> td) = S (size td).
Proof.
  intros Hv Hp. exists out. split; [apply out_unused|]. split.
  - unfold complete_request, sbind. rewrite (image_endpoint_success bytes Hv Hp).
    unfold _file_response, send. now rewrite lookup_insert_eq.
  - apply map_size_insert_None, out_unused.
Qed.

End TempFiles.

Section TempFileExamples.

Import Str Pathlib Py Utils Api.
Local Open Scope string_scope.
Local Open Scope Z_scope.

(** A JPEG upload into an empty temporary directory: after the request one
    file is left. *)
Lemma image_endpoint_leaks_output_witness :
  exists leaked : tmpfile,
    (∅ : gmap positive (list byte)) !! tmp_id leaked = None
    /\ complete_request (api_compress (fun d => Ok d) (Some "photo.jpg") [xff; xd8; xff; xe0]) ∅
       = (Ok tt, <[tmp_id leaked := [xff; xd8; xff; xe0]]> ∅)
    /\ size (<[tmp_id leaked := [xff; xd8; xff; xe0]]> (∅ : gmap positive (list byte)))
       = S (size (∅ : gmap positive (list byte))).
Proof.
  unfold api_compress.
  apply (image_endpoint_leaks_output (fun d => Ok d) None "compressed" (Some "photo.jpg")
           [xff; xd8; xff; xe0] ∅ [xff; xd8; xff; xe0]); reflexivity.
Defined.

End TempFileExamples.

(** ** Parameter ranges *)

Section RangeFacts.

Import Str Pathlib Py Pil Editor.
Local Open Scope string_scope.
Local Open Scope list_scope.
Local Open Scope Z_scope.

(** A step of the pipeline that was asked for ran, and returned, in every
    run that reached the save. *)
Lemma pipeline_step_ran (n : nat) (nm : string) (asked : kwargs -> bool)
    (step : kwargs -> image -> result image) (kw : kwargs) (img r : image) :
  nth_error PIPELINE n = Some (nm, asked, step) ->
  edit kw img = Ok r -> asked kw = true ->
  exists X Y, step kw X = Ok Y.
Proof.
  intros Hn Hrun Hasked. rewrite edit_pipeline in Hrun.
  apply nth_error_split in Hn as (before & after & Hsplit & _).
  rewrite Hsplit, run_pipeline_app in Hrun.
  apply bind_ok in Hrun as (X & _ & Hrun). cbn [run_pipeline] in Hrun.
  apply bind_ok in Hrun as (Y & HY & _). rewrite Hasked in HY. eauto.
Qed.

Lemma clamped_step (val lo hi : pyval) (name : string)
    (k : pyval -> result image) (Y : image) :
  bind (_clamp val lo hi name) k = Ok Y -> outside val lo hi = false.
Proof.
  intros H. apply bind_ok in H as (v & Hc & _). now apply clamp_ok in Hc.
Qed.

Lemma clamped_step_raises (val lo hi : pyval) (name : string)
    (k : pyval -> result image) :
  outside val lo hi = true ->
  bind (_clamp val lo hi name) k = Raise (Exn ValueError (OutOfRange name lo hi val)).
Proof. intros H. now rewrite clamp_outside. Qed.

(** C5, as stated, fails: [compress] hands a quality of 101 to the encoder
    unchecked (and so does any other value), although 101 is outside 1..100. *)
Lemma compress_quality_unchecked :
  let photo := Path_of "photo.jpg" in
  let env := mkEnv {[ photo := Fs.File true [xff; xd8; xff; xe0] ]}
               (fun _ => Some (mkHeader (80, 80) "RGB" false)) false false
               (fun _ => None) in
  outside (PInt 101) (PInt 1) (PInt 100) = true
  /\ Compress.process_single env photo (Path_of "small.jpg") (PInt 101) =
     Ok (mkSaved (Path_of "small.jpg")
           (mkImage (80, 80) "RGB" false (Call "Image.open" [PPath photo] []))
           [("optimize", PBool true); ("quality", PInt 101); ("progressive", PBool true)]).
Proof. split; vm_compute; reflexivity. Qed.

(** C5 (amended): in the edit processor, which the command line and the
    network adapter both call, a brightness, contrast, saturation or
    sharpness factor below 0.0 or above 10.0, a hue shift below -180 or above
    180, a border width below 1 or above 500 and a thumbnail size below 16 or
    above 4096 make the step fail with a [ValueError] that names the
    parameter, its bounds and the value, before the library call of that
    step; so no run that reaches the save had such a value in a step that was
    asked for. (The quality of [compress] is not checked.) *)
Theorem edit_parameters_range_checked (img : image) (val color : pyval) :
  (outside val (PFloat 0) (PFloat 10) = true ->
     apply_brightness img val
       = Raise (Exn ValueError (OutOfRange "brightness" (PFloat 0) (PFloat 10) val))
     /\ apply_contrast img val
       = Raise (Exn ValueError (OutOfRange "contrast" (PFloat 0) (PFloat 10) val))
     /\ apply_saturation img val
       = Raise (Exn ValueError (OutOfRange "saturation" (PFloat 0) (PFloat 10) val))
     /\ apply_sharpness img val
       = Raise (Exn ValueError (OutOfRange "sharpness" (PFloat 0) (PFloat 10) val)))
  /\ (outside val (PInt (-180)) (PInt 180) = true ->
     apply_hue img val
       = Raise (Exn ValueError (OutOfRange "hue" (PInt (-180)) (PInt 180) val)))
  /\ (outside val (PInt 1) (PInt 500) = true ->
     apply_border img val color
       = Raise (Exn ValueError (OutOfRange "border" (PInt 1) (PInt 500) val)))
  /\ (outside val (PInt 16) (PInt 4096) = true ->
     apply_thumbnail img val
       = Raise (Exn ValueError (OutOfRange "thumbnail size" (PInt 16) (PInt 4096) val)))
  /\ (forall env inp out kw s,
      process_single env inp out kw = Ok s ->
      (supplied kw "brightness" = true ->
         outside (get kw "brightness") (PFloat 0) (PFloat 10) = false)
      /\ (supplied kw "contrast" = true ->
         outside (get kw "contrast") (PFloat 0) (PFloat 10) = false)
      /\ (supplied kw "saturation" = true ->
         outside (get kw "saturation") (PFloat 0) (PFloat 10) = false)
      /\ (supplied kw "sharpness" = true ->
         outside (get kw "sharpness") (PFloat 0) (PFloat 10) = false)
      /\ (supplied kw "hue" = true ->
         outside (get kw "hue") (PInt (-180)) (PInt 180) = false)
      /\ (truthy (get kw "border") = true ->
         outside (get kw "border") (PInt 1) (PInt 500) = false)
      /\ (truthy (get kw "thumbnail") = true ->
         outside (get kw "thumbnail") (PInt 16) (PInt 4096) = false)).
Proof.
  split; [|split; [|split; [|split]]].
  - intros H. repeat split; apply clamped_step_raises, H.
  - intros H. apply clamped_step_raises, H.
  - intros H. apply clamped_step_raises, H.
  - intros H. apply clamped_step_raises, H.
  - intros env inp out kw s Hs.
    apply process_single_ok in Hs as (img0 & r & _ & Hedit & _).
    repeat split; intros Hasked.
    + destruct (pipeline_step_ran 1 _ _ _ kw img0 r eq_refl Hedit Hasked) as (X & Y & HY).
      now apply clamped_step in HY.
    + destruct (pipeline_step_ran 2 _ _ _ kw img0 r eq_refl Hedit Hasked) as (X & Y & HY).
      now apply clamped_step in HY.
    + destruct (pipeline_step_ran 3 _ _ _ kw img0 r eq_refl Hedit Hasked) as (X & Y & HY).
      now apply clamped_step in HY.
    + destruct (pipeline_step_ran 4 _ _ _ kw img0 r eq_refl Hedit Hasked) as (X & Y & HY).
      now apply clamped_step in HY.
    + destruct (pipeline_step_ran 5 _ _ _ kw img0 r eq_refl Hedit Hasked) as (X & Y & HY).
      now apply clamped_step in HY.
    + destruct (pipeline_step_ran 8 _ _ _ kw img0 r eq_refl Hedit Hasked) as (X & Y & HY).
      now apply clamped_step in HY.
    + destruct (pipeline_step_ran 10 _ _ _ kw img0 r eq_refl Hedit Hasked) as (X & Y & HY).
      now apply clamped_step in HY.
Qed.

(** A brightness of 11.0 and a thumbnail of 8 are refused. *)
Lemma edit_parameters_range_checked_witness :
  let img := mkImage (80, 80) "RGB" false (Call "Image.open" [] []) in
  apply_brightness img (PFloat 11)
    = Raise (Exn ValueError (OutOfRange "brightness" (PFloat 0) (PFloat 10) (PFloat 11)))
  /\ apply_thumbnail img (PInt 8)
    = Raise (Exn ValueError (OutOfRange "thumbnail size" (PInt 16) (PInt 4096) (PInt 8))).
Proof.
  intros img. split.
  - apply (edit_parameters_range_checked img (PFloat 11) PNone). reflexivity.
  - apply (edit_parameters_range_checked img (PInt 8) PNone). reflexivity.
Defined.

End RangeFacts.

(** ** Resizing *)

Section ResizeFacts.

Import Str Pathlib Py Pil Resize.
Local Open Scope string_scope.
Local Open Scope list_scope.
Local Open Scope Z_scope.

(** C7: 50 percent of 1000 by 500 is 500 by 250, and a [max_size] no smaller
    than both sides changes nothing; but fitting 161 by 100 into a
    [max_size] of 100 gives 99 by 62, not a larger side of 100: the ratio
    100/161 is rounded, 161 times it is 99.99999999999999 in binary64, and
    [int] truncates. *)
Theorem resize_max_size_off_by_one :
  new_size 1000 500 (mkParams None None (Some 50%float) None) = Ok (500, 250)
  /\ new_size 80 60 (mkParams None None None (Some 100)) = Ok (80, 60)
  /\ new_size 1000 500 (mkParams None None None (Some 100)) = Ok (100, 50)
  /\ new_size 161 100 (mkParams None None None (Some 100)) = Ok (99, 62)
  /\ (let photo := Path_of "photo.png" in
      let env := mkEnv {[ photo := Fs.File true Utils.PNG_SIGNATURE ]}
                   (fun _ => Some (mkHeader (161, 100) "RGB" false)) false false
                   (fun _ => None) in
      exists s, process_single env photo (Path_of "small.png")
                  (mkParams None None None (Some 100)) = Ok s
                /\ size (picture s) = (99, 62)).
Proof.
  repeat split; try (vm_compute; reflexivity).
  eexists. split; vm_compute; reflexivity.
Qed.

End ResizeFacts.

(** * Properties of the other tools *)

(** ** Suffixes *)

Section SuffixFacts.

Import Str Pathlib.
Local Open Scope string_scope.
Local Arguments String.append !_ _ / : simpl nomatch.

Lemma length_append (s t : string) :
  String.length (s +:+ t) = (String.length s + String.length t)%nat.
Proof. induction s as [|c s IH]; simpl; [reflexivity | now rewrite IH]. Qed.

Lemma rfind_none (c : ascii) (s : string) :
  contains c s = false -> rfind c s = None.
Proof.
  induction s as [|a s IH]; simpl; [reflexivity|].
  intros H. apply orb_false_iff in H as [Ha Hs]. now rewrite (IH Hs), Ha.
Qed.

Lemma rfind_some (c : ascii) (s : string) (i : nat) :
  rfind c s = Some i -> contains c s = true.
Proof.
  revert i; induction s as [|a s IH]; simpl; intros i; [discriminate|].
  destruct (rfind c s) as [j|].
  - intros _. rewrite (IH j eq_refl). apply orb_true_r.
  - destruct (Ascii.eqb a c); [reflexivity | discriminate].
Qed.

(** The last dot of [s.e], when [e] has none, is the one between them. *)
Lemma rfind_append_ext (s e : string) :
  contains "." e = false ->
  rfind "." (s +:+ String "." e) = Some (String.length s).
Proof.
  intros He. induction s as [|a s IH]; simpl.
  - now rewrite (rfind_none _ _ He).
  - now rewrite IH.
Qed.

Lemma substring_append_r (s t : string) :
  substring (String.length s) (String.length t) (s +:+ t) = t.
Proof.
  induction s as [|a s IH]; simpl; [|exact IH].
  induction t as [|b t IHt]; simpl; [reflexivity | now rewrite IHt].
Qed.

Lemma substring_append_l (s t : string) :
  substring 0 (String.length s) (s +:+ t) = s.
Proof.
  induction s as [|a s IH]; simpl; [now destruct t | now rewrite IH].
Qed.

(** A name made of a non-empty text, a dot and an extension without dot has
    that extension as suffix and that text as stem. *)
Lemma suffix_of_ext (s e : string) :
  s <> "" -> e <> "" -> contains "." e = false ->
  suffix_of (s +:+ String "." e) = String "." e
  /\ stem_of (s +:+ String "." e) = s.
Proof.
  intros Hs He Hdot. unfold suffix_of, stem_of.
  rewrite (rfind_append_ext s e Hdot), length_append.
  assert ((0 <? String.length s)%nat = true) as ->.
  { destruct s; [contradiction | reflexivity]. }
  assert ((String.length s <? String.length s + String.length (String "." e) - 1)%nat = true)
    as ->.
  { apply Nat.ltb_lt. destruct e; [contradiction | simpl; lia]. }
  simpl andb. cbv iota.
  replace (String.length s + String.length (String "." e) - String.length s)%nat
    with (String.length (String "." e)) by lia.
  split; [apply substring_append_r | apply substring_append_l].
Qed.

(** A name that ends with a dot has no suffix. *)
Lemma suffix_of_bare_dot (s : string) : suffix_of (s +:+ ".") = "".
Proof.
  unfold suffix_of.
  rewrite (rfind_append_ext s "" eq_refl), length_append. simpl.
  replace (String.length s + 1 - 1)%nat with (String.length s) by lia.
  now rewrite Nat.ltb_irrefl, andb_false_r.
Qed.

Lemma prefix_dot (e : string) : String.prefix "." (String "." e) = true.
Proof. simpl. now destruct e. Qed.

Lemma append_assoc (s t u : string) : (s +:+ t) +:+ u = s +:+ (t +:+ u).
Proof. induction s as [|a s IH]; simpl; [reflexivity | now rewrite IH]. Qed.

Lemma append_nonempty_r (s t : string) : t <> "" -> s +:+ t <> "".
Proof. intros Ht. destruct s; [exact Ht | discriminate]. Qed.

Lemma contains_skip (c : ascii) (s : string) (i n : nat) :
  rfind c s = Some i -> contains c (substring (S i) n s) = false.
Proof.
  revert i n; induction s as [|a s IH]; simpl; intros i n; [discriminate|].
  destruct (rfind c s) as [j|] eqn:E.
  - intros [= <-]. simpl. apply (IH j n eq_refl).
  - destruct (Ascii.eqb a c); [|discriminate]. intros [= <-]. simpl.
    apply contains_substring.
    destruct (contains c s) eqn:Hc; [|reflexivity].
    clear -E Hc. exfalso. induction s as [|b s IH]; simpl in *; [discriminate|].
    destruct (rfind c s); [discriminate|].
    destruct (Ascii.eqb b c); [discriminate|]. simpl in Hc. auto.
Qed.

Lemma substring_cons (s : string) (i n : nat) (c : ascii) (t : string) :
  substring i (S n) s = String c t -> t = substring (S i) n s.
Proof.
  revert i; induction s as [|a s IH]; intros i; simpl.
  - destruct i; discriminate.
  - destruct i as [|i]; [now intros [= _ <-] | apply IH].
Qed.

Lemma substring_length (s : string) (i n : nat) :
  (i + n <= String.length s)%nat -> String.length (substring i n s) = n.
Proof.
  revert i n; induction s as [|a s IH]; intros i n H; simpl in *.
  - assert (i = 0%nat /\ n = 0%nat) as [-> ->] by lia. reflexivity.
  - destruct i as [|i].
    + destruct n as [|n]; [reflexivity|]. simpl. f_equal. apply (IH 0%nat). lia.
    + apply IH. lia.
Qed.

(** A suffix is empty, or a dot followed by a non-empty extension that has
    no dot. *)
Lemma suffix_shape (nm : string) :
  suffix_of nm = ""
  \/ exists e, suffix_of nm = String "." e /\ e <> "" /\ contains "." e = false.
Proof.
  unfold suffix_of.
  destruct (rfind "." nm) as [i|] eqn:E; [|now left].
  destruct ((0 <? i)%nat && (i <? String.length nm - 1)%nat) eqn:Hi; [|now left].
  right. apply andb_true_iff in Hi as [_ Hi]. apply Nat.ltb_lt in Hi.
  replace (String.length nm - i)%nat with (S (String.length nm - i - 1)) by lia.
  destruct (rfind_substring "." nm i (String.length nm - i - 1) E) as [t Ht].
  exists t. split; [exact Ht|].
  pose proof (substring_cons _ _ _ _ _ Ht) as ->. split.
  - intros H. apply (f_equal String.length) in H.
    rewrite substring_length in H by lia. simpl in H. lia.
  - now apply contains_skip.
Qed.

Lemma lower_append (s t : string) : lower (s +:+ t) = lower s +:+ lower t.
Proof. induction s as [|a s IH]; simpl; [reflexivity | now rewrite IH]. Qed.

Lemma lower_char_dot (a : ascii) :
  Ascii.eqb (lower_char a) "." = Ascii.eqb a ".".
Proof. destruct a as [[] [] [] [] [] [] [] []]; reflexivity. Qed.

Lemma contains_dot_lower (s : string) : contains "." (lower s) = contains "." s.
Proof.
  induction s as [|a s IH]; simpl; [reflexivity|]. now rewrite IH, lower_char_dot.
Qed.

Lemma lower_char_idem (a : ascii) : lower_char (lower_char a) = lower_char a.
Proof. destruct a as [[] [] [] [] [] [] [] []]; reflexivity. Qed.

Lemma lower_idem (s : string) : lower (lower s) = lower s.
Proof.
  induction s as [|a s IH]; simpl; [reflexivity|]. now rewrite IH, lower_char_idem.
Qed.

End SuffixFacts.

(** ** The network adapter: extensions and temporary files *)

Section UploadExtension.

Import Str Pathlib Py Api.
Local Open Scope string_scope.
Local Open Scope list_scope.
Local Arguments String.append !_ _ / : simpl nomatch.

(** The guessed extension is a dot and a non-empty extension without dot,
    in lower case. *)
Lemma guess_ext_shape (filename : option string) :
  exists e, _guess_ext filename = String "." e /\ e <> "" /\ contains "." e = false
            /\ lower (_guess_ext filename) = _guess_ext filename.
Proof.
  assert (exists e, ".jpg" = String "." e /\ e <> "" /\ contains "." e = false
                    /\ lower ".jpg" = ".jpg") as Hjpg.
  { exists "jpg". repeat split. discriminate. }
  unfold _guess_ext. destruct (given filename); [|exact Hjpg].
  unfold suffix.
  destruct (suffix_shape (name (Path_of (default "" filename)))) as [-> | (e & -> & He & Hd)].
  - exact Hjpg.
  - change (lower (String "." e)) with (String "." (lower e)).
    cbn [String.eqb Ascii.eqb Bool.eqb negb].
    exists (lower e). repeat split.
    + destruct e; [contradiction | discriminate].
    + now rewrite contains_dot_lower.
    + change (lower (String "." (lower e))) with (String "." (lower (lower e))).
      now rewrite lower_idem.
Qed.

(** The staged upload carries the guessed extension as its suffix. *)
Lemma staged_suffix (id : positive) (filename : option string) :
  tmp_suffix (mkTmp id (_guess_ext filename)) = _guess_ext filename.
Proof.
  destruct (guess_ext_shape filename) as (e & Hg & He & Hd & _).
  unfold tmp_suffix. cbn [tmp_ext]. rewrite Hg.
  apply (suffix_of_ext "tmpXXXXXXXX" e); [discriminate | exact He | exact Hd].
Qed.

Lemma guess_ext_given (filename : option string) :
  negb (String.eqb (_guess_ext filename) "") = true.
Proof. destruct (guess_ext_shape filename) as (e & -> & _). reflexivity. Qed.

(** X1: an endpoint that forces no extension gives its output file the
    extension guessed from the upload's file name (the lower-cased suffix,
    [.jpg] without one), never the [.png] fallback of [_output_path]; when
    the processor succeeds the download is named by the tool and that
    extension. The guessed extension always is a dot followed by a non-empty
    lower-case extension. *)
Theorem output_extension_follows_upload (filename : option string) :
  (exists e, _guess_ext filename = String "." e /\ e <> "" /\ contains "." e = false
             /\ lower (_guess_ext filename) = _guess_ext filename)
  /\ (forall (data : list byte) (td : gmap positive (list byte)),
      exists inp out td',
        _save_upload data (_guess_ext filename) td = (Ok inp, td')
        /\ tmp_suffix inp = _guess_ext filename
        /\ fst (_output_path inp None td') = Ok out
        /\ tmp_ext out = _guess_ext filename
        /\ tmp_suffix out = _guess_ext filename)
  /\ (forall process label data td bytes,
      _validate_upload data = Ok tt -> process data = Ok bytes ->
      exists out,
        tmp_ext out = _guess_ext filename
        /\ image_endpoint process None label filename data td
           = (Ok (FileResponse out (label +:+ _guess_ext filename) None),
              <[tmp_id out := bytes]> td)).
Proof.
  split; [apply guess_ext_shape|]. split.
  - intros data td. eexists _, _, _. split; [apply save_upload_staged|].
    split; [apply staged_suffix|].
    unfold _output_path. cbn [given]. rewrite staged_suffix, guess_ext_given.
    cbn [mkstemp fst]. repeat split. apply staged_suffix.
  - intros process label data td bytes Hv Hp.
    rewrite (image_endpoint_success process None label filename data td bytes Hv Hp).
    cbn [given]. rewrite staged_suffix, guess_ext_given.
    eexists. split; [|unfold _file_response; rewrite staged_suffix; reflexivity].
    reflexivity.
Qed.

(** An upload named [Photo.JPEG]: staged and answered as [.jpeg]. *)
Lemma output_extension_follows_upload_witness :
  exists out,
    tmp_ext out = ".jpeg"
    /\ image_endpoint (fun d => Ok d) None "resized" (Some "Photo.JPEG")
         [xff; xd8; xff; xe0] ∅
       = (Ok (FileResponse out "resized.jpeg" None),
          <[tmp_id out := [xff; xd8; xff; xe0]]> ∅).
Proof.
  destruct (output_extension_follows_upload (Some "Photo.JPEG")) as (_ & _ & H).
  apply (H (fun d => Ok d) "resized" [xff; xd8; xff; xe0] ∅ [xff; xd8; xff; xe0]);
    reflexivity.
Defined.

End UploadExtension.

Section RequestCleanup.

Import Str Pathlib Py Api.
Local Open Scope string_scope.
Local Open Scope list_scope.




End RequestCleanup.

(** ** The name of a default output *)

Section DefaultOutput.

Import Str Pathlib Py Fs Utils.
Local Open Scope string_scope.
Local Open Scope list_scope.
Local Arguments String.append !_ _ / : simpl nomatch.

Lemma parent_joinpath_fragment (p : Path) (s : string) :
  contains "/" s = false -> s <> "" -> s <> "." ->
  parent (joinpath p s) = p.
Proof.
  intros Hs He Hd. rewrite joinpath_fragment by assumption.
  unfold parent. cbn [anchored parts]. rewrite removelast_last. now destruct p.
Qed.

(** A name without suffix is its own stem. *)
Lemma stem_without_suffix (nm : string) : suffix_of nm = "" -> stem_of nm = nm.
Proof.
  intros H. pose proof (stem_suffix nm) as E. rewrite H in E.
  now rewrite append_empty_r in E.
Qed.

(** Where the default output lies and what it is called. *)
Lemma default_output_placed (inp : Path) (suf : string) (ext : option string) :
  wf inp -> fragment suf -> fragment (default "" ext) ->
  parent (default_output inp suf ext) = parent inp
  /\ name (default_output inp suf ext) = synthesized_name inp suf ext.
Proof.
  intros Hwf Hsuf Hext.
  destruct (synthesized_name_component inp suf ext Hwf Hsuf Hext) as (Hc & He & Hd).
  rewrite default_output_synthesized. split.
  - now apply parent_joinpath_fragment.
  - now apply name_joinpath_fragment.
Qed.

Lemma synthesized_with_ext (inp : Path) (suf e : string) :
  e <> "" -> contains "." e = false ->
  suffix_of ((stem inp +:+ "_" +:+ suf) +:+ String "." e) = String "." e
  /\ stem_of ((stem inp +:+ "_" +:+ suf) +:+ String "." e) = stem inp +:+ "_" +:+ suf.
Proof.
  intros He Hd. apply suffix_of_ext; [|exact He | exact Hd].
  apply append_nonempty_r. discriminate.
Qed.

(** A forced extension is the suffix of the default output. *)
Lemma default_output_forced_suffix (inp : Path) (suf e : string) :
  wf inp -> fragment suf -> e <> "" -> contains "." e = false -> fragment e ->
  suffix (default_output inp suf (Some (String "." e))) = String "." e
  /\ stem (default_output inp suf (Some (String "." e))) = stem inp +:+ "_" +:+ suf.
Proof.
  intros Hwf Hsuf He Hd Hfrag.
  destruct (default_output_placed inp suf (Some (String "." e)) Hwf Hsuf Hfrag)
    as [_ Hname].
  unfold suffix, stem at 1. rewrite Hname.
  unfold synthesized_name, dotted. cbn [given String.eqb negb].
  change (default "" (Some (String "." e))) with (String "." e).
  rewrite prefix_dot.
  rewrite <- !append_assoc. rewrite (append_assoc (stem inp) "_" suf).
  apply synthesized_with_ext; assumption.
Qed.

(** X3: the default output lies in the directory of the input and is
    named [{stem}_{suffix}] followed by the extension. A forced extension may
    be written with or without its dot and becomes the suffix of the output;
    without one the output has the suffix of the input; and for an input
    whose name has no suffix the output name ends with a bare dot and has no
    suffix at all. *)
Theorem default_output_extension (inp : Path) (suf : string) :
  wf inp -> fragment suf ->
  (forall e, e <> "" -> contains "." e = false -> fragment e ->
     default_output inp suf (Some e) = default_output inp suf (Some (String "." e))
     /\ parent (default_output inp suf (Some e)) = parent inp
     /\ suffix (default_output inp suf (Some e)) = String "." e
     /\ stem (default_output inp suf (Some e)) = stem inp +:+ "_" +:+ suf)
  /\ (suffix inp <> "" ->
      parent (default_output inp suf None) = parent inp
      /\ suffix (default_output inp suf None) = suffix inp
      /\ stem (default_output inp suf None) = stem inp +:+ "_" +:+ suf)
  /\ (suffix inp = "" ->
      parent (default_output inp suf None) = parent inp
      /\ name (default_output inp suf None) = name inp +:+ "_" +:+ suf +:+ "."
      /\ suffix (default_output inp suf None) = "").
Proof.
  intros Hwf Hsuf. split; [|split].
  - intros e He Hd Hfrag.
    assert (default_output inp suf (Some e) = default_output inp suf (Some (String "." e)))
      as Heq.
    { unfold default_output.
      assert (given (Some e) = true) as ->.
      { simpl. now destruct (String.eqb_spec e ""). }
      cbn [given String.eqb negb].
      change (default "" (Some e)) with e.
      change (default "" (Some (String "." e))) with (String "." e).
      rewrite (prefix_no_sep "." e Hd).
      now rewrite prefix_dot. }
    split; [exact Heq|]. rewrite Heq.
    destruct (default_output_placed inp suf (Some (String "." e)) Hwf Hsuf Hfrag)
      as [Hparent Hname].
    split; [exact Hparent|].
    now apply default_output_forced_suffix.
  - intros Hsfx.
    assert (fragment (default "" (None : option string))) as Hfrag by reflexivity.
    destruct (default_output_placed inp suf None Hwf Hsuf Hfrag) as [Hparent Hname].
    split; [exact Hparent|].
    unfold suffix at 1, stem at 1. rewrite Hname.
    unfold synthesized_name, dotted. cbn [given].
    unfold suffix in *.
    destruct (suffix_shape (name inp)) as [E | (e & E & He & Hd)]; [contradiction|].
    rewrite E, prefix_dot.
    rewrite <- !append_assoc. rewrite (append_assoc (stem inp) "_" suf).
    apply synthesized_with_ext; assumption.
  - intros Hsfx.
    assert (fragment (default "" (None : option string))) as Hfrag by reflexivity.
    destruct (default_output_placed inp suf None Hwf Hsuf Hfrag) as [Hparent Hname].
    split; [exact Hparent|].
    unfold suffix at 1. rewrite Hname.
    unfold synthesized_name, dotted, stem, suffix. cbn [given]. unfold suffix in Hsfx.
    rewrite Hsfx, (stem_without_suffix _ Hsfx). cbn [String.prefix].
    split; [reflexivity|].
    rewrite <- !append_assoc, append_empty_r. apply suffix_of_bare_dot.
Qed.

Lemma default_output_extension_witness :
  default_output (Path_of "shots/photo.jpg") "converted" (Some "png")
    = Path_of "shots/photo_converted.png"
  /\ suffix (default_output (Path_of "shots/photo.jpg") "converted" (Some "png")) = ".png"
  /\ name (default_output (Path_of "scan") "resized" None) = "scan_resized.".
Proof.
  assert (wf (Path_of "shots/photo.jpg")) as Hwf by apply Path_of_wf.
  destruct (default_output_extension (Path_of "shots/photo.jpg") "converted" Hwf eq_refl)
    as (Hext & _).
  destruct (default_output_extension (Path_of "scan") "resized" (Path_of_wf "scan") eq_refl)
    as (_ & _ & Hbare).
  split; [reflexivity|]. split.
  - apply (Hext "png"); [discriminate | reflexivity | reflexivity].
  - apply Hbare. reflexivity.
Defined.

End DefaultOutput.

Section OverwriteGuard.

Import Str Pathlib Py Fs Utils.
Local Open Scope string_scope.
Local Open Scope list_scope.

(** The default output never is the input. *)
Lemma default_output_not_input (inp : Path) (suf : string) (ext : option string) :
  wf inp -> fragment suf -> fragment (default "" ext) ->
  default_output inp suf ext <> inp.
Proof.
  intros Hwf Hsuf Hext E.
  destruct (default_output_placed inp suf ext Hwf Hsuf Hext) as [_ Hname].
  rewrite E in Hname. now apply name_not_synthesized in Hname.
Qed.

(** Without an output argument the default output is the answer. *)
Lemma resolve_output_default (fs : gmap Path node) (inp : Path) (oarg : option string)
    (suf : string) (ext : option string) (ow : bool) :
  wf inp -> fragment suf -> fragment (default "" ext) -> given oarg = false ->
  resolve_output fs inp oarg suf ext ow = Ok (default_output inp suf ext).
Proof.
  intros Hwf Hsuf Hext Hg. rewrite resolve_output_absent by exact Hg.
  now rewrite (bool_decide_eq_false_2 _ (default_output_not_input inp suf ext Hwf Hsuf Hext)).
Qed.

(** X4: output resolution never fails and does not depend on the overwrite
    flag: the default output always differs from the input, so the guard
    that raises "Output would overwrite input" is never taken, whether
    overwriting was allowed or not. *)
Theorem resolve_output_overwrite_unused (fs : gmap Path node) (inp : Path)
    (oarg : option string) (suf : string) (ext : option string) :
  wf inp -> fragment suf -> fragment (default "" ext) ->
  resolve_output fs inp oarg suf ext false = resolve_output fs inp oarg suf ext true
  /\ (forall ow, exists out, resolve_output fs inp oarg suf ext ow = Ok out)
  /\ (forall ow, resolve_output fs inp oarg suf ext ow <> Raise (Exn ValueError WouldOverwrite)).
Proof.
  intros Hwf Hsuf Hext.
  pose proof (default_output_not_input inp suf ext Hwf Hsuf Hext) as Hne.
  assert (forall ow, resolve_output fs inp oarg suf ext ow =
            if given oarg then
              if is_dir fs (Path_of (default "" oarg))
              then Ok (joinpath (Path_of (default "" oarg))
                         (name (default_output inp suf ext)))
              else Ok (Path_of (default "" oarg))
            else Ok (default_output inp suf ext)) as Hres.
  { intros ow. unfold resolve_output. destruct (given oarg); [reflexivity|].
    now rewrite (bool_decide_eq_false_2 _ Hne). }
  split; [now rewrite !Hres|]. split.
  - intros ow. rewrite Hres.
    destruct (given oarg); [destruct (is_dir _ _)|]; eauto.
  - intros ow. rewrite Hres.
    destruct (given oarg); [destruct (is_dir _ _)|]; discriminate.
Qed.

Lemma resolve_output_overwrite_unused_witness :
  resolve_output ∅ (Path_of "photo.jpg") None "compressed" None false
  = resolve_output ∅ (Path_of "photo.jpg") None "compressed" None true.
Proof.
  apply (resolve_output_overwrite_unused ∅ (Path_of "photo.jpg") None "compressed" None);
    [apply Path_of_wf | reflexivity | reflexivity].
Defined.

End OverwriteGuard.

(** ** Paths as text *)

Section PathText.

Import Str Pathlib Py Fs Utils.
Local Open Scope string_scope.
Local Open Scope list_scope.
Local Arguments String.append !_ _ / : simpl nomatch.

Lemma split_append_sep (sep : ascii) (x rest : string) :
  contains sep x = false ->
  split sep (x +:+ String sep rest) = x :: split sep rest.
Proof.
  induction x as [|a x IH]; simpl.
  - intros _. now rewrite Ascii.eqb_refl.
  - intros H. apply orb_false_iff in H as [Ha Hx]. now rewrite Ha, (IH Hx).
Qed.

Lemma split_join (sep : ascii) (cs : list string) :
  cs <> [] -> Forall (fun c => contains sep c = false) cs ->
  split sep (Text.join (String sep "") cs) = cs.
Proof.
  intros Hne H. induction H as [|c cs Hc Hcs IH]; [contradiction|].
  destruct cs as [|d cs].
  - simpl. now apply split_no_sep.
  - unfold Text.join in *.
    assert (String.concat (String sep "") (c :: d :: cs)
            = c +:+ String sep (String.concat (String sep "") (d :: cs))) as ->
      by reflexivity.
    rewrite split_append_sep by exact Hc. f_equal. apply IH. discriminate.
Qed.

Lemma keep_wf_parts (cs : list string) :
  Forall wf_part cs -> List.filter keep_part cs = cs.
Proof.
  induction 1 as [|c cs (Hsep & He & Hd) _ IH]; [reflexivity|].
  cbn [List.filter]. rewrite IH. unfold keep_part.
  destruct (String.eqb_spec c ""); [contradiction|].
  destruct (String.eqb_spec c "."); [contradiction|].
  reflexivity.
Qed.

Lemma wf_parts_no_sep (cs : list string) :
  Forall wf_part cs -> Forall (fun c => contains "/" c = false) cs.
Proof. induction 1 as [|c cs (H & _) _ IH]; constructor; assumption. Qed.

Lemma prefix_first (c a : ascii) (t : string) :
  Ascii.eqb a c = false -> String.prefix (String c "") (String a t) = false.
Proof.
  intros Ha. simpl.
  destruct (ascii_dec c a) as [-> | _]; [now rewrite Ascii.eqb_refl in Ha | reflexivity].
Qed.

Lemma join_relative (c : string) (cs : list string) :
  Forall wf_part (c :: cs) -> String.prefix "/" (Text.join "/" (c :: cs)) = false.
Proof.
  intros H. inversion H as [|? ? (Hsep & He & _) _]; subst.
  destruct c as [|a c]; [contradiction|].
  simpl in Hsep. apply orb_false_iff in Hsep as [Ha _].
  unfold Text.join. assert (exists t, String.concat "/" (String a c :: cs) = String a t)
    as [t ->].
  { cbn [String.concat]. destruct cs; simpl; eauto. }
  now apply prefix_first.
Qed.

(** Parsing the text of a path gives the path back. *)
Lemma Path_of_str (p : Path) : wf p -> Path_of (Text.Path_str p) = p.
Proof.
  destruct p as [[] cs]; unfold wf, Text.Path_str, Path_of; cbn [anchored parts];
    intros Hwf.
  - change (String.prefix "/" ("/" +:+ Text.join "/" cs))
      with (String.prefix "" (Text.join "/" cs)).
    assert (String.prefix "" (Text.join "/" cs) = true) as ->
      by (now destruct (Text.join "/" cs)).
    f_equal. change ("/" +:+ Text.join "/" cs) with ("" +:+ String "/" (Text.join "/" cs)).
    rewrite split_append_sep by reflexivity. cbn [List.filter keep_part String.eqb negb andb].
    destruct cs as [|c cs]; [reflexivity|].
    rewrite split_join; [now apply keep_wf_parts | discriminate | now apply wf_parts_no_sep].
  - destruct cs as [|c cs]; [reflexivity|].
    rewrite join_relative by exact Hwf. f_equal.
    rewrite split_join; [now apply keep_wf_parts | discriminate | now apply wf_parts_no_sep].
Qed.

(** The stem of a name is not empty. *)
Lemma stem_nonempty (nm : string) : nm <> "" -> stem_of nm <> "".
Proof.
  intros Hnm. unfold stem_of.
  destruct (rfind "." nm) as [i|]; [|exact Hnm].
  destruct ((0 <? i)%nat && (i <? String.length nm - 1)%nat) eqn:Hi; [|exact Hnm].
  apply andb_true_iff in Hi as [Hi0 Hi1].
  apply Nat.ltb_lt in Hi0. apply Nat.ltb_lt in Hi1.
  intros E. apply (f_equal String.length) in E.
  rewrite substring_length in E by lia. simpl in E. lia.
Qed.

(** A path with a name, given the suffix [.png]. *)
Lemma with_suffix_png (p : Path) :
  name p <> "" ->
  exists q, Text.with_suffix p ".png" = Ok q
            /\ suffix q = ".png" /\ parent q = parent p
            /\ name q = stem p +:+ ".png".
Proof.
  intros Hname. unfold Text.with_suffix. cbn [contains Ascii.eqb Bool.eqb orb].
  change (String.prefix "." ".png") with true.
  cbn [String.eqb Ascii.eqb Bool.eqb negb andb orb].
  destruct (String.eqb_spec (name p) ""); [contradiction|].
  eexists. split; [reflexivity|].
  assert (name (mkPath (anchored p) (List.removelast (parts p) ++ [stem p +:+ ".png"]))
          = stem p +:+ ".png") as Hnm by (unfold name; cbn [parts]; apply last_last).
  repeat split.
  - unfold suffix. rewrite Hnm.
    apply (suffix_of_ext (stem p) "png"); [|discriminate | reflexivity].
    now apply stem_nonempty.
  - unfold parent. cbn [anchored parts]. now rewrite removelast_last.
  - exact Hnm.
Qed.

End PathText.

(** ** The processors and the decoder *)

Section Decoding.

Import Str Pathlib Py Fs Utils Tool.
Local Open Scope string_scope.
Local Open Scope list_scope.
Local Open Scope Z_scope.

Lemma validate_input_detected (fs : gmap Path node) (p : Path) (max_size : Z) (fmt : format) :
  is_file fs p = true -> st_size fs p <= max_size -> detect_format fs p = Some fmt ->
  validate_input fs p max_size = Ok tt.
Proof. intros Hf Hs Hd. rewrite validate_input_sniffed by assumption. now rewrite Hd. Qed.

(** X5: validation does not look at the optional decoders. A file that the
    sniffer takes for HEIC passes [validate_input], yet without pillow_heif
    every processor stops at [open_image] with the [ImportError] that asks
    for the package, before any of its own parameters is looked at; and the
    same holds for SVG without cairosvg. *)
Theorem optional_decoder_missing (env : Pil.Env) (inp out : Path) (e : exn) :
  (detect_format (Pil.fs env) inp = Some HEIC /\ Pil.has_pillow_heif env = false
   /\ e = Exn ImportError NeedsPillowHeif)
  \/ (detect_format (Pil.fs env) inp = Some SVG /\ Pil.has_cairosvg env = false
      /\ e = Exn ImportError NeedsCairoSvg) ->
  (is_file (Pil.fs env) inp = true -> st_size (Pil.fs env) inp <= MAX_FILE_SIZE ->
   validate_input (Pil.fs env) inp MAX_FILE_SIZE = Ok tt)
  /\ open_image env inp = Raise e
  /\ (forall p, Resize.process_single env inp out p = Raise e)
  /\ (forall quality, Compress.process_single env inp out quality = Raise e)
  /\ (forall kw, Editor.process_single env inp out kw = Raise e)
  /\ (forall scale width height sharpen,
      Upscale.process_single env inp out scale width height sharpen = Raise e)
  /\ (forall py_float p, Crop.process_single py_float env inp out p = Failed (Inner e))
  /\ (forall to_format, Convert.process_single env inp out to_format = Failed (Inner e)).
Proof.
  intros H.
  assert (open_image env inp = Raise e) as Hopen.
  { unfold open_image. destruct H as [(-> & -> & ->) | (-> & -> & ->)]; reflexivity. }
  split.
  - intros Hf Hs. destruct H as [(Hd & _) | (Hd & _)];
      eapply validate_input_detected; eassumption.
  - split; [exact Hopen|].
    unfold Resize.process_single, Compress.process_single, Editor.process_single,
      Upscale.process_single, Crop.process_single, Convert.process_single.
    rewrite Hopen. repeat split; reflexivity.
Qed.

(** A HEIC header in a file, and no pillow_heif. *)
Lemma optional_decoder_missing_witness :
  let photo := Path_of "photo.heic" in
  let env := Pil.mkEnv
               {[ photo := File true ([x00; x00; x00; x18] ++ Str.b "ftypheic") ]}
               (fun _ => Some (Pil.mkHeader (80, 80) "RGB" false)) false false
               (fun _ => None) in
  validate_input (Pil.fs env) photo MAX_FILE_SIZE = Ok tt
  /\ Compress.process_single env photo (Path_of "small.jpg") (PInt 80)
     = Raise (Exn ImportError NeedsPillowHeif).
Proof.
  intros photo env.
  destruct (optional_decoder_missing env photo (Path_of "small.jpg")
              (Exn ImportError NeedsPillowHeif))
    as (Hv & _ & _ & Hc & _).
  { left. repeat split. }
  split; [apply Hv; [reflexivity | vm_compute; discriminate] | apply Hc].
Defined.

End Decoding.

Section JpegModes.

Import Str Pathlib Py Fs Utils Tool.
Local Open Scope string_scope.
Local Open Scope list_scope.
Local Open Scope Z_scope.

Lemma rgb_is_opaque (img : Pil.image) (cond : bool) :
  (cond = false -> Resize.alpha_or_palette (Pil.mode img) = false) ->
  Resize.alpha_or_palette
    (Pil.mode (if cond then Pil.convert "RGB" img else img)) = false.
Proof. destruct cond; [reflexivity | auto]. Qed.

Lemma flattened_for_jpeg (img : Pil.image) (jpeg : bool) :
  jpeg = true ->
  Resize.alpha_or_palette
    (Pil.mode (if jpeg && Resize.alpha_or_palette (Pil.mode img)
               then Pil.convert "RGB" img else img)) = false.
Proof.
  intros ->. apply rgb_is_opaque. simpl. auto.
Qed.

Lemma outcome_bind_done {A B} (m : outcome A) (k : A -> outcome B) (r : B) :
  Tool.bind m k = Done r -> exists a, m = Done a /\ k a = Done r.
Proof. destruct m as [a|f]; simpl; [eauto | discriminate]. Qed.

Lemma lift_done {A} (m : result A) (a : A) : lift m = Done a -> m = Ok a.
Proof. destruct m; simpl; [now intros [= ->] | discriminate]. Qed.

(** X6: compress, resize, crop and convert never hand a picture with an
    alpha channel or a palette (mode RGBA, P or LA) to the encoder when the
    output path ends in [.jpg] or [.jpeg], in any letter case: such a picture
    is converted to RGB first. Upscale converts nothing: what it saves has the
    mode of the decoded input, whatever the suffix of the output. *)
Theorem jpeg_output_is_opaque (env : Pil.Env) (inp out : Path) (s : Pil.saved) :
  (Resize.jpeg_ext (lower (suffix out)) = true ->
     (forall p, Resize.process_single env inp out p = Ok s ->
        Resize.alpha_or_palette (Pil.mode (Pil.picture s)) = false)
     /\ (forall quality, Compress.process_single env inp out quality = Ok s ->
        Resize.alpha_or_palette (Pil.mode (Pil.picture s)) = false)
     /\ (forall py_float p, Crop.process_single py_float env inp out p = Done s ->
        Resize.alpha_or_palette (Pil.mode (Pil.picture s)) = false)
     /\ (forall to_format, Convert.process_single env inp out to_format = Done s ->
        Resize.alpha_or_palette (Pil.mode (Pil.picture s)) = false))
  /\ (forall scale width height sharpen,
      Upscale.process_single env inp out scale width height sharpen = Ok s ->
      exists img, open_image env inp = Ok img
                  /\ Pil.mode (Pil.picture s) = Pil.mode img).
Proof.
  split.
  - intros Hjpeg. repeat split.
    + intros p H. unfold Resize.process_single in H.
      apply bind_ok in H as (img & _ & H). apply bind_ok in H as (dims & _ & H).
      apply bind_ok in H as (resized & _ & H). injection H as <-.
      cbn [Pil.picture]. now apply flattened_for_jpeg.
    + intros quality H. unfold Compress.process_single in H.
      apply bind_ok in H as (img & _ & H). rewrite Hjpeg in H.
      injection H as <-. cbn [Pil.picture]. apply rgb_is_opaque. auto.
    + intros py_float p H. unfold Crop.process_single in H.
      apply outcome_bind_done in H as (img & _ & H).
      apply outcome_bind_done in H as ([[[x0 y0] x1] y1] & _ & H).
      apply outcome_bind_done in H as (cropped & _ & H).
      apply lift_done in H. injection H as <-.
      cbn [Pil.picture]. now apply flattened_for_jpeg.
    + intros to_format H. unfold Convert.process_single in H.
      apply outcome_bind_done in H as (img & _ & H). rewrite Hjpeg in H.
      apply lift_done in H. injection H as <-.
      cbn [Pil.picture]. apply rgb_is_opaque. auto.
  - intros scale width height sharpen H. unfold Upscale.process_single in H.
    apply bind_ok in H as (img & Hopen & H). exists img. split; [exact Hopen|].
    apply bind_ok in H as (dims & _ & H).
    apply bind_ok in H as (resized & Hr & H). injection H as <-.
    cbn [Pil.picture]. unfold Pil.resize in Hr.
    destruct (_ || _); [discriminate|]. injection Hr as <-.
    now destruct sharpen.
Qed.

End JpegModes.

(** ** Cropping *)

Section CropFacts.

Import Str Pathlib Py Fs Utils Tool.
Local Open Scope string_scope.
Local Open Scope list_scope.
Local Open Scope Z_scope.

Variable py_float : string -> result float.
Variable env : Pil.Env.
Variables inp out : Path.

(** The coordinate branch, step by step. *)
Lemma crop_by_coordinates (p : Crop.params) (w h : Z) (img : Pil.image) :
  given (Crop.ratio p) = false -> Crop.width p = Some w -> Crop.height p = Some h ->
  open_image env inp = Ok img ->
  Crop.process_single py_float env inp out p =
    let '(x0, y0, x1, y1) :=
      Crop.clamped_box (Pil.width img) (Pil.height img) (Crop.x p) (Crop.y p) w h in
    Tool.bind (lift (Pil.crop x0 y0 x1 y1 img))
      (fun cropped =>
         lift (Pil.save out [("optimize", PBool true)]
                 (if Resize.jpeg_ext (lower (suffix out))
                     && Resize.alpha_or_palette (Pil.mode cropped)
                  then Pil.convert "RGB" cropped else cropped))).
Proof.
  intros Hr Hw Hh Hopen. unfold Crop.process_single.
  rewrite Hopen, Hr, Hw, Hh. reflexivity.
Qed.

(** X7: cropping by coordinates clamps the requested box to the image:
    what is saved is the part of the picture between the clamped corners, a
    box that lies within the image and is no wider and no higher than asked
    for; with an offset inside the image and a width and height that are not
    negative, the picture handed to the encoder is as wide and as high as
    asked for, or as the image leaves room for. An offset beyond the right or
    the lower edge, or a negative width or height, is not clamped into an
    empty crop: the library refuses the inverted box with a [ValueError]. *)
Theorem crop_box_within_image (p : Crop.params) (w h : Z) (img : Pil.image) :
  given (Crop.ratio p) = false -> Crop.width p = Some w -> Crop.height p = Some h ->
  open_image env inp = Ok img ->
  (forall s, Crop.process_single py_float env inp out p = Done s ->
     exists x0 y0 x1 y1,
       Crop.clamped_box (Pil.width img) (Pil.height img) (Crop.x p) (Crop.y p) w h
         = (x0, y0, x1, y1)
       /\ 0 <= x0 <= x1 /\ x1 <= Pil.width img
       /\ 0 <= y0 <= y1 /\ y1 <= Pil.height img
       /\ Pil.size (Pil.picture s) = (x1 - x0, y1 - y0)
       /\ x1 - x0 <= w /\ y1 - y0 <= h
       /\ Pil.target s = out)
  /\ (0 <= Crop.x p <= Pil.width img -> 0 <= Crop.y p <= Pil.height img ->
      0 <= w -> 0 <= h ->
      exists cropped,
        Crop.process_single py_float env inp out p
        = lift (Pil.save out [("optimize", PBool true)] cropped)
        /\ Pil.size cropped
           = (Z.min w (Pil.width img - Crop.x p), Z.min h (Pil.height img - Crop.y p)))
  /\ (Pil.width img < Crop.x p \/ Pil.height img < Crop.y p \/ w < 0 \/ h < 0 ->
      Crop.process_single py_float env inp out p
      = Failed (Inner (Exn ValueError FromLibrary))).
Proof.
  intros Hr Hw Hh Hopen.
  rewrite (crop_by_coordinates p w h img Hr Hw Hh Hopen).
  unfold Crop.clamped_box, Pil.crop.
  split; [|split].
  - intros s H.
    destruct (Z.ltb_spec (Z.min (Pil.width img) (Crop.x p + w)) (Z.max 0 (Crop.x p)));
      [discriminate|].
    destruct (Z.ltb_spec (Z.min (Pil.height img) (Crop.y p + h)) (Z.max 0 (Crop.y p)));
      [discriminate|].
    cbn [orb lift Tool.bind] in H. unfold Pil.save in H. cbn [lift] in H.
    injection H as <-. eexists _, _, _, _. split; [reflexivity|].
    cbn [Pil.picture Pil.target].
    assert (forall c img', Pil.size (if c : bool then Pil.convert "RGB" img' else img')
                           = Pil.size img') as Hsize by (now intros []).
    rewrite Hsize. cbn [Pil.size]. repeat split; lia.
  - intros Hx Hy Hw0 Hh0.
    destruct (Z.ltb_spec (Z.min (Pil.width img) (Crop.x p + w)) (Z.max 0 (Crop.x p)));
      [lia|].
    destruct (Z.ltb_spec (Z.min (Pil.height img) (Crop.y p + h)) (Z.max 0 (Crop.y p)));
      [lia|].
    cbn [orb lift Tool.bind]. eexists. split; [reflexivity|].
    assert (forall c img', Pil.size (if c : bool then Pil.convert "RGB" img' else img')
                           = Pil.size img') as Hsize by (now intros []).
    rewrite Hsize. cbn [Pil.size]. f_equal; lia.
  - intros Hbad.
    destruct (Z.ltb_spec (Z.min (Pil.width img) (Crop.x p + w)) (Z.max 0 (Crop.x p)));
      [reflexivity|].
    destruct (Z.ltb_spec (Z.min (Pil.height img) (Crop.y p + h)) (Z.max 0 (Crop.y p)));
      [reflexivity|].
    lia.
Qed.

(** X8: the parameters of a crop are looked at only once the input is
    decoded: a failure to open the image comes first, whatever they are. With
    a ratio, the offsets, the width and the height are ignored, and a ratio
    that does not consist of two parts around one colon is refused with a
    [ValueError] that quotes it; without a ratio, a missing width or height is
    refused with the [ValueError] that asks for them. *)
Theorem crop_parameter_errors (p : Crop.params) :
  (forall e, open_image env inp = Raise e ->
     Crop.process_single py_float env inp out p = Failed (Inner e))
  /\ (forall img r, open_image env inp = Ok img ->
      Crop.ratio p = Some r -> r <> "" ->
      (List.length (split ":" r) <> 2%nat ->
         Crop.process_single py_float env inp out p
         = Failed (Own ValueError
             ("Invalid ratio format: " +:+ r +:+ " (expected W:H, e.g. 16:9)")))
      /\ (forall x y w h,
          Crop.process_single py_float env inp out (Crop.mkParams x y w h (Some r))
          = Crop.process_single py_float env inp out p))
  /\ (forall img, open_image env inp = Ok img ->
      given (Crop.ratio p) = false ->
      Crop.width p = None \/ Crop.height p = None ->
      Crop.process_single py_float env inp out p
      = Failed (Own ValueError "Specify --width and --height, or --ratio")).
Proof.
  split; [|split].
  - intros e Hopen. unfold Crop.process_single. now rewrite Hopen.
  - intros img r Hopen Hr Hne.
    assert (given (Some r) = true) as Hg.
    { simpl. now destruct (String.eqb_spec r ""). }
    split.
    + intros Hlen. unfold Crop.process_single.
      rewrite Hopen, Hr, Hg. cbn [lift Tool.bind].
      change (default "" (Some r)) with r.
      destruct (Nat.eqb_spec (List.length (split ":" r)) 2); [contradiction|].
      reflexivity.
    + intros x y w h. unfold Crop.process_single.
      rewrite Hopen, Hr. cbn [Crop.ratio]. now rewrite Hg.
  - intros img Hopen Hg Hmissing. unfold Crop.process_single.
    rewrite Hopen, Hg. cbn [lift Tool.bind].
    destruct Hmissing as [-> | ->]; [reflexivity|].
    now destruct (Crop.width p).
Qed.

End CropFacts.

Section CropExamples.

Import Str Pathlib Py Fs Utils Tool.
Local Open Scope string_scope.
Local Open Scope list_scope.
Local Open Scope Z_scope.

(** A 200 by 100 box asked at (150, 50) of a 300 by 120 picture: 150 by 70
    are left. *)
Lemma crop_box_within_image_witness :
  let photo := Path_of "photo.png" in
  let env := Pil.mkEnv {[ photo := File true PNG_SIGNATURE ]}
               (fun _ => Some (Pil.mkHeader (300, 120) "RGB" false)) false false
               (fun _ => None) in
  exists s,
    Crop.process_single (fun _ => Raise (Exn ValueError FromLibrary)) env photo
      (Path_of "part.png") (Crop.mkParams 150 50 (Some 200) (Some 100) None) = Done s
    /\ Pil.size (Pil.picture s) = (150, 70).
Proof.
  intros photo env.
  destruct (crop_box_within_image (fun _ => Raise (Exn ValueError FromLibrary)) env photo
              (Path_of "part.png") (Crop.mkParams 150 50 (Some 200) (Some 100) None)
              200 100 (Pil.mkImage (300, 120) "RGB" false
                         (Pil.Call "Image.open" [PPath photo] []))
              eq_refl eq_refl eq_refl eq_refl) as (Hs & _ & _).
  eexists. split; [reflexivity|].
  destruct (Hs _ eq_refl) as (x0 & y0 & x1 & y1 & Hbox & _ & _ & _ & _ & Hsize & _).
  vm_compute in Hbox. injection Hbox as <- <- <- <-. exact Hsize.
Defined.

End CropExamples.

(** ** Upscaling *)

Section UpscaleFacts.

Import Str Pathlib Py Fs Utils.
Local Open Scope string_scope.
Local Open Scope list_scope.
Local Open Scope Z_scope.

(** X9: without a target width or height (a zero counts as none), upscale
    multiplies both sides by the factor, so the proportions are kept exactly;
    with both given, the picture gets exactly that size, whatever the factor
    and the proportions of the input. A factor that leaves a side below one
    pixel is refused by the library with a [ValueError]. *)
Theorem upscale_size (env : Pil.Env) (inp out : Path) (factor : Z)
    (width height : option Z) (sharpen : bool) (img : Pil.image) :
  open_image env inp = Ok img ->
  (Upscale.asked width = false -> Upscale.asked height = false ->
     (forall s, Upscale.process_single env inp out factor width height sharpen = Ok s ->
        Pil.size (Pil.picture s) = (Pil.width img * factor, Pil.height img * factor)
        /\ Pil.width (Pil.picture s) * Pil.height img
           = Pil.height (Pil.picture s) * Pil.width img)
     /\ (Pil.width img * factor < 1 \/ Pil.height img * factor < 1 ->
         Upscale.process_single env inp out factor width height sharpen
         = Raise (Exn ValueError FromLibrary)))
  /\ (forall w h s, width = Some w -> height = Some h -> w <> 0 -> h <> 0 ->
      Upscale.process_single env inp out factor width height sharpen = Ok s ->
      Pil.size (Pil.picture s) = (w, h)).
Proof.
  intros Hopen.
  assert (forall c i, Pil.size (if c : bool
            then Pil.filter_with "UnsharpMask" [PFloat 1.5; PInt 50; PInt 3] i else i)
          = Pil.size i) as Hsharp by (now intros []).
  split.
  - intros Hw Hh. unfold Upscale.process_single, Upscale.new_size.
    rewrite Hopen, Hw, Hh. cbn [orb bind fst snd]. unfold Pil.resize.
    split.
    + intros s H.
      destruct (_ || _); [discriminate|]. cbn [bind] in H. injection H as <-.
      unfold Pil.width, Pil.height. cbn [Pil.picture]. rewrite Hsharp.
      cbn [Pil.size fst snd]. split; [reflexivity | lia].
    + intros Hsmall.
      destruct (Z.ltb_spec (Pil.width img * factor) 1); [reflexivity|].
      destruct (Z.ltb_spec (Pil.height img * factor) 1); [reflexivity | lia].
  - intros w h s -> -> Hw Hh. unfold Upscale.process_single, Upscale.new_size, Upscale.asked.
    rewrite Hopen.
    destruct (Z.eqb_spec w 0); [contradiction|]. destruct (Z.eqb_spec h 0); [contradiction|].
    cbn [negb orb andb bind fst snd default]. unfold Pil.resize.
    destruct (_ || _); [discriminate|]. cbn [bind]. intros [= <-].
    cbn [Pil.picture]. now rewrite Hsharp.
Qed.

(** A 300 by 120 picture, twice: 600 by 240. *)
Lemma upscale_size_witness :
  let photo := Path_of "photo.png" in
  let env := Pil.mkEnv {[ photo := File true PNG_SIGNATURE ]}
               (fun _ => Some (Pil.mkHeader (300, 120) "RGB" false)) false false
               (fun _ => None) in
  exists s,
    Upscale.process_single env photo (Path_of "big.png") 2 None None true = Ok s
    /\ Pil.size (Pil.picture s) = (600, 240).
Proof.
  intros photo env.
  destruct (upscale_size env photo (Path_of "big.png") 2 None None true
              (Pil.mkImage (300, 120) "RGB" false (Pil.Call "Image.open" [PPath photo] []))
              eq_refl) as (Hscale & _).
  destruct (Hscale eq_refl eq_refl) as (Hsize & _).
  eexists. split; [reflexivity|].
  apply (Hsize _ eq_refl).
Defined.

End UpscaleFacts.

(** ** Converting *)

Section ConvertFacts.

Import Str Pathlib Py Fs Utils Tool.
Local Open Scope string_scope.
Local Open Scope list_scope.
Local Open Scope Z_scope.

(** The target names the command accepts, with their extension. *)
Lemma cmd_convert_ext_cases (to e : string) :
  Adapters.cmd_convert_ext to = Some e ->
  In (lower to, e) Convert.FORMAT_MAP.
Proof.
  unfold Adapters.cmd_convert_ext, Convert.FORMAT_MAP. cbn [Editor.lookup_fn].
  repeat match goal with
         | |- context [String.eqb ?k (lower to)] =>
             destruct (String.eqb_spec k (lower to)) as [<- | _];
             [intros [= <-]; simpl; tauto|]
         end.
  discriminate.
Qed.

(** X10: convert picks the encoder by the suffix of the output path, not
    by the target format it is given: an output whose lower-cased suffix is
    one of [.jpg .jpeg .png .gif .webp .bmp .tiff .tif] reaches the encoder
    with the full-size picture, any other output is refused with the
    [ValueError] "Unsupported output format". When the command line names a
    target format it accepts (in any letter case) and no output, the output
    is resolved to a path with the extension of that format, and the picture
    is encoded in that format. *)
Theorem convert_encoder_follows_suffix (env : Pil.Env) (inp : Path) (img : Pil.image) :
  open_image env inp = Ok img ->
  (forall out to_format,
     (In (lower (suffix out)) (map snd Convert.FORMAT_MAP) ->
        exists opts pic,
          Convert.process_single env inp out to_format = lift (Pil.save out opts pic)
          /\ Pil.size pic = Pil.size img)
     /\ (~ In (lower (suffix out)) (map snd Convert.FORMAT_MAP) ->
         Convert.process_single env inp out to_format
         = Failed (Own ValueError ("Unsupported output format: " +:+ lower (suffix out)))))
  /\ (forall to e encoder ow,
      wf inp -> Adapters.cmd_convert_ext to = Some e ->
      In (lower to, encoder)
         [("jpg", "JPEG"); ("jpeg", "JPEG"); ("png", "PNG"); ("gif", "GIF");
          ("webp", "WEBP"); ("bmp", "BMP"); ("tiff", "TIFF"); ("tif", "TIFF")] ->
      exists out opts pic,
        resolve_output (Pil.fs env) inp None "converted" (Some e) ow = Ok out
        /\ suffix out = e
        /\ Convert.process_single env inp out (Some (lower to))
           = lift (Pil.save out opts pic)
        /\ get opts "format" = PStr encoder).
Proof.
  intros Hopen. split.
  - intros out to_format. unfold Convert.process_single. rewrite Hopen.
    cbn [lift Tool.bind]. unfold Resize.jpeg_ext.
    split.
    + intros Hin. simpl in Hin.
      destruct Hin as [<- | [<- | [<- | [<- | [<- | [<- | [<- | [<- | []]]]]]]]];
        cbn [String.eqb Ascii.eqb Bool.eqb orb andb];
        eexists _, _; (split; [reflexivity|]);
        repeat match goal with |- context [if ?c then _ else _] => destruct c end;
        reflexivity.
    + intros Hnot. simpl in Hnot.
      repeat match goal with
             | |- context [String.eqb ?x ?k] =>
                 destruct (String.eqb_spec x k) as [E | _];
                 [exfalso; apply Hnot; rewrite E; tauto|]
             end.
      reflexivity.
  - intros to e encoder ow Hwf Hext Henc.
    apply cmd_convert_ext_cases in Hext.
    assert (exists x, e = String "." x /\ x <> "" /\ contains "." x = false
                      /\ fragment x) as (x & -> & Hx & Hd & Hfrag).
    { simpl in Hext.
      destruct Hext as [[= _ <-] | [[= _ <-] | [[= _ <-] | [[= _ <-] | [[= _ <-]
        | [[= _ <-] | [[= _ <-] | [[= _ <-] | []]]]]]]]];
        eexists; (split; [reflexivity|]); repeat split; discriminate. }
    assert (fragment (String "." x)) as Hfrag' by exact Hfrag.
    exists (default_output inp "converted" (Some (String "." x))).
    destruct (default_output_forced_suffix inp "converted" x Hwf eq_refl Hx Hd Hfrag)
      as [Hsfx _].
    unfold Convert.process_single. rewrite Hopen, Hsfx. cbn [lift Tool.bind].
    simpl in Hext, Henc.
    destruct Hext as [[= Hk <-] | [[= Hk <-] | [[= Hk <-] | [[= Hk <-] | [[= Hk <-]
      | [[= Hk <-] | [[= Hk <-] | [[= Hk <-] | []]]]]]]]];
      rewrite <- Hk in Henc;
      destruct Henc as [[= <-] | [[= <-] | [[= <-] | [[= <-] | [[= <-]
        | [[= <-] | [[= <-] | [[= <-] | []]]]]]]]];
      eexists _, _;
      (split; [now apply resolve_output_default|]);
      (split; [reflexivity|]);
      (split; [reflexivity|]); reflexivity.
Qed.

(** [gimg convert shots/photo.PNG --to JPG]: the output is
    [shots/photo_converted.jpg], encoded as JPEG. *)
Lemma convert_encoder_follows_suffix_witness :
  let photo := Path_of "shots/photo.PNG" in
  let env := Pil.mkEnv {[ photo := File true PNG_SIGNATURE ]}
               (fun _ => Some (Pil.mkHeader (300, 120) "RGBA" false)) false false
               (fun _ => None) in
  exists out opts pic,
    resolve_output (Pil.fs env) photo None "converted" (Some ".jpg") false = Ok out
    /\ suffix out = ".jpg"
    /\ Convert.process_single env photo out (Some "jpg") = lift (Pil.save out opts pic)
    /\ get opts "format" = PStr "JPEG".
Proof.
  intros photo env.
  destruct (convert_encoder_follows_suffix env photo
              (Pil.mkImage (300, 120) "RGBA" false (Pil.Call "Image.open" [PPath photo] []))
              eq_refl) as (_ & H).
  apply (H "JPG" ".jpg" "JPEG" false).
  - apply Path_of_wf.
  - reflexivity.
  - simpl. tauto.
Defined.

End ConvertFacts.

(** ** Removing the background *)

Section RemoveBgFacts.

Import Str Pathlib Py Fs Utils Tool.
Local Open Scope string_scope.
Local Open Scope list_scope.
Local Open Scope Z_scope.

(** X11: remove-bg always writes a PNG file. An output path whose suffix
    is [.png] in any letter case is written as given; any other output path
    is replaced by the path with the same directory and stem and the suffix
    [.png], so the file that is written is not the one the caller named (and
    reports). Without the rembg package nothing is read: the [ImportError]
    comes first. *)
Theorem remove_bg_writes_png (new_session : string -> bool) (env : Pil.Env)
    (inp out : Path) (model : string) (alpha_matting : bool) :
  RemoveBg.process_single false new_session env inp out model alpha_matting
    = Failed (Own ImportError "rembg is required: pip install rembg")
  /\ (wf out ->
      forall s,
      RemoveBg.process_single true new_session env inp out model alpha_matting = Done s ->
      lower (suffix (Pil.target s)) = ".png"
      /\ Pil.mode (Pil.picture s) = "RGBA"
      /\ (lower (suffix out) = ".png" -> Pil.target s = out)
      /\ (lower (suffix out) <> ".png" ->
          Pil.target s <> out
          /\ parent (Pil.target s) = parent out
          /\ name (Pil.target s) = stem out +:+ ".png")).
Proof.
  split; [reflexivity|].
  intros Hwf s H. unfold RemoveBg.process_single in H. cbn [negb] in H.
  apply outcome_bind_done in H as (img & _ & H).
  rewrite (Path_of_str out Hwf) in H.
  apply outcome_bind_done in H as (o & Ho & H).
  apply lift_done in H. injection H as <-. cbn [Pil.target Pil.picture].
  destruct (String.eqb_spec (lower (suffix out)) ".png") as [Hpng | Hother];
    cbn [negb] in Ho.
  - injection Ho as <-. repeat split; [exact Hpng | contradiction..].
  - apply lift_done in Ho.
    assert (name out <> "") as Hname.
    { intros E. unfold Text.with_suffix in Ho. rewrite E in Ho. discriminate. }
    destruct (with_suffix_png out Hname) as (q & Hq & Hsfx & Hparent & Hnm).
    rewrite Hq in Ho. injection Ho as <-.
    split; [now rewrite Hsfx|]. split; [reflexivity|].
    split; [contradiction|]. intros _.
    repeat split; try assumption.
    intros E. apply Hother. now rewrite <- E, Hsfx.
Qed.

(** [-o cut/result.jpg]: the picture goes to [cut/result.png]. *)
Lemma remove_bg_writes_png_witness :
  let photo := Path_of "photo.jpg" in
  let env := Pil.mkEnv {[ photo := File true [xff; xd8; xff; xe0] ]}
               (fun _ => Some (Pil.mkHeader (300, 120) "RGB" false)) false false
               (fun _ => None) in
  exists s,
    RemoveBg.process_single true (fun _ => true) env photo (Path_of "cut/result.jpg")
      "u2net" false = Done s
    /\ Pil.target s = Path_of "cut/result.png"
    /\ Pil.target s <> Path_of "cut/result.jpg".
Proof.
  intros photo env.
  destruct (remove_bg_writes_png (fun _ => true) env photo (Path_of "cut/result.jpg")
              "u2net" false) as (_ & H).
  eexists. split; [reflexivity|]. split; [reflexivity|].
  apply (H (Path_of_wf "cut/result.jpg") _ eq_refl). discriminate.
Defined.

End RemoveBgFacts.

(** ** The inputs of a command *)

Section Sorting.

Import Str Pathlib Text.
Local Open Scope string_scope.
Local Open Scope list_scope.

Lemma key_leb_total (k1 k2 : list string) :
  key_leb k1 k2 = false -> key_leb k2 k1 = true.
Proof.
  revert k2; induction k1 as [|c1 k1 IH]; intros [|c2 k2]; simpl; try easy.
  rewrite (String.compare_antisym c2 c1).
  destruct (String.compare c1 c2); simpl; auto; discriminate.
Qed.

Lemma path_leb_total (p q : Path) : path_leb p q = false -> path_leb q p = true.
Proof. apply key_leb_total. Qed.

Lemma insert_sorted_In (p q : Path) (l : list Path) :
  In q (insert_sorted p l) <-> q = p \/ In q l.
Proof.
  induction l as [|r l IH]; simpl; [intuition|].
  destruct (path_leb p r); simpl; [intuition | rewrite IH; intuition].
Qed.

Lemma sorted_In (q : Path) (l : list Path) : In q (sorted l) <-> In q l.
Proof.
  induction l as [|p l IH]; simpl; [reflexivity|].
  rewrite insert_sorted_In, IH. intuition.
Qed.

Lemma sorted_NoDup (l : list Path) : List.NoDup l -> List.NoDup (sorted l).
Proof.
  induction 1 as [|p l Hp Hl IH]; simpl; [constructor|].
  assert (~ In p (sorted l)) as Hp' by now rewrite sorted_In.
  revert Hp' IH. generalize (sorted l) as s. clear.
  induction s as [|r s IHs]; simpl; intros Hp Hs.
  - repeat constructor. tauto.
  - destruct (path_leb p r).
    + constructor; [simpl; tauto | exact Hs].
    + inversion Hs as [|? ? Hr Hs']; subst. constructor.
      * rewrite insert_sorted_In. intros [-> | H]; tauto.
      * apply IHs; tauto.
Qed.

Lemma insert_sorted_ascending (p : Path) (l : list Path) :
  ascending l = true -> ascending (insert_sorted p l) = true.
Proof.
  induction l as [|q l IH]; [reflexivity|].
  intros Hl. cbn [insert_sorted].
  destruct (path_leb p q) eqn:Hpq.
  - cbn [ascending]. now rewrite Hpq.
  - apply path_leb_total in Hpq.
    destruct l as [|r l].
    + cbn [insert_sorted ascending]. now rewrite Hpq.
    + cbn [ascending] in Hl. apply andb_true_iff in Hl as [Hqr Hl].
      specialize (IH Hl). cbn [insert_sorted] in *.
      destruct (path_leb p r).
      * cbn [ascending] in *. now rewrite Hpq, IH.
      * cbn [ascending] in *. now rewrite Hqr, IH.
Qed.

Lemma sorted_ascending (l : list Path) : ascending (sorted l) = true.
Proof.
  induction l as [|p l IH]; [reflexivity|]. now apply insert_sorted_ascending.
Qed.

End Sorting.

Section InputFacts.

Import Str Pathlib Py Fs Utils Tool Inputs.
Local Open Scope string_scope.
Local Open Scope list_scope.

Lemma is_entry_spec (p q : Path) :
  is_entry p q = true <-> parts q <> [] /\ parent q = p.
Proof.
  unfold is_entry, parent. rewrite !andb_true_iff, negb_true_iff.
  rewrite !bool_decide_eq_true, bool_decide_eq_false.
  destruct p as [a cs]. cbn [anchored parts]. split.
  - intros [[Ha Hne] Hcs]. split; [exact Hne | now rewrite Ha, Hcs].
  - intros [Hne [= Ha Hcs]]. auto.
Qed.

Lemma scandir_In (fs : gmap Path node) (p q : Path) :
  In q (scandir fs p) <->
  (exists nd, fs !! q = Some nd) /\ parts q <> [] /\ parent q = p.
Proof.
  unfold scandir. rewrite filter_In, is_entry_spec, in_map_iff.
  split.
  - intros [([q' nd] & <- & Hin) H]. split; [|exact H].
    exists nd. now apply elem_of_map_to_list, list_elem_of_In.
  - intros [[nd Hq] H]. split; [|exact H].
    exists (q, nd). split; [reflexivity|].
    now apply list_elem_of_In, elem_of_map_to_list.
Qed.

(** What a directory resolves to. *)
Lemma directory_files_In (fs : gmap Path node) (p q : Path) :
  In q (Text.sorted (distinct
         (flat_map (fun ext => glob_ext fs p ext ++ glob_ext fs p (Text.upper ext))
            SUPPORTED_READ))) <->
  ((exists nd, fs !! q = Some nd) /\ parts q <> [] /\ parent q = p)
  /\ exists ext, In ext SUPPORTED_READ
       /\ (Text.ends_with ext (name q) = true
           \/ Text.ends_with (Text.upper ext) (name q) = true).
Proof.
  rewrite sorted_In. unfold distinct.
  rewrite <- list_elem_of_In, elem_of_remove_dups, list_elem_of_In, in_flat_map.
  unfold glob_ext. split.
  - intros (ext & Hext & H). apply in_app_iff in H.
    rewrite !filter_In, !scandir_In in H.
    destruct H as [[He H] | [He H]]; (split; [exact He|]); exists ext; auto.
  - intros [He (ext & Hext & H)]. exists ext. split; [exact Hext|].
    apply in_app_iff. rewrite !filter_In, !scandir_In. tauto.
Qed.

Lemma is_dir_not_file (fs : gmap Path node) (p : Path) :
  is_dir fs p = true -> is_file fs p = false.
Proof. unfold is_dir, is_file. now destruct (stat fs p) as [[]|]. Qed.

(** X12: what a command takes for its inputs. An argument that names a
    regular file is that file alone, whatever its extension. One that names a
    directory is the list, in ascending order and without repetition, of
    exactly the entries of that directory (files or not, hidden or not) whose
    name ends with one of the supported extensions written all in lower or
    all in upper case; an entry with a mixed-case extension is left out, and
    a directory without such entries gives the empty list, not an error.
    Anything else is handed to the glob: without a match the answer is the
    [FileNotFoundError] "No files found matching", with matches it is those
    of them that are regular files, in ascending order, possibly none. *)
Theorem resolve_inputs_contract (glob_glob : string -> list string)
    (fs : gmap Path node) (input_arg : string) :
  (is_file fs (Path_of input_arg) = true ->
     resolve_inputs glob_glob fs input_arg = Done [Path_of input_arg])
  /\ (is_dir fs (Path_of input_arg) = true ->
      exists found,
        resolve_inputs glob_glob fs input_arg = Done found
        /\ Text.ascending found = true /\ List.NoDup found
        /\ (forall q, In q found <->
              ((exists nd, fs !! q = Some nd) /\ parts q <> []
               /\ parent q = Path_of input_arg)
              /\ exists ext, In ext SUPPORTED_READ
                   /\ (Text.ends_with ext (name q) = true
                       \/ Text.ends_with (Text.upper ext) (name q) = true)))
  /\ (is_file fs (Path_of input_arg) = false -> is_dir fs (Path_of input_arg) = false ->
      (glob_glob input_arg = [] ->
         resolve_inputs glob_glob fs input_arg
         = Failed (Own FileNotFoundError ("No files found matching: " +:+ input_arg)))
      /\ (glob_glob input_arg <> [] ->
          exists found,
            resolve_inputs glob_glob fs input_arg = Done found
            /\ Text.ascending found = true
            /\ (forall q, In q found <->
                  In q (map Path_of (glob_glob input_arg)) /\ is_file fs q = true))).
Proof.
  split; [|split].
  - intros Hf. unfold resolve_inputs. now rewrite Hf.
  - intros Hd. unfold resolve_inputs. rewrite (is_dir_not_file _ _ Hd), Hd.
    eexists. split; [reflexivity|]. split; [apply sorted_ascending|].
    split; [apply sorted_NoDup, NoDup_ListNoDup, NoDup_remove_dups|].
    intros q. apply directory_files_In.
  - intros Hf Hd. unfold resolve_inputs. rewrite Hf, Hd. split.
    + now intros ->.
    + intros Hne. destruct (glob_glob input_arg) as [|m ms] eqn:E; [contradiction|].
      eexists. split; [reflexivity|]. split; [apply sorted_ascending|].
      intros q. now rewrite sorted_In, filter_In.
Qed.

End InputFacts.

Section InputExamples.

Import Str Pathlib Py Fs Utils Tool Inputs.
Local Open Scope string_scope.
Local Open Scope list_scope.

(** A directory with [a.jpg], [b.JPG], [c.Jpg], a sub-directory [sub.jpg]
    and [notes.txt]: [c.Jpg] and [notes.txt] are left out, the sub-directory
    is taken. *)
Lemma resolve_inputs_contract_witness :
  let fs : gmap Path node :=
    {[ Path_of "d" := Dir;
       Path_of "d/a.jpg" := File true [xff; xd8; xff; xe0];
       Path_of "d/b.JPG" := File true [xff; xd8; xff; xe0];
       Path_of "d/c.Jpg" := File true [xff; xd8; xff; xe0];
       Path_of "d/sub.jpg" := Dir;
       Path_of "d/notes.txt" := File true [] ]} in
  exists found,
    resolve_inputs (fun _ => []) fs "d" = Done found
    /\ found = [Path_of "d/a.jpg"; Path_of "d/b.JPG"; Path_of "d/sub.jpg"]
    /\ Text.ascending found = true.
Proof.
  intros fs.
  destruct (resolve_inputs_contract (fun _ => []) fs "d") as (_ & Hdir & _).
  destruct (Hdir eq_refl) as (found & Hres & Hasc & _).
  exists found. split; [exact Hres|]. split; [|exact Hasc].
  vm_compute in Hres. now injection Hres as <-.
Defined.

End InputExamples.

(** ** The exit status of a command *)

Section ExitStatus.

Import Str Pathlib Py Fs Utils Batch.
Local Open Scope string_scope.
Local Open Scope list_scope.
Local Open Scope Z_scope.

Variable process_fn : Path -> Path -> W unit.
Variable output_arg : option string.
Variable tool_suffix : string.
Variable overwrite : bool.
Variable ext : option string.

Let run := run_batch process_fn output_arg tool_suffix overwrite ext.
Let single := run_single process_fn output_arg tool_suffix overwrite ext.
Let prepare := prepare_output_dir output_arg.
Let exit := main process_fn output_arg tool_suffix overwrite ext.

(** A batch whose output directory could be prepared returns 0 or 2. *)
Lemma run_batch_status (inputs : list Path) (w w0 : World) :
  prepare (Z.of_nat (List.length inputs)) w = (Ok tt, w0) ->
  exists rc w', run inputs w = (Ok rc, w') /\ (rc = 0 \/ rc = 2).
Proof.
  intros Hprep. unfold run, run_batch, sbind at 1. fold prepare. rewrite Hprep.
  unfold sbind at 1.
  destruct (batch_loop_exec process_fn output_arg tool_suffix overwrite ext inputs 1
              (Z.of_nat (List.length inputs)) 0 [] w0)
    as (outs & w1 & errors & _ & _ & _ & ->).
  destruct errors; eexists _, _; (split; [reflexivity|]); auto.
Qed.

Lemma run_batch_unprepared (inputs : list Path) (w w0 : World) (e : exn) :
  prepare (Z.of_nat (List.length inputs)) w = (Raise e, w0) ->
  run inputs w = (Raise e, w0).
Proof.
  intros Hprep. unfold run, run_batch, sbind at 1. fold prepare. now rewrite Hprep.
Qed.

(** A single input returns 0 or raises. *)
Lemma run_single_status (inp : Path) (w : World) :
  (exists w', single inp w = (Ok 0, w')) \/ (exists e w', single inp w = (Raise e, w')).
Proof.
  unfold single, run_single, sbind, lift, print, ret.
  repeat match goal with
         | |- context [match ?m with _ => _ end] =>
             lazymatch m with
             | context [match _ with _ => _ end] => fail
             | _ => destruct m as [[?|?] ?] || destruct m as [?|?]
             end
         end; eauto.
Qed.

(** X13: the exit status of a command is 0, 1 or 2. With no input at all
    (an empty directory) it is 0 and the only output is the line
    "Done: 0/0 succeeded". With one input it is 0, or 1 when any step raised, the
    error being printed after "Error:"; it is never 2. With several inputs it
    is 0 or 2, and 1 only when the output directory could not be made before
    the first item. *)
Theorem main_exit_status (inputs : list Path) (w : World) :
  (fst (exit inputs w) = 0 \/ fst (exit inputs w) = 1 \/ fst (exit inputs w) = 2)
  /\ (inputs = [] ->
      exit inputs w = (0, mkWorld (files w) (console w ++ [Summary 0 0 None])))
  /\ (forall inp, inputs = [inp] ->
      fst (exit inputs w) <> 2
      /\ (fst (exit inputs w) = 1 <->
          exists e w', single inp w = (Raise e, w')
            /\ snd (exit inputs w)
               = mkWorld (files w') (console w' ++ [ErrorLine (str e)])))
  /\ (List.length inputs <> 1%nat -> fst (exit inputs w) = 1 ->
      exists e w0, prepare (Z.of_nat (List.length inputs)) w = (Raise e, w0)).
Proof.
  assert (forall inp, exit [inp] w =
            match single inp w with
            | (Ok rc, w') => (rc, w')
            | (Raise e, w') => (1, mkWorld (files w') (console w' ++ [ErrorLine (str e)]))
            end) as Hone by reflexivity.
  assert (List.length inputs <> 1%nat -> exit inputs w =
            match run inputs w with
            | (Ok rc, w') => (rc, w')
            | (Raise e, w') => (1, mkWorld (files w') (console w' ++ [ErrorLine (str e)]))
            end) as Hmany.
  { intros Hlen. destruct inputs as [|a [|b rest]]; try reflexivity.
    now contradiction Hlen. }
  assert (List.length inputs <> 1%nat ->
          (exists rc w', run inputs w = (Ok rc, w') /\ (rc = 0 \/ rc = 2))
          \/ (exists e w0, prepare (Z.of_nat (List.length inputs)) w = (Raise e, w0)
                /\ run inputs w = (Raise e, w0))) as Hbatch.
  { intros _. destruct (prepare (Z.of_nat (List.length inputs)) w) as [[[]|e] w0] eqn:Hprep.
    - left. now apply (run_batch_status inputs w w0).
    - right. exists e, w0. split; [reflexivity|]. now apply run_batch_unprepared. }
  split; [|split; [|split]].
  - destruct (Nat.eq_dec (List.length inputs) 1%nat) as [Hlen | Hlen].
    + destruct inputs as [|inp [|]]; try discriminate. rewrite Hone.
      destruct (run_single_status inp w) as [(w' & ->) | (e & w' & ->)]; auto.
    + rewrite (Hmany Hlen).
      destruct (Hbatch Hlen) as [(rc & w' & -> & [-> | ->]) | (e & w0 & _ & ->)]; auto.
  - intros ->. unfold exit, main, cmd_tool, run_batch, prepare_output_dir, sbind.
    cbn [List.length Z.of_nat]. now destruct (given output_arg).
  - intros inp ->. rewrite Hone.
    destruct (run_single_status inp w) as [(w' & ->) | (e & w' & ->)]; cbn [fst snd].
    + split; [discriminate|]. split; [discriminate|]. intros (e & w'' & [=] & _).
    + split; [discriminate|]. split; [|reflexivity]. intros _. eauto.
  - intros Hlen. rewrite (Hmany Hlen).
    destruct (Hbatch Hlen) as [(rc & w' & -> & [-> | ->]) | (e & w0 & Hprep & ->)];
      cbn [fst]; try discriminate.
    intros _. eauto.
Qed.

End ExitStatus.

(** ** The helpers of the text tools *)

Section Positions.

Import Str Py Tool Watermark.
Local Open Scope string_scope.
Local Open Scope list_scope.
Local Open Scope Z_scope.

Lemma bottom_right_default (img_w img_h wm_w wm_h margin : Z) :
  default (0, 0)
    (Editor.lookup_fn (positions img_w img_h wm_w wm_h margin) "bottom-right")
  = (img_w - wm_w - margin, img_h - wm_h - margin).
Proof. reflexivity. Qed.

(** X14: a watermark that fits into the image with the margin on both
    sides is placed wholly inside the image at every position, the centre
    included; a position name that is not known is the bottom right corner.
    Nothing is clamped: a watermark wider than the image less the margin gets
    a negative offset at the right-hand positions. *)
Theorem calc_position_inside (pos : string) (img_w img_h wm_w wm_h margin : Z) :
  (0 <= margin -> 0 <= wm_w -> 0 <= wm_h ->
   wm_w + 2 * margin <= img_w -> wm_h + 2 * margin <= img_h ->
   0 <= fst (_calc_position pos img_w img_h wm_w wm_h margin)
   /\ fst (_calc_position pos img_w img_h wm_w wm_h margin) + wm_w <= img_w
   /\ 0 <= snd (_calc_position pos img_w img_h wm_w wm_h margin)
   /\ snd (_calc_position pos img_w img_h wm_w wm_h margin) + wm_h <= img_h)
  /\ (~ In pos ["center"; "top-left"; "top-right"; "bottom-left"; "bottom-right"] ->
      _calc_position pos img_w img_h wm_w wm_h margin
      = (img_w - wm_w - margin, img_h - wm_h - margin))
  /\ (img_w < wm_w + margin ->
      fst (_calc_position "bottom-right" img_w img_h wm_w wm_h margin) < 0
      /\ fst (_calc_position "top-right" img_w img_h wm_w wm_h margin) < 0).
Proof.
  unfold _calc_position. rewrite bottom_right_default.
  unfold positions. cbn [Editor.lookup_fn]. split; [|split].
  - intros Hm Hw Hh Hfw Hfh.
    repeat match goal with
           | |- context [String.eqb ?k pos] => destruct (String.eqb k pos)
           end; cbn [fst snd default];
      repeat split; try lia;
      try (apply Z.div_pos; lia);
      try (assert ((img_w - wm_w) / 2 <= img_w - wm_w)
             by (apply Z.div_le_upper_bound; lia); lia);
      try (assert ((img_h - wm_h) / 2 <= img_h - wm_h)
             by (apply Z.div_le_upper_bound; lia); lia).
  - intros Hnot. simpl in Hnot.
    repeat match goal with
           | |- context [String.eqb ?k pos] =>
               destruct (String.eqb_spec k pos) as [E | _];
               [exfalso; apply Hnot; rewrite <- E; tauto|]
           end.
    reflexivity.
  - intros Hwide. cbn. lia.
Qed.

Lemma calc_position_inside_witness :
  _calc_position "center" 300 120 100 20 10 = (100, 50)
  /\ 0 <= fst (_calc_position "center" 300 120 100 20 10)
  /\ fst (_calc_position "center" 300 120 100 20 10) + 100 <= 300.
Proof.
  split; [reflexivity|].
  destruct (calc_position_inside "center" 300 120 100 20 10) as (H & _).
  destruct H as (Hx0 & Hx1 & _); [lia..|]. split; assumption.
Defined.

End Positions.

Section Sanitizing.

Import Str Py Tool.
Local Open Scope list_scope.

Lemma firstn_short {A} (n : nat) (l : list A) :
  (List.length l <= n)%nat -> firstn n l = l.
Proof.
  revert n; induction l as [|a l IH]; intros [|n] H; simpl in *; try reflexivity; try lia.
  f_equal. apply IH. lia.
Qed.

Lemma filter_clean {A} (f : A -> bool) (l : list A) :
  Forall (fun a => f a = true) l -> List.filter f l = l.
Proof.
  induction 1 as [|a l Ha _ IH]; simpl; [reflexivity|]. now rewrite Ha, IH.
Qed.

Lemma filter_is_clean {A} (f : A -> bool) (l : list A) :
  Forall (fun a => f a = true) (List.filter f l).
Proof.
  induction l as [|a l IH]; simpl; [constructor|].
  destruct (f a) eqn:Ha; [constructor|]; assumption.
Qed.

Lemma firstn_Forall {A} (P : A -> Prop) (n : nat) (l : list A) :
  Forall P l -> Forall P (firstn n l).
Proof.
  intros H. revert n; induction H as [|a l Ha _ IH]; intros [|n]; simpl; constructor; auto.
Qed.

(** What cutting the clean part of a text to [n] characters gives. *)
Lemma sanitized (n : nat) (text : list N) :
  let s := firstn n (List.filter (fun c => negb (Watermark.is_control c)) text) in
  (List.length s <= n)%nat
  /\ Forall (fun c => Watermark.is_control c = false) s
  /\ firstn n (List.filter (fun c => negb (Watermark.is_control c)) s) = s
  /\ (Forall (fun c => Watermark.is_control c = false) text ->
      (List.length text <= n)%nat -> s = text).
Proof.
  intros s.
  assert (Forall (fun c => negb (Watermark.is_control c) = true) s) as Hclean
    by apply firstn_Forall, filter_is_clean.
  assert (List.length s <= n)%nat as Hlen by (unfold s; rewrite length_firstn; lia).
  split; [exact Hlen|]. split; [|split].
  - eapply List.Forall_impl; [|exact Hclean]. intros c H. now apply negb_true_iff in H.
  - rewrite (filter_clean _ s Hclean). now apply firstn_short.
  - intros Htext Hshort. unfold s. rewrite filter_clean; [now apply firstn_short|].
    eapply List.Forall_impl; [|exact Htext]. intros c H. now apply negb_true_iff.
Qed.

(** X15: a sanitized watermark text has no control character (code points
    0 to 31 and 127 to 159) and at most 500 characters, a sanitized meme text
    at most 200; the cut comes after the removal, so control characters do
    not count against the limit. Sanitizing twice changes nothing more, and a
    text that is clean and short enough is left as it is. *)
Theorem sanitize_text_clean (text : list N) :
  ((List.length (Watermark._sanitize_text text) <= 500)%nat
   /\ Forall (fun c => Watermark.is_control c = false) (Watermark._sanitize_text text)
   /\ Watermark._sanitize_text (Watermark._sanitize_text text)
      = Watermark._sanitize_text text
   /\ (Forall (fun c => Watermark.is_control c = false) text ->
       (List.length text <= 500)%nat -> Watermark._sanitize_text text = text))
  /\ ((List.length (Meme._sanitize_text text) <= 200)%nat
      /\ Forall (fun c => Watermark.is_control c = false) (Meme._sanitize_text text)
      /\ Meme._sanitize_text (Meme._sanitize_text text) = Meme._sanitize_text text
      /\ (Forall (fun c => Watermark.is_control c = false) text ->
          (List.length text <= 200)%nat -> Meme._sanitize_text text = text))
  /\ (forall junk,
      Forall (fun c => Watermark.is_control c = true) junk ->
      Watermark._sanitize_text (junk ++ text) = Watermark._sanitize_text text
      /\ Meme._sanitize_text (junk ++ text) = Meme._sanitize_text text).
Proof.
  split; [apply (sanitized 500 text)|]. split; [apply (sanitized 200 text)|].
  intros junk Hjunk. unfold Watermark._sanitize_text, Meme._sanitize_text.
  rewrite List.filter_app.
  assert (List.filter (fun c => negb (Watermark.is_control c)) junk = []) as ->.
  { induction Hjunk as [|c junk Hc _ IH]; simpl; [reflexivity|]. now rewrite Hc. }
  split; reflexivity.
Qed.

End Sanitizing.

Section KernelSize.

Import BlurFace.
Local Open Scope Z_scope.

(** X16: the blur kernel size is odd and at least 3 for every strength,
    negative ones included: it is the strength, raised to 3 if smaller, plus
    one if that is even. *)
Theorem ksize_odd (strength : Z) :
  ksize strength mod 2 = 1
  /\ 3 <= ksize strength
  /\ Z.max 3 strength <= ksize strength <= Z.max 3 strength + 1
  /\ (forall n, _ensure_odd n mod 2 = 1 /\ n <= _ensure_odd n <= n + 1)
  /\ (strength mod 2 = 1 -> 3 <= strength -> ksize strength = strength).
Proof.
  assert (forall n, _ensure_odd n mod 2 = 1 /\ n <= _ensure_odd n <= n + 1) as Hodd.
  { intros n. unfold _ensure_odd.
    destruct (Z.eqb_spec (n mod 2) 1) as [E | E]; [lia|].
    pose proof (Z.mod_pos_bound n 2 ltac:(lia)) as Hb.
    assert (n mod 2 = 0) as E0 by lia.
    split; [|lia].
    rewrite <- Z.add_mod_idemp_l, E0 by lia. reflexivity. }
  unfold ksize. destruct (Hodd (Z.max 3 strength)) as [Hm Hb].
  repeat split; try lia; try apply Hodd.
  intros Hs H3. unfold _ensure_odd.
  replace (Z.max 3 strength) with strength by lia.
  now rewrite Hs.
Qed.

End KernelSize.

(** ** More on the edit pipeline *)

Section ClampEdges.

Import Str Pathlib Py Pil Editor.
Local Open Scope string_scope.
Local Open Scope list_scope.
Local Open Scope Z_scope.

(** A NaN is neither below nor above any number. *)
Lemma nan_not_below (y : num) : num_lt (NFloat nan) y = false.
Proof. destruct y; simpl; rewrite ltb_spec; reflexivity. Qed.

Lemma nan_not_above (x : num) : num_lt x (NFloat nan) = false.
Proof.
  destruct x as [a | f]; simpl; rewrite ltb_spec; change (Prim2SF nan) with S754_nan;
    unfold SFltb, SFcompare.
  - now destruct (Prim2SF (float_of_Z a)) as [| | |[] ? ?].
  - now destruct (Prim2SF f) as [| | |[] ? ?].
Qed.

Lemma clamp_nan (lo hi : pyval) (name : string) (x y : num) :
  as_num lo = Some x -> as_num hi = Some y ->
  _clamp (PFloat nan) lo hi name = Ok (PFloat nan).
Proof.
  intros Hlo Hhi. unfold _clamp, py_lt. cbn [as_num]. rewrite Hlo, Hhi.
  cbn [bind]. now rewrite nan_not_below, nan_not_above.
Qed.

(** X17: the range check compares with [<] and [>] only, so a NaN, which
    is neither below nor above any bound, passes it whatever the bounds, those
    of the hue included: a brightness, contrast, saturation or sharpness of
    NaN is handed to the enhancer as it is. A value that is no number at all
    (a text, [None]) does not fail with the [ValueError] of the range check
    but with the [TypeError] of the comparison. *)
Theorem clamp_accepts_nan (lo hi : pyval) (name : string) :
  (forall x y, as_num lo = Some x -> as_num hi = Some y ->
     _clamp (PFloat nan) lo hi name = Ok (PFloat nan))
  /\ (forall img,
      apply_brightness img (PFloat nan) = Ok (enhance "Brightness" (PFloat nan) img)
      /\ apply_contrast img (PFloat nan) = Ok (enhance "Contrast" (PFloat nan) img)
      /\ apply_saturation img (PFloat nan) = Ok (enhance "Color" (PFloat nan) img)
      /\ apply_sharpness img (PFloat nan) = Ok (enhance "Sharpness" (PFloat nan) img))
  /\ (forall val x y, as_num lo = Some x -> as_num hi = Some y -> as_num val = None ->
      _clamp val lo hi name = Raise (Exn TypeError FromLibrary)).
Proof.
  split; [|split].
  - intros x y. apply clamp_nan.
  - intros img.
    unfold apply_brightness, apply_contrast, apply_saturation, apply_sharpness.
    pose proof (clamp_nan (PFloat 0) (PFloat 10)) as Hfactor.
    rewrite (Hfactor "brightness" (NFloat 0) (NFloat 10) eq_refl eq_refl),
      (Hfactor "contrast" (NFloat 0) (NFloat 10) eq_refl eq_refl),
      (Hfactor "saturation" (NFloat 0) (NFloat 10) eq_refl eq_refl),
      (Hfactor "sharpness" (NFloat 0) (NFloat 10) eq_refl eq_refl).
    cbn [bind]. repeat split.
  - intros val x y _ _ Hval. unfold _clamp, py_lt. now rewrite Hval.
Qed.

End ClampEdges.

Section PipelineInvariants.

Import Str Pathlib Py Pil Editor.
Local Open Scope string_scope.
Local Open Scope list_scope.
Local Open Scope Z_scope.

(** A relation between the picture before and after that every step that
    was asked for keeps, is kept by the pipeline. *)
Lemma run_pipeline_keeps (R : image -> image -> Prop) steps (kw : kwargs) :
  (forall i, R i i) -> (forall i j k, R i j -> R j k -> R i k) ->
  Forall (fun step : string * (kwargs -> bool) * (kwargs -> image -> result image) =>
            snd (fst step) kw = true ->
            forall i r, snd step kw i = Ok r -> R i r) steps ->
  forall img r, run_pipeline steps kw img = Ok r -> R img r.
Proof.
  intros Hrefl Htrans Hsteps.
  induction Hsteps as [|[[nm asked] step] rest Hstep _ IH]; intros img r H.
  - injection H as <-. apply Hrefl.
  - cbn [run_pipeline] in H. apply bind_ok in H as (mid & Hmid & H).
    apply (Htrans img mid r); [|now apply IH].
    cbn [fst snd] in Hstep. unfold when in Hmid.
    destruct (asked kw); [now apply Hstep | injection Hmid as <-; apply Hrefl].
Qed.

Lemma clamped_size (val lo hi : pyval) (name : string) (pic i r : image) :
  bind (_clamp val lo hi name) (fun _ => Ok pic) = Ok r ->
  size pic = size i -> size r = size i.
Proof.
  intros H Hs. apply bind_ok in H as (v & _ & H). now injection H as <-.
Qed.

Lemma merge_size (m : string) (b0 : image) (bands : list image) :
  size (merge m (b0 :: bands)) = size b0.
Proof. reflexivity. Qed.

Lemma apply_filter_size (i r : image) (v : pyval) :
  apply_filter i v = Ok r -> size r = size i.
Proof.
  unfold apply_filter. destruct v as [| | | |n|]; try discriminate.
  destruct (existsb _ _); [|discriminate].
  unfold _FILTER_MAP. cbn [lookup_fn].
  repeat match goal with
         | |- context [String.eqb ?k n] =>
             destruct (String.eqb k n);
             [intros [= <-]; try reflexivity; unfold _invert;
              now destruct (String.eqb (mode i) "RGBA") |]
         end.
  discriminate.
Qed.

Lemma apply_flip_size (i r : image) (v : pyval) :
  apply_flip i v = Ok r -> size r = size i.
Proof.
  unfold apply_flip. destruct v as [| | | |d|]; try discriminate.
  destruct (String.eqb d "horizontal"); [now intros [= <-]|].
  destruct (String.eqb d "vertical"); [now intros [= <-] | discriminate].
Qed.

Lemma apply_auto_enhance_size (i : image) : size (apply_auto_enhance i) = size i.
Proof. unfold apply_auto_enhance. now destruct (String.eqb (mode i) "RGBA"). Qed.

Lemma unpalette_size (i : image) : size (unpalette i) = size i.
Proof. unfold unpalette. now destruct (String.eqb (mode i) "P"). Qed.

(** X18: the adjustments, the filters, the flip and auto-enhance never
    change the size of the picture: an edit without border, frame and
    thumbnail saves a picture of exactly the size of the input, whichever of
    the other steps were asked for. *)
Theorem edit_keeps_size (kw : kwargs) :
  truthy (get kw "border") = false -> truthy (get kw "frame") = false ->
  truthy (get kw "thumbnail") = false ->
  (forall img r, edit kw img = Ok r -> size r = size img)
  /\ (forall env inp out s,
      process_single env inp out kw = Ok s ->
      exists img, Utils.open_image env inp = Ok img
                  /\ size (picture s) = size img).
Proof.
  intros Hb Hf Ht.
  assert (forall img r, edit kw img = Ok r -> size r = size img) as Hedit.
  { intros img r H. rewrite edit_pipeline in H. rewrite <- (unpalette_size img).
    symmetry.
    apply (run_pipeline_keeps (fun i r => size i = size r) PIPELINE kw) in H;
      [exact H | reflexivity | intros; congruence |].
    unfold PIPELINE. repeat constructor; cbn [fst snd]; intros Hasked i r' Hstep;
      try congruence; symmetry.
    - injection Hstep as <-. apply apply_auto_enhance_size.
    - eapply clamped_size; [exact Hstep | reflexivity].
    - eapply clamped_size; [exact Hstep | reflexivity].
    - eapply clamped_size; [exact Hstep | reflexivity].
    - eapply clamped_size; [exact Hstep | reflexivity].
    - unfold apply_hue in Hstep. eapply clamped_size; [exact Hstep|].
      now destruct (negb (String.eqb (mode i) "RGB")).
    - now apply apply_filter_size in Hstep.
    - now apply apply_flip_size in Hstep. }
  split; [exact Hedit|].
  intros env inp out s H.
  apply process_single_ok in H as (img & r & Hopen & Hr & Hsize & _).
  exists img. split; [exact Hopen|]. rewrite Hsize. now apply Hedit.
Qed.

(** A 300 by 120 picture, brighter, sharpened and in sepia: 300 by 120. *)
Lemma edit_keeps_size_witness :
  let photo := Path_of "photo.png" in
  let env := mkEnv {[ photo := Fs.File true Utils.PNG_SIGNATURE ]}
               (fun _ => Some (mkHeader (300, 120) "RGB" false)) false false
               (fun _ => None) in
  let kw := [("brightness", PFloat 1.2); ("sharpness", PFloat 2);
             ("filter_name", PStr "sepia")] in
  exists s, process_single env photo (Path_of "edited.png") kw = Ok s
            /\ size (picture s) = (300, 120).
Proof.
  intros photo env kw.
  destruct (edit_keeps_size kw eq_refl eq_refl eq_refl) as (_ & H).
  eexists. split; [reflexivity|].
  destruct (H env photo (Path_of "edited.png") _ eq_refl) as (img & Hopen & Hsize).
  vm_compute in Hopen. injection Hopen as <-. exact Hsize.
Defined.

End PipelineInvariants.

Section FrameModes.

Import Str Pathlib Py Pil Editor.
Local Open Scope string_scope.
Local Open Scope list_scope.
Local Open Scope Z_scope.

(** Every frame is painted on an RGB canvas. *)
Lemma apply_frame_rgb (i r : image) (v : pyval) :
  apply_frame i v = Ok r -> mode r = "RGB".
Proof.
  unfold apply_frame. destruct v as [| | | |n|]; try discriminate.
  unfold FRAME_MAP. cbn [lookup_fn].
  destruct (String.eqb "polaroid" n).
  { unfold apply_frame_polaroid. destruct (size (convert "RGB" i)) as [w h].
    intros H. apply bind_ok in H as (m & _ & H). now injection H as <-. }
  destruct (String.eqb "rounded" n).
  { unfold apply_frame_rounded. destruct (size (convert "RGBA" i)) as [w h].
    intros H. apply bind_ok in H as (m & _ & H). now injection H as <-. }
  destruct (String.eqb "shadow" n); [|discriminate].
  unfold apply_frame_shadow. destruct (size (convert "RGB" i)) as [w h].
  intros H. apply bind_ok in H as (m & _ & H). now injection H as <-.
Qed.

(** X19: no alpha channel survives a frame or a thumbnail: when either was
    asked for, the edited picture is RGB, whatever the mode of the input and
    the other steps, so the flattening onto white that precedes a JPEG save is
    never needed and what is saved is the edited picture itself. *)
Theorem framed_or_thumbnailed_is_rgb (kw : kwargs) :
  truthy (get kw "frame") = true \/ truthy (get kw "thumbnail") = true ->
  (forall img r, edit kw img = Ok r -> mode r = "RGB")
  /\ (forall env inp out s,
      process_single env inp out kw = Ok s ->
      mode (picture s) = "RGB"
      /\ exists img, Utils.open_image env inp = Ok img
                     /\ edit kw img = Ok (picture s)).
Proof.
  intros Hasked.
  assert (forall img r, edit kw img = Ok r -> mode r = "RGB") as Hmode.
  { intros img r H. rewrite edit_pipeline, (run_pipeline_split 9) in H.
    apply bind_ok in H as (X & _ & H).
    cbv [skipn PIPELINE run_pipeline] in H.
    apply bind_ok in H as (F & HF & H). apply bind_ok in H as (T & HT & H).
    injection H as <-. unfold when in HF, HT.
    destruct (truthy (get kw "thumbnail")).
    - now apply apply_thumbnail_ok in HT as (n & x0 & y0 & x1 & y1 & _ & _ & _ & _ & Hm & _).
    - injection HT as <-. destruct (truthy (get kw "frame")).
      + now apply apply_frame_rgb in HF.
      + destruct Hasked; discriminate. }
  split; [exact Hmode|].
  intros env inp out s H.
  apply process_single_ok in H as (img & r & Hopen & Hr & _ & Hpic).
  rewrite (Hpic (Hmode img r Hr)). split; [now apply (Hmode img)|].
  exists img. now split.
Qed.

(** A palette picture with transparency, rounded: RGB. *)
Lemma framed_or_thumbnailed_is_rgb_witness :
  let photo := Path_of "logo.png" in
  let env := mkEnv {[ photo := Fs.File true Utils.PNG_SIGNATURE ]}
               (fun _ => Some (mkHeader (300, 120) "P" true)) false false
               (fun _ => None) in
  exists s, process_single env photo (Path_of "logo_round.png") [("frame", PStr "rounded")]
              = Ok s
            /\ mode (picture s) = "RGB".
Proof.
  intros photo env.
  destruct (framed_or_thumbnailed_is_rgb [("frame", PStr "rounded")]) as (_ & H);
    [now left|].
  eexists. split; [vm_compute; reflexivity|].
  now apply (H env photo (Path_of "logo_round.png") _ eq_refl).
Defined.

End FrameModes.

Section EditAdapters.

Import Str Pathlib Py Pil Editor Adapters.
Local Open Scope string_scope.
Local Open Scope list_scope.
Local Open Scope Z_scope.

(** A pipeline none of whose steps is asked for does nothing. *)
Lemma run_pipeline_idle steps (kw : kwargs) :
  existsb (fun step : string * (kwargs -> bool) * (kwargs -> image -> result image) =>
             snd (fst step) kw) steps = false ->
  forall i, run_pipeline steps kw i = Ok i.
Proof.
  induction steps as [|[[nm asked] step] rest IH]; intros Hnone i; [reflexivity|].
  cbn [existsb fst snd] in Hnone. apply orb_false_iff in Hnone as [Ha Hrest].
  cbn [run_pipeline]. rewrite Ha. cbn [when bind]. now apply IH.
Qed.

(** X20: the command line accepts an edit exactly when the pipeline has
    something to do: [has_edit] holds if and only if one of the eleven steps
    is asked for by the arguments the command passes on. A border, a
    thumbnail or a filter that is zero or empty does not count, nor does a
    border colour alone; and with nothing asked for the edit is the input
    picture (a palette apart), re-encoded. *)
Theorem has_edit_iff_step_asked (args : edit_args) :
  has_edit args
  = existsb (fun step : string * (kwargs -> bool) * (kwargs -> image -> result image) =>
               snd (fst step) (cmd_edit_kwargs args)) PIPELINE
  /\ (has_edit args = false ->
      forall img, edit (cmd_edit_kwargs args) img = Ok (unpalette img))
  /\ (forall color,
      has_edit (mkEditArgs PNone PNone PNone PNone PNone PNone PNone (PBool false)
                  (PInt 0) color PNone (PInt 0)) = false).
Proof.
  assert (has_edit args
          = existsb (fun step : string * (kwargs -> bool) * (kwargs -> image -> result image) =>
               snd (fst step) (cmd_edit_kwargs args)) PIPELINE) as Heq.
  { destruct args as [br co sa sh hu fi fl ae bo bc fr th].
    unfold has_edit, PIPELINE, cmd_edit_kwargs, supplied, get.
    cbn [existsb fst snd lookup_kw String.eqb Ascii.eqb Bool.eqb
         Adapters.brightness Adapters.contrast Adapters.saturation Adapters.sharpness
         Adapters.hue Adapters.filter Adapters.flip Adapters.auto_enhance
         Adapters.border Adapters.frame Adapters.thumbnail].
    destruct (truthy ae), (is_none br), (is_none co), (is_none sa), (is_none sh),
      (is_none hu), (truthy fi), (truthy fl), (truthy bo), (truthy fr), (truthy th);
      reflexivity. }
  split; [exact Heq|]. split.
  - intros Hnone img. rewrite Heq in Hnone. rewrite edit_pipeline.
    now apply run_pipeline_idle.
  - reflexivity.
Qed.

Lemma get_app (kw1 kw2 : kwargs) (k : string) :
  get (kw1 ++ kw2) k =
    match lookup_kw kw1 k with Some v => v | None => get kw2 k end.
Proof.
  unfold get. induction kw1 as [|[k' v] kw1 IH]; simpl; [reflexivity|].
  destruct (String.eqb k' k); [reflexivity | exact IH].
Qed.

Lemma get_default_app (kw1 kw2 : kwargs) (k : string) (d : pyval) :
  get_default (kw1 ++ kw2) k d =
    match lookup_kw kw1 k with Some v => v | None => get_default kw2 k d end.
Proof.
  unfold get_default. induction kw1 as [|[k' v] kw1 IH]; simpl; [reflexivity|].
  destruct (String.eqb k' k); [reflexivity | exact IH].
Qed.

Lemma lookup_unless_none (k k' : string) (v : pyval) :
  lookup_kw (unless_none k v) k' =
    if String.eqb k k' && negb (is_none v) then Some v else None.
Proof.
  unfold unless_none. destruct (is_none v); simpl; [now rewrite andb_false_r|].
  now rewrite andb_true_r.
Qed.

Section SameArguments.

Variables brightness contrast saturation sharpness filter border border_color
  frame flip : pyval.
Variable auto_enhance : bool.
Variable thumbnail : pyval.

Let form : kwargs :=
  api_edit_kwargs brightness contrast saturation sharpness filter border
    border_color frame flip auto_enhance thumbnail.

Let command : kwargs :=
  cmd_edit_kwargs
    (mkEditArgs brightness contrast saturation sharpness PNone filter flip
       (PBool auto_enhance) border
       (if is_none border_color then PStr "white" else border_color)
       frame thumbnail).

Ltac same_key v :=
  unfold form, command, api_edit_kwargs;
  rewrite ?get_app, ?get_default_app, ?lookup_unless_none;
  destruct auto_enhance, thumbnail, v; reflexivity.

Lemma same_brightness : get form "brightness" = get command "brightness".
Proof. same_key brightness. Qed.

Lemma same_contrast : get form "contrast" = get command "contrast".
Proof. same_key contrast. Qed.

Lemma same_saturation : get form "saturation" = get command "saturation".
Proof. same_key saturation. Qed.

Lemma same_sharpness : get form "sharpness" = get command "sharpness".
Proof. same_key sharpness. Qed.

Lemma same_hue : get form "hue" = get command "hue".
Proof. same_key tt. Qed.

Lemma same_filter : get form "filter_name" = get command "filter_name".
Proof. same_key filter. Qed.

Lemma same_flip : get form "flip" = get command "flip".
Proof. same_key flip. Qed.

Lemma same_auto_enhance : truthy (get form "auto_enhance") = truthy (get command "auto_enhance").
Proof. same_key tt. Qed.

Lemma same_border : get form "border" = get command "border".
Proof. same_key border. Qed.

Lemma same_border_color :
  get_default form "border_color" (PStr "white")
  = get_default command "border_color" (PStr "white").
Proof. same_key border_color. Qed.

Lemma same_frame : get form "frame" = get command "frame".
Proof. same_key frame. Qed.

Lemma same_thumbnail : get form "thumbnail" = get command "thumbnail".
Proof. same_key tt. Qed.

End SameArguments.

(** X21: the web form runs the same edit as the command line without
    [--hue]: passing only the fields that were sent (and the border colour
    only when it was) has the effect of passing all of them, the missing ones
    as [None] and the border colour as white; in particular no edit through
    the form shifts the hue. *)
Theorem api_edit_matches_cli (brightness contrast saturation sharpness filter border
    border_color frame flip : pyval) (auto_enhance : bool) (thumbnail : pyval) :
  (forall img,
     edit (api_edit_kwargs brightness contrast saturation sharpness filter border
             border_color frame flip auto_enhance thumbnail) img
     = edit (cmd_edit_kwargs
               (mkEditArgs brightness contrast saturation sharpness PNone filter flip
                  (PBool auto_enhance) border
                  (if is_none border_color then PStr "white" else border_color)
                  frame thumbnail)) img)
  /\ supplied (api_edit_kwargs brightness contrast saturation sharpness filter border
                 border_color frame flip auto_enhance thumbnail) "hue" = false.
Proof.
  split.
  - intros img. unfold edit, supplied.
    rewrite same_brightness, same_contrast, same_saturation, same_sharpness, same_hue,
      same_filter, same_flip, same_auto_enhance, same_border, same_border_color,
      same_frame, same_thumbnail.
    reflexivity.
  - unfold supplied. rewrite same_hue. reflexivity.
Qed.

End EditAdapters.

(** ** Wrapping the text of a meme *)

Section StripFacts.

Import Str Text.
Local Open Scope string_scope.
Local Open Scope list_scope.
Local Arguments String.append !_ _ / : simpl nomatch.

Lemma rev_app_append (s acc : string) :
  String.rev_app s acc = String.rev_app s "" +:+ acc.
Proof.
  revert acc; induction s as [|a s IH]; intros acc; [reflexivity|].
  cbn [String.rev_app]. rewrite (IH (String a acc)), (IH (String a "")).
  now rewrite append_assoc.
Qed.

Lemma rev_cons (a : ascii) (s : string) :
  String.rev (String a s) = String.rev s +:+ String a "".
Proof. unfold String.rev. cbn [String.rev_app]. apply rev_app_append. Qed.

Lemma rev_append (s t : string) :
  String.rev (s +:+ t) = String.rev t +:+ String.rev s.
Proof.
  induction s as [|a s IH]; simpl.
  - now rewrite append_empty_r.
  - now rewrite !rev_cons, IH, append_assoc.
Qed.

Lemma rev_involutive (s : string) : String.rev (String.rev s) = s.
Proof.
  induction s as [|a s IH]; [reflexivity|].
  now rewrite rev_cons, rev_append, IH.
Qed.

Lemma forall_chars_append (p : ascii -> bool) (s t : string) :
  forall_chars p (s +:+ t) = forall_chars p s && forall_chars p t.
Proof.
  induction s as [|a s IH]; simpl; [reflexivity|]. now rewrite IH, andb_assoc.
Qed.

Lemma forall_chars_rev (p : ascii -> bool) (s : string) :
  forall_chars p (String.rev s) = forall_chars p s.
Proof.
  induction s as [|a s IH]; [reflexivity|].
  rewrite rev_cons, forall_chars_append, IH. simpl.
  now rewrite andb_true_r, andb_comm.
Qed.

(** Stripping leaves a trimmed text as it is. *)
Lemma strip_trimmed (s : string) : trimmed s = true -> strip s = s.
Proof.
  unfold trimmed, strip, strip_chars.
  destruct s as [|a s]; [discriminate|].
  destruct (String.rev (String a s)) as [|b u] eqn:Hrev; [discriminate|].
  intros H. apply andb_true_iff in H as [Ha Hb].
  apply negb_true_iff in Ha, Hb.
  cbn [lstrip_chars]. rewrite Ha, Hrev. cbn [lstrip_chars]. rewrite Hb, <- Hrev.
  apply rev_involutive.
Qed.

Lemma trimmed_nonempty (s : string) : trimmed s = true -> s <> "".
Proof. now destruct s. Qed.

(** A non-empty text without white space is trimmed. *)
Lemma solid_trimmed (s : string) : solid s = true -> s <> "" -> trimmed s = true.
Proof.
  unfold solid, trimmed. intros Hs Hne.
  destruct s as [|a s]; [contradiction|].
  pose proof Hs as Hr. rewrite <- forall_chars_rev in Hr.
  destruct (String.rev (String a s)) as [|b u] eqn:Hrev.
  - apply (f_equal String.rev) in Hrev. rewrite rev_involutive in Hrev. discriminate.
  - simpl in Hs, Hr.
    apply andb_true_iff in Hs as [-> _]. now apply andb_true_iff in Hr as [-> _].
Qed.

(** Two trimmed texts with a space between them are a trimmed text. *)
Lemma trimmed_spaced (s t : string) :
  trimmed s = true -> trimmed t = true -> trimmed (s +:+ " " +:+ t) = true.
Proof.
  unfold trimmed. destruct s as [|a s]; [discriminate|].
  destruct t as [|c t]; [discriminate|].
  destruct (String.rev (String a s)) as [|b u] eqn:Hs; [discriminate|].
  destruct (String.rev (String c t)) as [|d v] eqn:Ht; [discriminate|].
  intros H1 H2. apply andb_true_iff in H1 as [Ha _]. apply andb_true_iff in H2 as [_ Hd].
  assert (String.rev (String a s +:+ " " +:+ String c t)
          = String d ((v +:+ " ") +:+ String b u)) as Hrev.
  { rewrite rev_append, Hs.
    change (" " +:+ String c t) with (String " " (String c t)).
    now rewrite rev_cons, Ht. }
  remember (String a s +:+ " " +:+ String c t) as x eqn:Hx.
  assert (x = String a (s +:+ " " +:+ String c t)) as Hhead by (subst x; reflexivity).
  rewrite Hhead in *. rewrite Hrev. now rewrite Ha, Hd.
Qed.

(** A space before a trimmed text is stripped away. *)
Lemma strip_leading_space (t : string) :
  trimmed t = true -> strip (String " " t) = t.
Proof. intros H. exact (strip_trimmed t H). Qed.

(** The words of a text are not empty and have no white space. *)
Lemma fields_solid (s : string) : Forall (fun w => solid w = true) (fields s).
Proof.
  induction s as [|c s IH]; simpl; [repeat constructor|].
  destruct (is_space c) eqn:Hc; [constructor; [reflexivity | exact IH]|].
  destruct (fields s) as [|w ws]; [repeat constructor; unfold solid; simpl; now rewrite Hc|].
  inversion IH as [|? ? Hw Hws]; subst.
  constructor; [|exact Hws]. unfold solid in *. simpl. now rewrite Hc, Hw.
Qed.

Lemma words_trimmed (s : string) : Forall (fun w => trimmed w = true) (words s).
Proof.
  unfold words. pose proof (fields_solid s) as H.
  induction H as [|w ws Hw _ IH]; [constructor|].
  cbn [List.filter]. destruct (String.eqb_spec w ""); [exact IH|].
  constructor; [now apply solid_trimmed | exact IH].
Qed.

(** Joining with a space: a piece made of two pieces is as good as the two. *)
Lemma join_cons (a : string) (l : list string) :
  l <> [] -> join " " (a :: l) = a +:+ " " +:+ join " " l.
Proof. destruct l; [contradiction | reflexivity]. Qed.

Lemma join_merged (l r : list string) (a b : string) :
  join " " (l ++ (a +:+ " " +:+ b) :: r) = join " " (l ++ a :: b :: r).
Proof.
  induction l as [|y l IH].
  - cbn [app]. rewrite (join_cons a (b :: r)) by discriminate.
    destruct r as [|x r]; [reflexivity|].
    rewrite (join_cons _ (x :: r)), (join_cons b (x :: r)) by discriminate.
    now rewrite !append_assoc.
  - cbn [app]. rewrite !join_cons by (now destruct l). now rewrite IH.
Qed.

End StripFacts.

Section WrapFacts.

Import Str Text Meme.
Local Open Scope string_scope.
Local Open Scope list_scope.
Local Open Scope Z_scope.

Variable measure : string -> Z.
Variable max_width : Z.
Variable all : list string.

(** A line is good when it is trimmed, and fits unless it is a single word. *)
Let good (line : string) : Prop :=
  trimmed line = true /\ (measure line <= max_width \/ In line all).

Let flush (lines : list string) (current : string) : list string :=
  if negb (String.eqb current "") then lines ++ [current] else lines.

Lemma flush_empty (lines : list string) : flush lines "" = lines.
Proof. reflexivity. Qed.

Lemma flush_line (lines : list string) (current : string) :
  current <> "" -> flush lines current = lines ++ [current].
Proof. intros H. unfold flush. now destruct (String.eqb_spec current ""). Qed.

(** The loop keeps the finished lines good, loses no word and leaves a
    line in the making once it has seen a word. *)
Lemma wrap_loop_invariant (todo : list string) :
  forall lines current,
  Forall (fun w => trimmed w = true /\ In w all) todo ->
  Forall good lines -> current = "" \/ good current ->
  Forall good (fst (wrap_loop measure max_width todo lines current))
  /\ (snd (wrap_loop measure max_width todo lines current) = ""
      \/ good (snd (wrap_loop measure max_width todo lines current)))
  /\ (todo <> [] \/ current <> "" ->
      snd (wrap_loop measure max_width todo lines current) <> "")
  /\ join " " (flush (fst (wrap_loop measure max_width todo lines current))
                 (snd (wrap_loop measure max_width todo lines current)))
     = join " " (flush lines current ++ todo).
Proof.
  induction todo as [|word rest IH]; intros lines current Htodo Hlines Hcur.
  - cbn [wrap_loop fst snd]. rewrite app_nil_r. repeat split; try assumption.
    intros [H | H]; [contradiction | exact H].
  - inversion Htodo as [|? ? [Hw Hin] Hrest]; subst.
    assert (strip (current +:+ " " +:+ word)
            = if String.eqb current "" then word else current +:+ " " +:+ word) as Htest.
    { destruct (String.eqb_spec current "") as [-> | Hne].
      - now apply strip_leading_space.
      - destruct Hcur as [-> | [Hc _]]; [contradiction|].
        now apply strip_trimmed, trimmed_spaced. }
    assert (trimmed (strip (current +:+ " " +:+ word)) = true) as Htrim.
    { rewrite Htest. destruct (String.eqb_spec current "") as [-> | Hne]; [exact Hw|].
      destruct Hcur as [-> | [Hc _]]; [contradiction|]. now apply trimmed_spaced. }
    cbn [wrap_loop].
    destruct (Z.leb_spec (measure (strip (current +:+ " " +:+ word))) max_width) as [Hfit | Hwide].
    + destruct (IH lines (strip (current +:+ " " +:+ word)) Hrest Hlines)
        as (Hl & Hc & Hne & Hjoin).
      { right. split; [exact Htrim | now left]. }
      split; [exact Hl|]. split; [exact Hc|]. split.
      * intros _. apply Hne. right. now apply trimmed_nonempty.
      * rewrite Hjoin, (flush_line _ _ (trimmed_nonempty _ Htrim)), Htest.
        destruct (String.eqb_spec current "") as [-> | Hcne].
        -- rewrite flush_empty. now rewrite <- app_assoc.
        -- rewrite (flush_line _ _ Hcne), <- !app_assoc. cbn [app].
           apply join_merged.
    + destruct (IH (flush lines current) word Hrest) as (Hl & Hc & Hne & Hjoin).
      { unfold flush. destruct (String.eqb_spec current "") as [-> | Hcne]; [exact Hlines|].
        cbn [negb]. apply Forall_app. split; [exact Hlines|].
        constructor; [|constructor]. destruct Hcur as [-> | Hc]; [contradiction | exact Hc]. }
      { right. split; [exact Hw | now right]. }
      fold (flush lines current).
      split; [exact Hl|]. split; [exact Hc|]. split.
      * intros _. apply Hne. right. now apply trimmed_nonempty.
      * rewrite Hjoin, (flush_line _ _ (trimmed_nonempty _ Hw)), <- app_assoc.
        reflexivity.
Qed.

End WrapFacts.

Section WrapContract.

Import Str Text Meme.
Local Open Scope string_scope.
Local Open Scope list_scope.
Local Open Scope Z_scope.

(** X22: wrapping loses nothing: the lines, joined by single spaces, are
    the words of the text joined by single spaces, in their order. Each line
    is free of white space at its ends, and fits the width unless it is a
    single word, which is never broken. A text without any word is returned
    as its only line. *)
Theorem wrap_text_keeps_words (measure : string -> Z) (max_width : Z) (text : string) :
  (words text = [] -> _wrap_text measure max_width text = [text])
  /\ (words text <> [] ->
      join " " (_wrap_text measure max_width text) = join " " (words text)
      /\ Forall (fun line =>
                   trimmed line = true
                   /\ (measure line <= max_width \/ In line (words text)))
           (_wrap_text measure max_width text)).
Proof.
  split.
  - intros H. unfold _wrap_text. now rewrite H.
  - intros Hwords.
    destruct (wrap_loop_invariant measure max_width (words text) (words text) [] "")
      as (Hl & Hc & Hne & Hjoin).
    { pose proof (words_trimmed text) as H.
      assert (forall l, Forall (fun w => trimmed w = true) l ->
                (forall w, In w l -> In w (words text)) ->
                Forall (fun w => trimmed w = true /\ In w (words text)) l) as Hall.
      { induction 1 as [|w l Hw _ IH]; intros Hsub; constructor.
        - split; [exact Hw | apply Hsub; now left].
        - apply IH. intros w' Hw'. apply Hsub. now right. }
      now apply Hall. }
    { constructor. }
    { now left. }
    specialize (Hne (or_introl Hwords)).
    unfold _wrap_text.
    destruct (wrap_loop measure max_width (words text) [] "") as [lines current].
    cbn [fst snd] in *.
    destruct (String.eqb_spec current "") as [E | _]; [contradiction|].
    cbn [negb] in *. cbn [app] in Hjoin.
    assert (lines ++ [current] <> []) as Hnonempty by (now destruct lines).
    destruct (lines ++ [current]) as [|l0 ls] eqn:E; [contradiction|].
    split; [exact Hjoin|].
    rewrite <- E. apply Forall_app. split; [exact Hl|].
    constructor; [|constructor]. destruct Hc as [-> | Hc]; [contradiction | exact Hc].
Qed.

(** Three words at six characters a line, a character being one unit wide. *)
Lemma wrap_text_keeps_words_witness :
  let measure := fun s : string => Z.of_nat (String.length s) in
  _wrap_text measure 6 "  one  two three " = ["one"; "two"; "three"]
  /\ join " " (_wrap_text measure 6 "  one  two three ") = "one two three".
Proof.
  intros measure. split; [reflexivity|].
  destruct (wrap_text_keeps_words measure 6 "  one  two three ") as (_ & H).
  destruct H as [Hjoin _]; [discriminate|]. exact Hjoin.
Defined.

End WrapContract.

(** ** The colour of a watermark *)

Section WatermarkColor.

Import Str Py Tool Text Watermark.
Local Open Scope string_scope.
Local Open Scope list_scope.
Local Open Scope Z_scope.










End WatermarkColor.
